(** * prgpt: pull-request summary generator

    A shallow embedding of the three revisions of the program kept in
    this repository (src/main.go and the two revisions in
    src/unnamed/part_000), and the properties stated about them.

    - Strings are Go strings: sequences of bytes ([string] over [ascii]).
    - [float64] is the kernel's binary64 ([PrimFloat.float]).
    - The outside world (argument vector, subprocesses, HTTP peers) is a
      record of oracles; a run of the program yields an outcome and the
      sequence of externally visible events it performed. *)

From Stdlib Require Import String Ascii List ZArith NArith Lia Bool.
From Stdlib Require Import Floats.
From Stdlib Require Import Reals Lra.
Import ListNotations.

Local Open Scope list_scope.
Local Open Scope string_scope.

(* ================================================================= *)
(** ** Go strings *)

(** The line feed, written [\n] in the Go sources. *)
Definition nl : string := String "010"%char EmptyString.

(** The double quote character. *)
Definition dq : string := String "034"%char EmptyString.

Definition bytes (s : string) : list ascii := list_ascii_of_string s.
Definition of_bytes (l : list ascii) : string := string_of_list_ascii l.

(** [len(s)]: the number of bytes. *)
Definition len (s : string) : nat := String.length s.

Fixpoint strip_prefix (p s : list ascii) : option (list ascii) :=
  match p, s with
  | [], _ => Some s
  | a :: p', b :: s' => if Ascii.eqb a b then strip_prefix p' s' else None
  | _ :: _, [] => None
  end.

(** [strings.TrimPrefix(s, prefix)]. *)
Definition TrimPrefix (s prefix : string) : string :=
  match strip_prefix (bytes prefix) (bytes s) with
  | Some rest => of_bytes rest
  | None => s
  end.

Definition byte (n : nat) : ascii := ascii_of_nat n.

(** The UTF-8 encodings of the code points for which [unicode.IsSpace]
    holds: U+0009..U+000D, U+0020, U+0085, U+00A0, U+1680,
    U+2000..U+200A, U+2028, U+2029, U+202F, U+205F, U+3000. *)
Definition space_runes : list (list ascii) :=
  (map (fun c => [byte c]) [9; 10; 11; 12; 13; 32]
   ++ [[byte 194; byte 133]; [byte 194; byte 160]; [byte 225; byte 154; byte 128]]
   ++ map (fun c => [byte 226; byte 128; byte c])
          [128; 129; 130; 131; 132; 133; 134; 135; 136; 137; 138; 168; 169; 175]
   ++ [[byte 226; byte 129; byte 159]; [byte 227; byte 128; byte 128]])%list.

(** Remove one leading element of [runes], if there is one. *)
Fixpoint strip_one (runes : list (list ascii)) (s : list ascii)
  : option (list ascii) :=
  match runes with
  | [] => None
  | r :: rs =>
      match strip_prefix r s with
      | Some rest => Some rest
      | None => strip_one rs s
      end
  end.

Fixpoint trim_left (fuel : nat) (runes : list (list ascii)) (s : list ascii)
  : list ascii :=
  match fuel with
  | O => s
  | S n =>
      match strip_one runes s with
      | Some rest => trim_left n runes rest
      | None => s
      end
  end.

(** [strings.TrimSpace(s)]: leading, then trailing white space removed.
    The trailing pass reads the bytes backwards, as
    [utf8.DecodeLastRuneInString] does. *)
Definition TrimSpace (s : string) : string :=
  let l := trim_left (len s) space_runes (bytes s) in
  of_bytes (rev (trim_left (length l) (map (@rev ascii) space_runes) (rev l))).

(** [strings.Join]-like concatenation with a separator. *)
Fixpoint join (sep : string) (l : list string) : string :=
  match l with
  | [] => ""
  | [x] => x
  | x :: rest => x ++ sep ++ join sep rest
  end.

(** [s] contains the strings of [hs] one after the other, in this order
    and without overlap. *)
Fixpoint occur_in_order (hs : list string) (s : string) : Prop :=
  match hs with
  | [] => True
  | h :: hs' => exists before after,
      s = before ++ h ++ after /\ occur_in_order hs' after
  end.

(* ================================================================= *)
(** ** encoding/base64 *)

Module Base64.

Definition encodeStd : string :=
  "ABCDEFGHIJKLMNOPQRSTUVWXYZabcdefghijklmnopqrstuvwxyz0123456789+/".

Definition digit (n : N) : string :=
  match String.get (N.to_nat (n mod 64)) encodeStd with
  | Some c => String c EmptyString
  | None => "="
  end.

(** [StdEncoding.EncodeToString] on a byte sequence given by its
    byte values: three bytes make four digits, the last group is
    padded with [=]. *)
Fixpoint encode (src : list N) : string :=
  match src with
  | [] => ""
  | [a] =>
      let v := (a * 65536)%N in
      digit (v / 262144) ++ digit (v / 4096) ++ "=="
  | [a; b] =>
      let v := (a * 65536 + b * 256)%N in
      digit (v / 262144) ++ digit (v / 4096) ++ digit (v / 64) ++ "="
  | a :: b :: c :: rest =>
      let v := (a * 65536 + b * 256 + c)%N in
      digit (v / 262144) ++ digit (v / 4096) ++ digit (v / 64) ++ digit v
      ++ encode rest
  end.

Definition EncodeToString (src : string) : string :=
  encode (map N_of_ascii (bytes src)).

End Base64.

(* ================================================================= *)
(** ** The arithmetic of the embedding normalizer *)

(** The operations [processEmbeddings] performs on its numbers; the
    program runs them on [float64]. *)
Class Arith (F : Type) : Type := {
  fzero : F;
  fadd : F -> F -> F;
  fmul : F -> F -> F;
  fdiv : F -> F -> F;
  fsqrt : F -> F
}.

#[export] Instance float64 : Arith float := {
  fzero := 0%float;
  fadd := PrimFloat.add;
  fmul := PrimFloat.mul;
  fdiv := PrimFloat.div;
  fsqrt := PrimFloat.sqrt
}.

Section Normalizer.
Context {F : Type} `{Arith F}.

(** The first loop of [processEmbeddings]:
    [for _, v := range embeddings { magnitude += v * v }]. *)
Definition sum_squares (embeddings : list F) : F :=
  fold_left (fun magnitude v => fadd magnitude (fmul v v)) embeddings fzero.

(** [magnitude = math.Sqrt(magnitude)]. *)
Definition magnitude (embeddings : list F) : F :=
  fsqrt (sum_squares embeddings).

(** The second loop: [normalized[i] = v / magnitude] for every index
    of a slice made with the length of the input. *)
Definition normalized (embeddings : list F) : list F :=
  let magnitude := magnitude embeddings in
  map (fun v => fdiv v magnitude) embeddings.

(** The Euclidean norm of a vector, computed as the program computes
    a magnitude. *)
Definition norm (v : list F) : F := magnitude v.

End Normalizer.

(* ================================================================= *)
(** ** The numbers a float64 stands for *)

(** 2 to the power [e], for an exponent of either sign. *)
Definition exp2 (e : Z) : R := powerRZ 2 e.

(** The real number of a finite binary64 value; zero for the others. *)
Definition SF2R (x : spec_float) : R :=
  match x with
  | S754_finite s m e =>
      (if s then - IZR (Zpos m) else IZR (Zpos m)) * exp2 e
  | _ => 0%R
  end.

Definition value (x : float) : R := SF2R (Prim2SF x).

(** Zero or finite: neither an infinity nor NaN. *)
Definition finite_SF (x : spec_float) : Prop :=
  match x with
  | S754_zero _ | S754_finite _ _ _ => True
  | _ => False
  end.

Definition finite (x : float) : Prop := finite_SF (Prim2SF x).

(** The unit roundoff of binary64, and half of its smallest positive
    number. *)
Definition unit_roundoff : R := exp2 (-53).
Definition half_least : R := exp2 (-1075).

(** Where a real number lies between a mantissa and its successor,
    as the round bit and the sticky bit of a shifted mantissa tell. *)
Definition frac_ok (rho : R) (r s : bool) : Prop :=
  match r, s with
  | false, false => rho = 0%R
  | false, true => (0 < rho < 1 / 2)%R
  | true, false => rho = (1 / 2)%R
  | true, true => (1 / 2 < rho < 1)%R
  end.

(** The record [mrs] at exponent [e] stands for the real [X]. *)
Definition represents (X : R) (mrs : shr_record) (e : Z) : Prop :=
  (0 <= shr_m mrs)%Z /\
  exists rho : R,
    frac_ok rho (shr_r mrs) (shr_s mrs) /\
    X = ((IZR (shr_m mrs) + rho) * exp2 e)%R.

(** [z] is finite and is the real [t] rounded: off by at most the
    unit roundoff relative to [t], plus half the smallest positive
    number, and of the sign of [t]. *)
Definition rounds_to (z : spec_float) (t : R) : Prop :=
  finite_SF z /\
  (Rabs (SF2R z - t) <= unit_roundoff * Rabs t + half_least)%R /\
  ((0 <= t)%R -> (0 <= SF2R z)%R) /\
  ((t <= 0)%R -> (SF2R z <= 0)%R).

(** Finite and not negative; NaN or the positive infinity.  The sum of
    squares is one or the other at every step. *)
Definition nonneg_finite (x : float) : Prop :=
  finite x /\ (0 <= value x)%R.

Definition nan_or_inf (x : float) : Prop :=
  Prim2SF x = S754_nan \/ Prim2SF x = S754_infinity false.

(** The sum of the squares of the numbers the elements stand for. *)
Definition real_sum_squares (l : list float) : R :=
  fold_right (fun x s => (value x * value x + s)%R) 0%R l.

(* ================================================================= *)
(** ** JSON values *)

(** A JSON text as [encoding/json] reads or writes it.  A number keeps
    its literal; the members of an object keep their order. *)
#[local] Set Warnings "-register-all".
Inductive json : Type :=
| JNull
| JBool (b : bool)
| JNum (literal : string)
| JStr (s : string)
| JArr (elems : list json)
| JObj (members : list (string * json)).

(** The word [UnmarshalTypeError] uses for a JSON value. *)
Definition kind (j : json) : string :=
  match j with
  | JNull => "null"
  | JBool _ => "bool"
  | JNum _ => "number"
  | JStr _ => "string"
  | JArr _ => "array"
  | JObj _ => "object"
  end.

(** The dynamic type of a JSON value decoded into [interface{}]. *)
Definition dynamic_type (j : json) : string :=
  match j with
  | JNull => "nil"
  | JBool _ => "bool"
  | JNum _ => "float64"
  | JStr _ => "string"
  | JArr _ => "[]interface {}"
  | JObj _ => "map[string]interface {}"
  end.

(** Reading a key of a Go map filled from the members of an object in
    their order: a later member with the same key replaces an earlier
    one. *)
Fixpoint map_index (key : string) (members : list (string * json))
  : option json :=
  match members with
  | [] => None
  | (k, v) :: rest =>
      match map_index key rest with
      | Some v' => Some v'
      | None => if String.eqb k key then Some v else None
      end
  end.

Definition upper (a : ascii) : ascii :=
  let n := nat_of_ascii a in
  if (97 <=? n)%nat && (n <=? 122)%nat then byte (n - 32) else a.

(** The case folding [encoding/json] applies to object keys when no
    struct field has the exact name: ASCII letters in upper case, the
    Kelvin sign (U+212A) as [K] and the long s (U+017F) as [S]. *)
Fixpoint fold_name (s : list ascii) : list ascii :=
  match s with
  | [] => []
  | a :: rest =>
      match rest with
      | b :: ((c :: rest3) as rest2) =>
          if Ascii.eqb a (byte 226) && Ascii.eqb b (byte 132)
             && Ascii.eqb c (byte 170)
          then "K"%char :: fold_name rest3
          else if Ascii.eqb a (byte 197) && Ascii.eqb b (byte 191)
          then "S"%char :: fold_name rest2
          else upper a :: fold_name rest
      | [b] =>
          if Ascii.eqb a (byte 197) && Ascii.eqb b (byte 191)
          then ["S"%char]
          else upper a :: fold_name rest
      | [] => [upper a]
      end
  end.

Definition equal_fold (a b : string) : bool :=
  String.eqb (of_bytes (fold_name (bytes a))) (of_bytes (fold_name (bytes b))).

(** The struct field an object key is stored into: the field with
    exactly this name, or else the first one that is equal to it under
    [equal_fold]. *)
Definition find_field (fields : list string) (key : string) : option string :=
  match find (String.eqb key) fields with
  | Some f => Some f
  | None => find (equal_fold key) fields
  end.

(** [Decoder.saveError]: only the first error is kept. *)
Definition saveError (saved : option string) (err : string) : option string :=
  match saved with
  | Some e => Some e
  | None => Some err
  end.

(** [UnmarshalTypeError.Error()]. *)
Definition typeError (value structName field type : string) : string :=
  "json: cannot unmarshal " ++ value ++ " into Go struct field "
  ++ structName ++ "." ++ field ++ " of type " ++ type.

Definition valueError (value type : string) : string :=
  "json: cannot unmarshal " ++ value ++ " into Go value of type " ++ type.

(** Decoding a JSON value into a [string] variable holding [old]. *)
Definition decodeString (structName field : string) (old : string) (j : json)
  (saved : option string) : string * option string :=
  match j with
  | JStr s => (s, saved)
  | JNull => (old, saved)
  | _ => (old, saveError saved (typeError (kind j) structName field "string"))
  end.

(** Decoding a JSON value into a [bool] variable holding [old]. *)
Definition decodeBool (structName field : string) (old : bool) (j : json)
  (saved : option string) : bool * option string :=
  match j with
  | JBool b => (b, saved)
  | JNull => (old, saved)
  | _ => (old, saveError saved (typeError (kind j) structName field "bool"))
  end.

(* ================================================================= *)
(** ** The outside world and runs of the program *)

(** What [exec.Command(name, args...).Output()] gives back: the bytes
    the subprocess wrote to its standard output, or an error (the
    process could not be started, or it exited with a non-zero
    status). *)
Inductive cmd_result : Type :=
| Succeeded (output : string)
| Failed (err : string).

(** What an HTTP POST gives back: a transport error, or a response
    with its body, both as bytes and as [encoding/json] scans it (the
    message of the syntax error when the body is not a JSON text). *)
Inductive http_result : Type :=
| Unreachable (err : string)
| Answered (body : string) (scanned : string + json).

Record World : Type := {
  (** [os.Args], the program name first *)
  os_Args : list string;
  (** [os.Getenv] *)
  os_Getenv : string -> string;
  (** running a subprocess and collecting its standard output *)
  cmd_Output : string -> list string -> cmd_result;
  (** posting a JSON payload to a URL *)
  http_Do : string -> json -> http_result;
  (** [strconv.ParseFloat(literal, 64)] as the JSON decoder calls it;
      [None] when the literal is out of range *)
  strconv_ParseFloat : string -> option float;
  (** the decimal text the JSON encoder writes for a finite float64 *)
  strconv_FormatFloat : float -> string
}.

(** The externally visible steps of a run. *)
Inductive event : Type :=
| Exec (name : string) (args : list string)
| Stdout (text : string)
| Post (url : string) (headers : list (string * string)) (payload : json).

(** How a computation ends: with a value, by [os.Exit], or by a
    run-time panic. *)
Inductive outcome (A : Type) : Type :=
| Returned (a : A)
| Exited (code : Z)
| Panicked (msg : string).
Arguments Returned {A} a.
Arguments Exited {A} code.
Arguments Panicked {A} msg.

(** A computation: its outcome and the events it performed, in order. *)
Definition Run (A : Type) : Type := (outcome A * list event)%type.

Definition ret {A} (a : A) : Run A := (Returned a, []).

Definition bind {A B} (m : Run A) (k : A -> Run B) : Run B :=
  match m with
  | (Returned a, t) => let (o, t') := k a in (o, (t ++ t')%list)
  | (Exited code, t) => (Exited code, t)
  | (Panicked msg, t) => (Panicked msg, t)
  end.

Notation "x <- m ;; k" := (bind m (fun x => k))
  (at level 61, m at next level, right associativity).
Notation "m ;; k" := (bind m (fun _ => k))
  (at level 61, right associativity).

Definition emit (e : event) : Run unit := (Returned tt, [e]).

(** [fmt.Print] of an already formatted text. *)
Definition Printf (text : string) : Run unit := emit (Stdout text).

(** [fmt.Println(s)]. *)
Definition Println (s : string) : Run unit := emit (Stdout (s ++ nl)).

Definition os_Exit {A} (code : Z) : Run A := (Exited code, []).

Definition panic {A} (msg : string) : Run A := (Panicked msg, []).

Definition result_of {A} (m : Run A) : outcome A := fst m.
Definition trace_of {A} (m : Run A) : list event := snd m.

(** The payloads posted to [url], in order. *)
Fixpoint posts_to (url : string) (t : list event) : list json :=
  match t with
  | [] => []
  | Post u _ payload :: rest =>
      if String.eqb u url then payload :: posts_to url rest
      else posts_to url rest
  | _ :: rest => posts_to url rest
  end.

(** The subprocesses started, in order. *)
Fixpoint commands (t : list event) : list (string * list string) :=
  match t with
  | [] => []
  | Exec name args :: rest => (name, args) :: commands rest
  | _ :: rest => commands rest
  end.

(** The texts written to standard output, in order. *)
Fixpoint printed (t : list event) : list string :=
  match t with
  | [] => []
  | Stdout text :: rest => text :: printed rest
  | _ :: rest => printed rest
  end.

(* ================================================================= *)
(** ** Code shared by the three revisions *)

Definition anthropicAPIURL : string := "https://api.anthropic.com/v1/messages".

(** [var anthropicAPIKey = os.Getenv("ANTHROPIC_API_KEY")]. *)
Definition anthropicAPIKey (W : World) : string :=
  os_Getenv W "ANTHROPIC_API_KEY".

(** The string every failure of the summarizer degrades to. *)
Definition fallback : string := "Unable to generate summary".

(** [getCommandOutput] (the same text in the three revisions). *)
Definition getCommandOutput (W : World) (name : string) (args : list string)
  : Run string :=
  emit (Exec name args) ;;
  match cmd_Output W name args with
  | Failed err =>
      Printf ("Error executing command: " ++ err ++ nl) ;;
      os_Exit 1
  | Succeeded output => ret (TrimSpace output)
  end.

(** [client.Do(req)] or [http.Post]: the request goes out, the world
    answers. *)
Definition post (W : World) (url : string) (headers : list (string * string))
  (payload : json) : Run http_result :=
  emit (Post url headers payload) ;;
  ret (http_Do W url payload).

(** A Go result pair [(value, error)]. *)
Inductive fallible (A : Type) : Type :=
| Ok (a : A)
| Err (err : string).
Arguments Ok {A} a.
Arguments Err {A} err.

(** The report template, with the header line of its summary section
    ([## Summary:] or [# Summary:]) left open. *)
Definition report (summaryHeader currentBranch commits changesOverview summary
  : string) : string :=
  "# Pull Request Summary" ++ nl ++
  nl ++
  "## Branch: " ++ currentBranch ++ nl ++
  nl ++
  "## Commits:" ++ nl ++
  commits ++ nl ++
  nl ++
  "## Changes Overview:" ++ nl ++
  changesOverview ++ nl ++
  nl ++
  summaryHeader ++ nl ++
  summary ++ nl ++
  nl ++
  "## Detailed Description:" ++ nl ++
  "<!-- Please provide a detailed description of the changes in this PR -->"
  ++ nl.

(* ================================================================= *)
(** ** src/main.go *)

Module MainGo.

(** [prompt] and [requestBody] in [getAnthropicSummary]; the keys of a
    marshalled Go map come out sorted. *)
Definition prompt (content : string) : string :=
  "Summarize the following Git commits and changes overview:" ++ nl ++ nl
  ++ content ++ nl ++ nl ++ "Provide a concise summary of the changes:".

Definition requestBody (content : string) : json :=
  JObj [("max_tokens", JNum "8096");
        ("messages",
         JArr [JObj [("content", JStr (prompt content)); ("role", JStr "user")]]);
        ("model", JStr "claude-3-5-sonnet-20240620")].

Definition headers (W : World) : list (string * string) :=
  [("Content-Type", "application/json");
   ("X-API-Key", anthropicAPIKey W);
   ("anthropic-version", "2023-06-01")].

(** The end of [getAnthropicSummary], from [json.Unmarshal] on: the
    text of the first content segment of the scanned body. *)
Definition firstText (scanned : string + json) : Run string :=
  (* [json.Unmarshal(body, &result)], its error dropped: the map stays
     nil unless the body is a JSON object *)
  let result :=
    match scanned with
    | inr (JObj members) => members
    | _ => []
    end in
  match map_index "content" result with
  | Some (JArr content) =>
      match content with
      | first :: _ =>
          match first with
          | JObj segment =>
              match map_index "text" segment with
              | Some (JStr text) => ret text
              | _ => ret fallback
              end
          | other =>
              panic ("interface conversion: interface {} is "
                     ++ dynamic_type other
                     ++ ", not map[string]interface {}")
          end
      | [] => ret fallback
      end
  | _ => ret fallback
  end.

Definition getAnthropicSummary (W : World) (content : string) : Run string :=
  resp <- post W anthropicAPIURL (headers W) (requestBody content) ;;
  match resp with
  | Unreachable err =>
      Printf ("Error calling Anthropic API: " ++ err ++ nl) ;;
      ret fallback
  | Answered body scanned => firstText scanned
  end.

Definition prSummary := report "## Summary:".

Definition main (W : World) : Run unit :=
  currentBranch <-
    getCommandOutput W "git" ["rev-parse"; "--abbrev-ref"; "HEAD"] ;;
  originHead <-
    getCommandOutput W "git" ["rev-parse"; "--abbrev-ref"; "origin/HEAD"] ;;
  let baseBranch := TrimPrefix originHead "origin/" in
  commits <-
    getCommandOutput W "git"
      ["log"; baseBranch ++ ".." ++ currentBranch;
       "--pretty=format:%h - %s"] ;;
  changesOverview <-
    getCommandOutput W "git"
      ["diff"; "--stat"; baseBranch ++ ".." ++ currentBranch] ;;
  let content :=
    "Commits:" ++ nl ++ commits ++ nl ++ nl
    ++ "Changes Overview:" ++ nl ++ changesOverview in
  summary <- getAnthropicSummary W content ;;
  Println (prSummary currentBranch commits changesOverview summary).

End MainGo.

(* ================================================================= *)
(** ** src/unnamed/part_000, first program *)

Module Part000a.

(** The same text as in src/main.go. *)
Definition getAnthropicSummary := MainGo.getAnthropicSummary.

Definition prSummary := report "## Summary:".

Definition main (W : World) : Run unit :=
  currentBranch <-
    getCommandOutput W "git" ["rev-parse"; "--abbrev-ref"; "HEAD"] ;;
  originHead <-
    getCommandOutput W "git" ["rev-parse"; "--abbrev-ref"; "origin/HEAD"] ;;
  let baseBranch :=
    match os_Args W with
    | _ :: arg :: _ => arg
    | _ => TrimPrefix originHead "origin/"
    end in
  commits <-
    getCommandOutput W "git"
      ["log"; baseBranch ++ ".." ++ currentBranch;
       "--pretty=format:%h - %s"] ;;
  detailedDiff <-
    getCommandOutput W "git" ["diff"; baseBranch ++ ".." ++ currentBranch] ;;
  changesOverview <-
    getCommandOutput W "git"
      ["diff"; "--stat"; baseBranch ++ ".." ++ currentBranch] ;;
  let content :=
    "Detailed Changes:" ++ nl ++ detailedDiff ++ nl ++ nl
    ++ "Changes Overview:" ++ nl ++ changesOverview in
  (* [content] is assigned in the first branch and not read again *)
  state <-
    (if (2 <? len commits)%nat then
       Println "Printing out content" ;;
       ret (content ++ nl ++ nl ++ "Commits:" ++ nl ++ commits, "")
     else
       summary <- getAnthropicSummary W content ;;
       ret (content, summary)) ;;
  let summary := snd state in
  Println (prSummary currentBranch commits changesOverview summary).

End Part000a.

(* ================================================================= *)
(** ** src/unnamed/part_000, second program *)

Module Part000b.

Definition ollamaAPIURL : string := "http://localhost:11434/api/embeddings".
Definition ollamaCompletionURL : string := "http://localhost:11434/api/generate".

Record OllamaEmbeddingResponse : Type := { Embedding : list float }.

Record OllamaCompletionResponse : Type := { Response : string; Done : bool }.

(** The anonymous struct types of [result] in [getAnthropicSummary]. *)
Record Segment : Type := { Text : string }.
Record Result : Type := { Content : list Segment }.

Definition SegmentType : string :=
  "struct { Text string " ++ dq ++ "json:\" ++ dq ++ "text\" ++ dq ++ dq ++ " }".
Definition ResultType : string :=
  "struct { Content []" ++ SegmentType ++ " "
  ++ dq ++ "json:\" ++ dq ++ "content\" ++ dq ++ dq ++ " }".

(** *** Decoding into the response structs *)

Definition decodeFloat (W : World) (old : float) (j : json)
  (saved : option string) : float * option string :=
  match j with
  | JNum literal =>
      match strconv_ParseFloat W literal with
      | Some v => (v, saved)
      | None =>
          (old, saveError saved
                  (typeError ("number " ++ literal)
                     "OllamaEmbeddingResponse" "embedding" "float64"))
      end
  | JNull => (old, saved)
  | _ =>
      (old, saveError saved
              (typeError (kind j) "OllamaEmbeddingResponse" "embedding"
                 "float64"))
  end.

(** Decoding an array into a slice: element [i] is decoded into the
    element the slice already has at [i], or into a zero value. *)
Fixpoint decodeFloats (W : World) (old : list float) (elems : list json)
  (saved : option string) : list float * option string :=
  match elems with
  | [] => ([], saved)
  | j :: js =>
      let (v0, old') :=
        match old with
        | v :: o => (v, o)
        | [] => (0%float, [])
        end in
      let (v, saved1) := decodeFloat W v0 j saved in
      let (rest, saved2) := decodeFloats W old' js saved1 in
      (v :: rest, saved2)
  end.

Fixpoint decodeEmbeddingFields (W : World) (r : OllamaEmbeddingResponse)
  (members : list (string * json)) (saved : option string)
  : OllamaEmbeddingResponse * option string :=
  match members with
  | [] => (r, saved)
  | (key, v) :: rest =>
      match find_field ["embedding"] key with
      | Some _ =>
          match v with
          | JArr elems =>
              let (l, saved') := decodeFloats W (Embedding r) elems saved in
              decodeEmbeddingFields W {| Embedding := l |} rest saved'
          | JNull => decodeEmbeddingFields W {| Embedding := [] |} rest saved
          | _ =>
              decodeEmbeddingFields W r rest
                (saveError saved
                   (typeError (kind v) "OllamaEmbeddingResponse" "embedding"
                      "[]float64"))
          end
      | None => decodeEmbeddingFields W r rest saved
      end
  end.

Definition decodeEmbeddingResponse (W : World) (j : json)
  : OllamaEmbeddingResponse * option string :=
  let r := {| Embedding := [] |} in
  match j with
  | JObj members => decodeEmbeddingFields W r members None
  | JNull => (r, None)
  | _ => (r, Some (valueError (kind j) "main.OllamaEmbeddingResponse"))
  end.

Fixpoint decodeCompletionFields (r : OllamaCompletionResponse)
  (members : list (string * json)) (saved : option string)
  : OllamaCompletionResponse * option string :=
  match members with
  | [] => (r, saved)
  | (key, v) :: rest =>
      match find_field ["response"; "done"] key with
      | Some field =>
          if String.eqb field "response" then
            let (x, saved') :=
              decodeString "OllamaCompletionResponse" "response"
                (Response r) v saved in
            decodeCompletionFields {| Response := x; Done := Done r |}
              rest saved'
          else
            let (x, saved') :=
              decodeBool "OllamaCompletionResponse" "done" (Done r) v saved in
            decodeCompletionFields {| Response := Response r; Done := x |}
              rest saved'
      | None => decodeCompletionFields r rest saved
      end
  end.

Definition decodeCompletionResponse (j : json)
  : OllamaCompletionResponse * option string :=
  let r := {| Response := ""; Done := false |} in
  match j with
  | JObj members => decodeCompletionFields r members None
  | JNull => (r, None)
  | _ => (r, Some (valueError (kind j) "main.OllamaCompletionResponse"))
  end.

Fixpoint decodeSegmentFields (seg : Segment) (members : list (string * json))
  (saved : option string) : Segment * option string :=
  match members with
  | [] => (seg, saved)
  | (key, v) :: rest =>
      match find_field ["text"] key with
      | Some _ =>
          let (x, saved') := decodeString "" "content.text" (Text seg) v saved in
          decodeSegmentFields {| Text := x |} rest saved'
      | None => decodeSegmentFields seg rest saved
      end
  end.

Definition decodeSegment (seg : Segment) (j : json) (saved : option string)
  : Segment * option string :=
  match j with
  | JObj members => decodeSegmentFields seg members saved
  | JNull => (seg, saved)
  | _ => (seg, saveError saved (typeError (kind j) "" "content" SegmentType))
  end.

Fixpoint decodeSegments (old : list Segment) (elems : list json)
  (saved : option string) : list Segment * option string :=
  match elems with
  | [] => ([], saved)
  | j :: js =>
      let (seg0, old') :=
        match old with
        | x :: o => (x, o)
        | [] => ({| Text := "" |}, [])
        end in
      let (seg, saved1) := decodeSegment seg0 j saved in
      let (rest, saved2) := decodeSegments old' js saved1 in
      (seg :: rest, saved2)
  end.

Fixpoint decodeResultFields (r : Result) (members : list (string * json))
  (saved : option string) : Result * option string :=
  match members with
  | [] => (r, saved)
  | (key, v) :: rest =>
      match find_field ["content"] key with
      | Some _ =>
          match v with
          | JArr elems =>
              let (l, saved') := decodeSegments (Content r) elems saved in
              decodeResultFields {| Content := l |} rest saved'
          | JNull => decodeResultFields {| Content := [] |} rest saved
          | _ =>
              decodeResultFields r rest
                (saveError saved
                   (typeError (kind v) "" "content" ("[]" ++ SegmentType)))
          end
      | None => decodeResultFields r rest saved
      end
  end.

(** [json.Unmarshal(body, &result)] on a scanned body: the decoded
    struct and the error returned, if any. *)
Definition decodeResult (j : json) : Result * option string :=
  let r := {| Content := [] |} in
  match j with
  | JObj members => decodeResultFields r members None
  | JNull => (r, None)
  | _ => (r, Some (valueError (kind j) ResultType))
  end.

(** *** The functions of the program *)

Definition jsonHeaders : list (string * string) :=
  [("Content-Type", "application/json")].

(** The marshalled [OllamaEmbeddingRequest] ([Options] is nil and
    omitted). *)
Definition embeddingRequest (text : string) : json :=
  JObj [("model", JStr "nomic-embed-text"); ("prompt", JStr text)].

Definition getEmbeddings (W : World) (text : string)
  : Run (fallible (list float)) :=
  resp <- post W ollamaAPIURL jsonHeaders (embeddingRequest text) ;;
  match resp with
  | Unreachable err => ret (Err ("error calling Ollama API: " ++ err))
  | Answered _ (inl err) => ret (Err ("error decoding response: " ++ err))
  | Answered _ (inr j) =>
      match decodeEmbeddingResponse W j with
      | (_, Some err) => ret (Err ("error decoding response: " ++ err))
      | (result, None) => ret (Ok (Embedding result))
      end
  end.

(** [json.Marshal] of a slice of float64: an error when an element is
    not finite. *)
Definition marshalFloats (W : World) (l : list float) : option string :=
  if forallb PrimFloat.is_finite l
  then Some ("[" ++ join "," (map (strconv_FormatFloat W) l) ++ "]")
  else None.

Definition processEmbeddings (W : World) (embeddings : list float) : string :=
  let normalized := normalized embeddings in
  (* [bytes, _ := json.Marshal(normalized)]: nil on error *)
  let bytes :=
    match marshalFloats W normalized with
    | Some b => b
    | None => ""
    end in
  Base64.EncodeToString bytes.

(** The marshalled [OllamaCompletionRequest] of [compressLogs]. *)
Definition completionRequest (content : string) : json :=
  let prompt :=
    "Compress and summarize the following git changes into a concise but informative format, "
    ++ nl ++ "preserving the most important technical details:" ++ nl
    ++ nl ++ content ++ nl
    ++ nl ++ "Compressed summary:" in
  JObj [("model", JStr "llama2:3.2"); ("prompt", JStr prompt);
        ("stream", JBool false)].

Definition compressLogs (W : World) (content : string)
  : Run (fallible string) :=
  resp <- post W ollamaCompletionURL jsonHeaders (completionRequest content) ;;
  match resp with
  | Unreachable err => ret (Err ("error calling Ollama API: " ++ err))
  | Answered _ (inl err) => ret (Err ("error decoding response: " ++ err))
  | Answered _ (inr j) =>
      match decodeCompletionResponse j with
      | (_, Some err) => ret (Err ("error decoding response: " ++ err))
      | (result, None) => ret (Ok (Response result))
      end
  end.

(** [prompt] in [getAnthropicSummary]. *)
Definition prompt (processedEmbeddings compressedContent content : string)
  : string :=
  "Here are the Git changes with their semantic embeddings:" ++ nl
  ++ nl ++ "Embeddings: " ++ processedEmbeddings ++ nl
  ++ nl ++ "Compressed Changes:" ++ nl
  ++ compressedContent ++ nl
  ++ nl ++ "Original Content Summary:" ++ nl
  ++ content ++ nl
  ++ nl
  ++ "Based on these changes, provide a concise summary of the modifications:".

(** [requestBody] in [getAnthropicSummary]; the keys of a marshalled Go
    map come out sorted. *)
Definition requestBody (prompt : string) : json :=
  JObj [("max_tokens", JNum "4096");
        ("messages",
         JArr [JObj [("content", JStr prompt); ("role", JStr "user")]]);
        ("model", JStr "claude-3-5-sonnet-latest")].

Definition headers (W : World) : list (string * string) :=
  [("Content-Type", "application/json");
   ("x-api-key", anthropicAPIKey W);
   ("anthropic-version", "2023-06-01")].

(** The end of [getAnthropicSummary], from [json.Unmarshal] on: the
    text of the first content segment of the scanned body. *)
Definition firstText (scanned : string + json) : Run string :=
  match scanned with
  | inl err =>
      Printf ("Error unmarshaling response: " ++ err ++ nl) ;;
      ret fallback
  | inr j =>
      match decodeResult j with
      | (_, Some err) =>
          Printf ("Error unmarshaling response: " ++ err ++ nl) ;;
          ret fallback
      | (result, None) =>
          match Content result with
          | first :: _ => ret (Text first)
          | [] => ret fallback
          end
      end
  end.

Definition getAnthropicSummary (W : World) (content : string) : Run string :=
  compressed <- compressLogs W content ;;
  compressedContent <-
    match compressed with
    | Err err =>
        Printf ("Error compressing logs: " ++ err ++ nl) ;;
        ret content (* Fallback to original content *)
    | Ok c => ret c
    end ;;
  embedded <- getEmbeddings W compressedContent ;;
  match embedded with
  | Err err =>
      Printf ("Error getting embeddings: " ++ err ++ nl) ;;
      ret fallback
  | Ok embeddings =>
      let processedEmbeddings := processEmbeddings W embeddings in
      let prompt := prompt processedEmbeddings compressedContent content in
      resp <- post W anthropicAPIURL (headers W) (requestBody prompt) ;;
      match resp with
      | Unreachable err =>
          Printf ("Error calling Anthropic API: " ++ err ++ nl) ;;
          ret fallback
      | Answered body scanned =>
          Printf ("Anthropic API Response: " ++ body ++ nl) ;;
          firstText scanned
      end
  end.

Definition prSummary := report "# Summary:".

Definition main (W : World) : Run unit :=
  currentBranch <-
    getCommandOutput W "git" ["rev-parse"; "--abbrev-ref"; "HEAD"] ;;
  originHead <-
    getCommandOutput W "git" ["rev-parse"; "--abbrev-ref"; "origin/HEAD"] ;;
  let baseBranch :=
    match os_Args W with
    | _ :: arg :: _ => arg
    | _ => TrimPrefix originHead "origin/"
    end in
  commits <-
    getCommandOutput W "git"
      ["log"; baseBranch ++ ".." ++ currentBranch;
       "--pretty=format:%h - %s"] ;;
  detailedDiff <-
    getCommandOutput W "git" ["diff"; baseBranch ++ ".." ++ currentBranch] ;;
  changesOverview <-
    getCommandOutput W "git"
      ["diff"; "--stat"; baseBranch ++ ".." ++ currentBranch] ;;
  let content :=
    "Detailed Changes:" ++ nl ++ detailedDiff ++ nl ++ nl
    ++ "Changes Overview:" ++ nl ++ changesOverview in
  summary <-
    (if (0 <? len commits)%nat then getAnthropicSummary W content
     else ret "") ;;
  Println (prSummary currentBranch commits changesOverview summary).

End Part000b.

(** The three programs. *)
Inductive revision : Type := main_go | part_000_a | part_000_b.

Definition program (r : revision) : World -> Run unit :=
  match r with
  | main_go => MainGo.main
  | part_000_a => Part000a.main
  | part_000_b => Part000b.main
  end.

Definition summarizer (r : revision) : World -> string -> Run string :=
  match r with
  | main_go => MainGo.getAnthropicSummary
  | part_000_a => Part000a.getAnthropicSummary
  | part_000_b => Part000b.getAnthropicSummary
  end.

(** The tolerance used to read [within floating-point tolerance]:
    one part in a million. *)
Definition tolerance : float := 0x1p-20%float.

Definition close_to_one (x : float) : bool :=
  PrimFloat.leb (PrimFloat.abs (PrimFloat.sub x 1)) tolerance.


(** The report of each program, and the header of its summary
    section. *)
Definition prSummary_of (r : revision) : string -> string -> string -> string -> string :=
  match r with
  | main_go => MainGo.prSummary
  | part_000_a => Part000a.prSummary
  | part_000_b => Part000b.prSummary
  end.

Definition summary_header (r : revision) : string :=
  match r with
  | main_go | part_000_a => "## Summary:"
  | part_000_b => "# Summary:"
  end.

(** The response bodies of C5: not a JSON text at all, or a JSON
    object whose content list is empty, that is, an object of which
    exactly one member is named [content] (in any case of the
    letters), spelled so, with the empty array as its value. *)
Definition members_for (field : string) (members : list (string * json))
  : list (string * json) :=
  filter (fun m => equal_fold (fst m) field) members.

Definition malformed_or_empty (scanned : string + json) : Prop :=
  match scanned with
  | inl _ => True
  | inr (JObj members) => members_for "content" members = [("content", JArr [])]
  | inr _ => False
  end.

(** The text [getAnthropicSummary] of the second program of part_000
    goes on with after [compressLogs] returned. *)
Definition compressed_or_original (compressed : fallible string)
  (content : string) : string :=
  match compressed with
  | Ok c => c
  | Err _ => content
  end.

(** The request [getAnthropicSummary] sends to the remote API for
    [content], when it gets as far as sending one.  In src/main.go and
    in the first program of part_000 nothing stands before the request;
    in the second program [getEmbeddings] has to return a vector
    first. *)
Definition remote_request (r : revision) (W : World) (content : string)
  : option json :=
  match r with
  | main_go | part_000_a => Some (MainGo.requestBody content)
  | part_000_b =>
      match result_of (Part000b.compressLogs W content) with
      | Returned compressed =>
          let text := compressed_or_original compressed content in
          match result_of (Part000b.getEmbeddings W text) with
          | Returned (Ok embeddings) =>
              Some (Part000b.requestBody
                      (Part000b.prompt
                         (Part000b.processEmbeddings W embeddings)
                         text content))
          | _ => None
          end
      | _ => None
      end
  end.

(** What it logs then. *)
Definition compression_log (compressed : fallible string) : list event :=
  match compressed with
  | Ok _ => []
  | Err err => [Stdout ("Error compressing logs: " ++ err ++ nl)]
  end.

(** The end of the summarizer of each program. *)
Definition firstText_of (r : revision) : string + json -> Run string :=
  match r with
  | main_go | part_000_a => MainGo.firstText
  | part_000_b => Part000b.firstText
  end.

(** A run compares the current branch with [base]: after the two
    [rev-parse] queries it starts [git log] on the range
    [base..currentBranch], and whatever it starts after that is
    [git diff] or [git diff --stat] on the same range. *)
Definition compares_with (base currentBranch : string) (t : list event)
  : Prop :=
  exists later : list (string * list string),
    commands t
    = ("git", ["rev-parse"; "--abbrev-ref"; "HEAD"])
      :: ("git", ["rev-parse"; "--abbrev-ref"; "origin/HEAD"])
      :: ("git", ["log"; base ++ ".." ++ currentBranch;
                  "--pretty=format:%h - %s"])
      :: later /\
    Forall (fun c =>
              c = ("git", ["diff"; base ++ ".." ++ currentBranch]) \/
              c = ("git", ["diff"; "--stat"; base ++ ".." ++ currentBranch]))
      later.

(** A computation that posts nothing to [url]. *)
Definition offline {A : Type} (url : string) (m : Run A) : Prop :=
  posts_to url (trace_of m) = [].

(** A computation that starts no subprocess. *)
Definition quiet {A : Type} (m : Run A) : Prop := commands (trace_of m) = [].

(** The line [getCommandOutput] writes for a failed command. *)
Definition error_line (err : string) : string :=
  "Error executing command: " ++ err ++ nl.

(** The event of starting the command [c]. *)
Definition exec_of (c : string * list string) : event := Exec (fst c) (snd c).

(* ================================================================= *)
(** ** Sample worlds *)

(** A checkout of branch [feature] of a repository whose remote default
    branch is [main]; what [git log], [git diff] and [git diff --stat]
    answer is left open. *)
Definition git (log diff stat : cmd_result) (name : string)
  (args : list string) : cmd_result :=
  match args with
  | verb :: rest =>
      if verb =? "rev-parse" then
        if last rest "" =? "HEAD" then Succeeded ("feature" ++ nl)
        else Succeeded ("origin/main" ++ nl)
      else if verb =? "log" then log
      else if verb =? "diff" then
        if hd "" rest =? "--stat" then stat else diff
      else Failed "exit status 129"
  | [] => Failed "exit status 1"
  end.

(** The response [{"content":[{"text": X}]}]. *)
Definition one_segment (X : string) : json :=
  JObj [("content", JArr [JObj [("text", JStr X)]])].

(** Its text, for a summary without characters to escape. *)
Definition one_segment_text (X : string) : string :=
  "{" ++ dq ++ "content" ++ dq ++ ":[{" ++ dq ++ "text" ++ dq ++ ":"
  ++ dq ++ X ++ dq ++ "}]}".

(** Peers: the local model service answers both of its endpoints, the
    remote API answers with the given result. *)
Definition peers (remote : http_result) (url : string) (payload : json)
  : http_result :=
  if url =? anthropicAPIURL then remote
  else if url =? Part000b.ollamaCompletionURL then
    Answered "" (inr (JObj [("response", JStr "2 files changed");
                            ("done", JBool true)]))
  else Answered "" (inr (JObj [("embedding", JArr [JNum "3"; JNum "4"])])).

(** The same, with the text generation endpoint out of order. *)
Definition peers_without_generation (remote : http_result) (url : string)
  (payload : json) : http_result :=
  if url =? Part000b.ollamaCompletionURL then Unreachable "connection refused"
  else peers remote url payload.

Definition sample_ParseFloat (literal : string) : option float :=
  if literal =? "3" then Some 3%float
  else if literal =? "4" then Some 4%float
  else None.

Definition sample_FormatFloat (x : float) : string :=
  if PrimFloat.eqb x (3 / 5)%float then "0.6"
  else if PrimFloat.eqb x (4 / 5)%float then "0.8"
  else "0".

Definition sample_world (args : list string) (log diff stat : cmd_result)
  (peer : string -> json -> http_result) : World :=
  {| os_Args := args;
     os_Getenv := fun _ => "sk-ant-test";
     cmd_Output := git log diff stat;
     http_Do := peer;
     strconv_ParseFloat := sample_ParseFloat;
     strconv_FormatFloat := sample_FormatFloat |}.

Definition one_commit : cmd_result := Succeeded ("1a2b3c4 - fix typo" ++ nl).
Definition one_file : cmd_result :=
  Succeeded (" README.md | 2 +-" ++ nl ++ " 1 file changed" ++ nl).
Definition nothing : cmd_result := Succeeded "".

(** [git log] fails: the range names a branch that does not exist. *)
Definition log_fails : World :=
  sample_world ["prgpt"] (Failed "exit status 128") one_file one_file
    (peers (Answered "{}" (inr (one_segment "Fixes a typo.")))).

(** The remote API answers with the summary [Fixes a typo.]. *)
Definition typo_fixed : World :=
  sample_world ["prgpt"] one_commit one_file one_file
    (peers (Answered (one_segment_text "Fixes a typo.")
              (inr (one_segment "Fixes a typo.")))).

(** The remote API answers with a truncated body. *)
Definition garbled : World :=
  sample_world ["prgpt"] one_commit one_file one_file
    (peers (Answered "{" (inl "unexpected end of JSON input"))).

(** The same answer in a checkout without commits of its own. *)
Definition garbled_without_commits : World :=
  sample_world ["prgpt"] nothing nothing nothing
    (peers (Answered "{" (inl "unexpected end of JSON input"))).

(** The program is called with the base branch [develop]. *)
Definition against_develop : World :=
  sample_world ["prgpt"; "develop"] one_commit one_file one_file
    (peers (Answered (one_segment_text "Fixes a typo.")
              (inr (one_segment "Fixes a typo.")))).

(** The text generation endpoint of the local model service is down. *)
Definition no_generation : World :=
  sample_world ["prgpt"] one_commit one_file one_file
    (peers_without_generation
       (Answered (one_segment_text "Fixes a typo.")
          (inr (one_segment "Fixes a typo.")))).

(** What the second program of part_000 summarizes in the sample
    worlds. *)
Definition sample_content : string :=
  "Detailed Changes:" ++ nl ++ "README.md | 2 +-" ++ nl
  ++ " 1 file changed" ++ nl ++ nl
  ++ "Changes Overview:" ++ nl ++ "README.md | 2 +-" ++ nl
  ++ " 1 file changed".

(** The current branch has no commit that the base branch lacks:
    [git log] and both [git diff] print nothing. *)
Definition no_commits : World :=
  sample_world ["prgpt"] nothing nothing nothing
    (peers (Answered (one_segment_text "No changes.")
              (inr (one_segment "No changes.")))).

(* ================================================================= *)
(** ** Further notions *)

(** [l] starts, or ends, with the UTF-8 encoding of a white space code
    point. *)
Definition starts_with_space (l : list ascii) : bool :=
  match strip_one space_runes l with
  | Some _ => true
  | None => false
  end.

Definition ends_with_space (l : list ascii) : bool :=
  match strip_one (map (@rev ascii) space_runes) (rev l) with
  | Some _ => true
  | None => false
  end.

(** [l] is white space from end to end: a sequence of encodings of
    white space code points. *)
Definition white (l : list ascii) : Prop :=
  exists rs : list (list ascii),
    Forall (fun r => In r space_runes) rs /\ l = concat rs.

(** The answers on which the type assertion
    [content[0].(map[string]interface{})] of src/main.go fails: a JSON
    object whose [content] is an array that starts with something
    other than an object. *)
Definition first_segment_not_object (scanned : string + json) : Prop :=
  match scanned with
  | inr (JObj members) =>
      match map_index "content" members with
      | Some (JArr (first :: _)) =>
          match first with
          | JObj _ => False
          | _ => True
          end
      | _ => False
      end
  | _ => False
  end.

(** The remote API answers with a list of plain strings. *)
Definition plain_strings : World :=
  sample_world ["prgpt"] one_commit one_file one_file
    (peers (Answered "{}"
              (inr (JObj [("content", JArr [JStr "Fixes a typo."])])))).

(** The remote API cannot be reached. *)
Definition no_remote : World :=
  sample_world ["prgpt"] one_commit one_file one_file
    (peers (Unreachable "dial tcp: lookup api.anthropic.com: no such host")).

(** The remote API answers with one segment that has no text. *)
Definition no_text : World :=
  sample_world ["prgpt"] one_commit one_file one_file
    (peers (Answered "{}"
              (inr (JObj [("content", JArr [JObj [("type", JStr "tool_use")]])])))).

(** Every member of an object that is stored into the [Done] field of
    an [OllamaCompletionResponse] is a boolean. *)
Definition done_is_bool (members : list (string * json)) : Prop :=
  Forall (fun m => equal_fold (fst m) "done" = true ->
                   exists b, snd m = JBool b)
    members.

(** Peers, each with its own answer: the text generation endpoint and
    the embedding endpoint of the local model service, and the remote
    API. *)
Definition answers (generation embeddings remote : http_result)
  (url : string) (payload : json) : http_result :=
  if url =? anthropicAPIURL then remote
  else if url =? Part000b.ollamaCompletionURL then generation
  else embeddings.

Definition generated : http_result :=
  Answered ""
    (inr (JObj [("model", JStr "llama2:3.2");
                ("response", JStr "2 files changed");
                ("done", JBool true)])).

Definition embedded : http_result :=
  Answered "" (inr (JObj [("embedding", JArr [JNum "3"; JNum "4"])])).

Definition model_not_found : http_result :=
  Answered "" (inr (JObj [("error", JStr "model not found")])).

Definition summarized : http_result :=
  Answered (one_segment_text "Fixes a typo.")
    (inr (one_segment "Fixes a typo.")).

(** The local model service does not have the embedding model. *)
Definition no_embedding_model : World :=
  sample_world ["prgpt"] one_commit one_file one_file
    (answers generated model_not_found summarized).

(** The local model service does not have the text generation
    model. *)
Definition no_generation_model : World :=
  sample_world ["prgpt"] one_commit one_file one_file
    (answers model_not_found embedded summarized).

(** The embedding endpoint is down. *)
Definition no_embeddings : World :=
  sample_world ["prgpt"] one_commit one_file one_file
    (answers generated (Unreachable "connection refused") summarized).

(** An embedding with a component out of the range of float64. *)
Definition huge_component : World :=
  sample_world ["prgpt"] one_commit one_file one_file
    (answers generated
       (Answered "" (inr (JObj [("embedding", JArr [JNum "3"; JNum "1e999"])])))
       summarized).

(** The characters of a base64 text: those of the alphabet, and the
    padding. *)
Definition base64_char (c : ascii) : Prop :=
  In c (bytes Base64.encodeStd) \/ c = "="%char.

(** A checkout whose remote is not called [origin]: the query for the
    default branch prints a name without that prefix. *)
Definition upstream_main (name : string) (args : list string) : cmd_result :=
  match args with
  | verb :: rest =>
      if verb =? "rev-parse" then
        if last rest "" =? "HEAD" then Succeeded ("feature" ++ nl)
        else Succeeded ("upstream/main" ++ nl)
      else Succeeded ""
  | [] => Failed "exit status 1"
  end.

Definition other_remote : World :=
  {| os_Args := ["prgpt"];
     os_Getenv := fun _ => "sk-ant-test";
     cmd_Output := upstream_main;
     http_Do := peers summarized;
     strconv_ParseFloat := sample_ParseFloat;
     strconv_FormatFloat := sample_FormatFloat |}.
(* ================================================================= *)
(** ** The embedding normalizer *)

(** C10: the normalized sequence has the length of the input, and its
    element [i] is element [i] of the input divided by the magnitude
    of the whole vector: nothing else of the input enters it. *)
Theorem normalized_pointwise :
  forall (F : Type) (A : Arith F) (embeddings : list F),
    length (normalized embeddings) = length embeddings /\
    forall i : nat,
      nth_error (normalized embeddings) i
      = option_map (fun v => fdiv v (magnitude embeddings))
          (nth_error embeddings i).
Proof.
  intros F A embeddings. unfold normalized. split.
  - apply length_map.
  - intro i. apply nth_error_map.
Qed.

Lemma sum_squares_zeros :
  forall n : nat, sum_squares (repeat 0%float n) = 0%float.
Proof.
  unfold sum_squares.
  induction n as [|n IH]; [reflexivity|].
  cbn [repeat fold_left]. exact IH.
Qed.

(** C7: on the all-zero vector of any positive length the magnitude is
    zero, nothing stands between it and the division, and every
    element of the normalized sequence is NaN, which is not finite;
    [json.Marshal] refuses such a sequence, and [processEmbeddings]
    returns the encoding of no bytes. *)
Theorem zero_magnitude_not_guarded :
  forall n : nat,
    magnitude (repeat 0%float (S n)) = 0%float /\
    normalized (repeat 0%float (S n)) = repeat nan (S n) /\
    PrimFloat.is_finite nan = false /\
    forall W : World,
      Part000b.processEmbeddings W (repeat 0%float (S n)) = "".
Proof.
  intro n.
  assert (M : magnitude (repeat 0%float (S n)) = 0%float).
  { unfold magnitude. rewrite sum_squares_zeros. reflexivity. }
  assert (N : normalized (repeat 0%float (S n)) = repeat nan (S n)).
  { unfold normalized. rewrite M.
    generalize (S n). intro k.
    induction k as [|k IH]; [reflexivity|].
    cbn [repeat map]. rewrite IH. reflexivity. }
  split; [exact M|]. split; [exact N|]. split; [reflexivity|].
  intro W. unfold Part000b.processEmbeddings, Part000b.marshalFloats.
  cbv zeta. rewrite N. reflexivity.
Qed.

(** C2 as stated, on float64: on the vector with the single element
    2^600 the square overflows, the magnitude is +Inf (not zero), the
    quotient is 0 and the norm of the result is 0, not 1. *)
Lemma unit_norm_fails_on_overflow :
  PrimFloat.eqb (magnitude [0x1p+600%float]) 0 = false /\
  magnitude [0x1p+600%float] = infinity /\
  normalized [0x1p+600%float] = [0%float] /\
  norm (normalized [0x1p+600%float]) = 0%float /\
  close_to_one (norm (normalized [0x1p+600%float])) = false.
Proof. repeat split; vm_compute; reflexivity. Qed.

(* ================================================================= *)
(** ** Powers of two *)

Section Binary64.
Local Open Scope R_scope.

Lemma Rabs_le_both : forall x a : R, Rabs x <= a -> - a <= x <= a.
Proof.
  intros x a H. pose proof (Rle_abs x) as H1. pose proof (Rle_abs (- x)) as H2.
  rewrite Rabs_Ropp in H2. lra.
Qed.

Lemma exp2_pos : forall e : Z, 0 < exp2 e.
Proof. intro e. apply powerRZ_lt. lra. Qed.

Lemma exp2_add : forall a b : Z, exp2 (a + b) = exp2 a * exp2 b.
Proof. intros a b. apply powerRZ_add. lra. Qed.

Lemma exp2_0 : exp2 0 = 1.
Proof. reflexivity. Qed.

Lemma exp2_1 : exp2 1 = 2.
Proof. unfold exp2. simpl. lra. Qed.

Lemma exp2_succ : forall e : Z, exp2 (e + 1) = 2 * exp2 e.
Proof. intro e. rewrite exp2_add, exp2_1. lra. Qed.

Lemma exp2_pred : forall e : Z, exp2 (e - 1) = exp2 e / 2.
Proof.
  intro e. replace e with ((e - 1) + 1)%Z at 2 by lia.
  rewrite exp2_succ. lra.
Qed.

Lemma exp2_opp : forall e : Z, exp2 (- e) = / exp2 e.
Proof. intro e. apply powerRZ_neg'. Qed.

Lemma exp2_le : forall a b : Z, (a <= b)%Z -> exp2 a <= exp2 b.
Proof.
  intros a b Hab. replace b with (a + (b - a))%Z by lia.
  rewrite exp2_add.
  assert (1 <= exp2 (b - a)).
  { assert (0 <= b - a)%Z as Hn by lia. revert Hn.
    generalize (b - a)%Z. intros n Hn.
    pattern n. apply natlike_ind; [rewrite exp2_0; lra| |exact Hn].
    intros x Hx IH. unfold Z.succ. rewrite exp2_succ. lra. }
  pose proof (exp2_pos a). nra.
Qed.

Lemma exp2_lt : forall a b : Z, (a < b)%Z -> exp2 a < exp2 b.
Proof.
  intros a b Hab.
  assert (exp2 (a + 1) <= exp2 b) by (apply exp2_le; lia).
  rewrite exp2_succ in H. pose proof (exp2_pos a). lra.
Qed.

Lemma exp2_lt_inv : forall a b : Z, exp2 a < exp2 b -> (a < b)%Z.
Proof.
  intros a b H. destruct (Z_lt_le_dec a b) as [L|L]; [exact L|].
  apply exp2_le in L. lra.
Qed.

Lemma exp2_le_inv : forall a b : Z, exp2 a <= exp2 b -> (a <= b)%Z.
Proof.
  intros a b H. destruct (Z_lt_le_dec b a) as [L|L]; [|exact L].
  apply exp2_lt in L. lra.
Qed.

Lemma exp2_IZR : forall n : Z, (0 <= n)%Z -> exp2 n = IZR (2 ^ n).
Proof.
  intros n Hn. pattern n. apply natlike_ind; [reflexivity| |exact Hn].
  intros x Hx IH. unfold Z.succ. rewrite exp2_succ, IH.
  rewrite Z.pow_add_r by lia. rewrite mult_IZR. cbn. lra.
Qed.

Lemma exp2_double : forall e : Z, exp2 (2 * e) = exp2 e * exp2 e.
Proof. intro e. replace (2 * e)%Z with (e + e)%Z by lia. apply exp2_add. Qed.

(* ================================================================= *)
(** ** The number of binary digits *)

Lemma digits2_pos_bounds :
  forall m : positive,
    (2 ^ (Zpos (digits2_pos m) - 1) <= Zpos m < 2 ^ Zpos (digits2_pos m))%Z.
Proof.
  induction m as [m IH|m IH|]; cbn [digits2_pos].
  - rewrite Pos2Z.inj_succ.
    replace (Z.succ (Zpos (digits2_pos m)) - 1)%Z
      with ((Zpos (digits2_pos m) - 1) + 1)%Z by lia.
    unfold Z.succ. rewrite !Z.pow_add_r by lia.
    change (2 ^ 1)%Z with 2%Z. lia.
  - rewrite Pos2Z.inj_succ.
    replace (Z.succ (Zpos (digits2_pos m)) - 1)%Z
      with ((Zpos (digits2_pos m) - 1) + 1)%Z by lia.
    unfold Z.succ. rewrite !Z.pow_add_r by lia.
    change (2 ^ 1)%Z with 2%Z. lia.
  - cbn. lia.
Qed.

Lemma Zdigits2_nonneg : forall m : Z, (0 <= Zdigits2 m)%Z.
Proof. intros [|p|p]; cbn; lia. Qed.

Lemma Zdigits2_bounds :
  forall m : Z,
    (0 < m)%Z ->
    (1 <= Zdigits2 m)%Z /\
    (2 ^ (Zdigits2 m - 1) <= m < 2 ^ Zdigits2 m)%Z.
Proof.
  intros [|p|p] Hm; try lia. cbn [Zdigits2].
  split; [lia|]. apply digits2_pos_bounds.
Qed.

(** The value of a positive mantissa lies between two consecutive
    powers of two given by its number of digits. *)
Lemma mantissa_bounds :
  forall (m e : Z),
    (0 < m)%Z ->
    exp2 (Zdigits2 m - 1 + e) <= IZR m * exp2 e < exp2 (Zdigits2 m + e).
Proof.
  intros m e Hm.
  destruct (Zdigits2_bounds m Hm) as [Hd [Hlo Hhi]].
  rewrite !exp2_add.
  rewrite (exp2_IZR (Zdigits2 m - 1)), (exp2_IZR (Zdigits2 m)) by lia.
  apply IZR_le in Hlo. apply IZR_lt in Hhi.
  pose proof (exp2_pos e). split; nra.
Qed.

(** The number of digits is determined by such bounds. *)
Lemma Zdigits2_unique :
  forall (m d : Z),
    (2 ^ (d - 1) <= m < 2 ^ d)%Z -> (1 <= d)%Z -> Zdigits2 m = d.
Proof.
  intros m d [Hlo Hhi] Hd.
  assert (0 < m)%Z as Hm.
  { assert (0 < 2 ^ (d - 1))%Z by (apply Z.pow_pos_nonneg; lia). lia. }
  destruct (Zdigits2_bounds m Hm) as [Hd' [Hlo' Hhi']].
  assert (d - 1 < Zdigits2 m)%Z.
  { apply (Z.pow_lt_mono_r_iff 2); lia. }
  assert (Zdigits2 m - 1 < d)%Z.
  { apply (Z.pow_lt_mono_r_iff 2); lia. }
  lia.
Qed.

End Binary64.

(* ================================================================= *)
(** ** Shifting and rounding a mantissa *)

Section Rounding.
Local Open Scope R_scope.

Lemma frac_ok_range :
  forall rho r s, frac_ok rho r s -> 0 <= rho < 1.
Proof. intros rho [|] [|]; cbn; lra. Qed.

Lemma shr_1_represents :
  forall X mrs e,
    represents X mrs e -> represents X (shr_1 mrs) (e + 1).
Proof.
  intros X [m r s] e [Hm (rho & Hrho & HX)]. cbn [shr_m shr_r shr_s] in *.
  pose proof (exp2_succ e) as He.
  destruct m as [|[p|p|]|p]; try lia; cbn [shr_1]; split;
    cbn [shr_m shr_r shr_s]; try lia.
  - exists (rho / 2). split.
    + destruct r, s; cbn in *; lra.
    + rewrite HX, He. lra.
  - exists ((1 + rho) / 2). split.
    + destruct r, s; cbn in *; lra.
    + rewrite HX, He, IZR_POS_xI. lra.
  - exists (rho / 2). split.
    + destruct r, s; cbn in *; lra.
    + rewrite HX, He, IZR_POS_xO. lra.
  - exists ((1 + rho) / 2). split.
    + destruct r, s; cbn in *; lra.
    + rewrite HX, He. lra.
Qed.

Lemma iter_pos_represents :
  forall X p mrs e,
    represents X mrs e ->
    represents X (SpecFloat.iter_pos shr_1 p mrs) (e + Zpos p).
Proof.
  intros X p. induction p as [p IH|p IH|]; intros mrs e H; cbn [SpecFloat.iter_pos].
  - replace (e + Zpos p~1)%Z with (e + 1 + Zpos p + Zpos p)%Z by lia.
    apply IH, IH, shr_1_represents, H.
  - replace (e + Zpos p~0)%Z with (e + Zpos p + Zpos p)%Z by lia.
    apply IH, IH, H.
  - apply shr_1_represents, H.
Qed.

Lemma shr_represents :
  forall X mrs e n,
    represents X mrs e ->
    represents X (fst (shr mrs e n)) (snd (shr mrs e n)) /\
    snd (shr mrs e n) = (e + Z.max n 0)%Z /\
    ((n <= 0)%Z -> fst (shr mrs e n) = mrs).
Proof.
  intros X mrs e [|p|p] H; cbn [shr fst snd].
  - rewrite Z.add_0_r. auto.
  - split; [apply iter_pos_represents, H|]. split; lia.
  - rewrite Z.add_0_r. auto.
Qed.

Lemma represents_of_loc_m :
  forall m l, shr_m (shr_record_of_loc m l) = m.
Proof. intros m [|[| |]]; reflexivity. Qed.

Lemma represents_nonneg :
  forall X mrs e, represents X mrs e -> 0 <= X.
Proof.
  intros X mrs e [Hm (rho & Hrho & ->)].
  apply frac_ok_range in Hrho. apply IZR_le in Hm.
  pose proof (exp2_pos e). nra.
Qed.

(** A real that a positive mantissa stands for lies between the powers
    of two that the number of digits of the mantissa gives. *)
Lemma represents_bounds :
  forall X mrs e,
    represents X mrs e ->
    (0 < shr_m mrs)%Z ->
    exp2 (Zdigits2 (shr_m mrs) - 1 + e) <= X < exp2 (Zdigits2 (shr_m mrs) + e).
Proof.
  intros X mrs e [_ (rho & Hrho & ->)] Hm.
  apply frac_ok_range in Hrho.
  destruct (Zdigits2_bounds _ Hm) as [Hd [Hlo Hhi]].
  rewrite !exp2_add.
  rewrite (exp2_IZR (Zdigits2 (shr_m mrs) - 1)),
    (exp2_IZR (Zdigits2 (shr_m mrs))) by lia.
  apply IZR_le in Hlo.
  assert (shr_m mrs + 1 <= 2 ^ Zdigits2 (shr_m mrs))%Z as Hhi' by lia.
  apply IZR_le in Hhi'. rewrite plus_IZR in Hhi'.
  pose proof (exp2_pos e). split; nra.
Qed.

Lemma represents_small :
  forall X mrs e,
    represents X mrs e -> shr_m mrs = 0%Z -> X < exp2 e.
Proof.
  intros X mrs e [_ (rho & Hrho & ->)] Hm. rewrite Hm.
  apply frac_ok_range in Hrho. pose proof (exp2_pos e). nra.
Qed.

Lemma represents_lower :
  forall X mrs e,
    represents X mrs e -> IZR (shr_m mrs) * exp2 e <= X.
Proof.
  intros X mrs e [_ (rho & Hrho & ->)].
  apply frac_ok_range in Hrho. pose proof (exp2_pos e). nra.
Qed.

(** Rounding to nearest, ties to even, moves a mantissa by at most one
    half. *)
Lemma round_nearest_even_spec :
  forall mrs rho,
    frac_ok rho (shr_r mrs) (shr_s mrs) ->
    let m2 := round_nearest_even (shr_m mrs) (loc_of_shr_record mrs) in
    (m2 = shr_m mrs \/ m2 = (shr_m mrs + 1)%Z) /\
    Rabs (IZR m2 - (IZR (shr_m mrs) + rho)) <= 1 / 2 /\
    (rho = 0 -> m2 = shr_m mrs).
Proof.
  intros [m r s] rho H. cbn [shr_m shr_r shr_s] in *.
  destruct r, s; cbn [frac_ok loc_of_shr_record round_nearest_even] in *.
  - split; [right; reflexivity|]. rewrite plus_IZR.
    split; [|lra]. apply Rabs_le. lra.
  - destruct (Z.even m).
    + split; [left; reflexivity|]. split; [|lra]. apply Rabs_le. lra.
    + split; [right; reflexivity|]. rewrite plus_IZR.
      split; [|lra]. apply Rabs_le. lra.
  - split; [left; reflexivity|]. split; [|reflexivity]. apply Rabs_le. lra.
  - split; [left; reflexivity|]. split; [|reflexivity]. apply Rabs_le. lra.
Qed.

Lemma Zdigits2_succ :
  forall m : Z,
    (0 < m)%Z ->
    Zdigits2 (m + 1) = Zdigits2 m \/
    (m + 1 = 2 ^ Zdigits2 m /\ Zdigits2 (m + 1) = Zdigits2 m + 1)%Z.
Proof.
  intros m Hm.
  destruct (Zdigits2_bounds m Hm) as [Hd [Hlo Hhi]].
  destruct (Z.eq_dec (m + 1) (2 ^ Zdigits2 m)) as [E|N].
  - right. split; [exact E|].
    apply Zdigits2_unique; [|lia].
    replace (Zdigits2 m + 1 - 1)%Z with (Zdigits2 m) by lia.
    rewrite Z.pow_add_r by lia. change (2 ^ 1)%Z with 2%Z. lia.
  - left. apply Zdigits2_unique; lia.
Qed.

End Rounding.

Section RoundAux.
Local Open Scope R_scope.

Lemma fexp_eq : forall e : Z, fexp prec emax e = Z.max (e - 53) (-1074).
Proof. reflexivity. Qed.

(** After the first shift the mantissa is canonical for its exponent:
    shifting it again changes nothing. *)
Lemma shifted_is_canonical :
  forall X mx lx ex mrs1,
    represents X (shr_record_of_loc mx lx) ex ->
    represents X mrs1
      (Z.max ex (fexp prec emax (Zdigits2 mx + ex))) ->
    (fexp prec emax
       (Zdigits2 (shr_m mrs1)
        + Z.max ex (fexp prec emax (Zdigits2 mx + ex)))
     <= Z.max ex (fexp prec emax (Zdigits2 mx + ex)))%Z.
Proof.
  intros X mx lx ex mrs1 HX H1.
  set (e1 := Z.max ex (fexp prec emax (Zdigits2 mx + ex))) in *.
  assert (Hf : (fexp prec emax (Zdigits2 mx + ex) <= e1)%Z) by lia.
  destruct (Z.eq_dec (shr_m mrs1) 0) as [Z1|N1].
  - rewrite Z1. cbn [Zdigits2]. rewrite fexp_eq in *. lia.
  - assert (Hm1 : (0 < shr_m mrs1)%Z) by (destruct H1; lia).
    pose proof (represents_bounds _ _ _ H1 Hm1) as [L1 U1].
    destruct (Z.eq_dec mx 0) as [Zx|Nx].
    + exfalso.
      pose proof (represents_small _ _ _ HX) as S.
      rewrite represents_of_loc_m in S. specialize (S Zx).
      pose proof (represents_lower _ _ _ H1) as L.
      assert (exp2 ex <= exp2 e1) by (apply exp2_le; lia).
      assert (1 <= IZR (shr_m mrs1)) by (apply IZR_le; lia).
      pose proof (exp2_pos e1). nra.
    + assert (Hmx : (0 < shr_m (shr_record_of_loc mx lx))%Z).
      { rewrite represents_of_loc_m. destruct HX as [Hx _].
        rewrite represents_of_loc_m in Hx. lia. }
      pose proof (represents_bounds _ _ _ HX Hmx) as [L0 U0].
      rewrite represents_of_loc_m in L0, U0.
      assert (Zdigits2 mx - 1 + ex < Zdigits2 (shr_m mrs1) + e1)%Z
        by (apply exp2_lt_inv; lra).
      assert (Zdigits2 (shr_m mrs1) - 1 + e1 < Zdigits2 mx + ex)%Z
        by (apply exp2_lt_inv; lra).
      replace (Zdigits2 (shr_m mrs1) + e1)%Z with (Zdigits2 mx + ex)%Z by lia.
      exact Hf.
Qed.

(** The second shift of [binary_round_aux] moves the mantissa by one
    place at most, and then it loses nothing: the mantissa is a power
    of two. *)
Lemma second_shift :
  forall m1 m2 e1 : Z,
    (0 <= m1)%Z ->
    m2 = m1 \/ m2 = (m1 + 1)%Z ->
    (-1074 <= e1)%Z ->
    (fexp prec emax (Zdigits2 m1 + e1) <= e1)%Z ->
    (0 <= shr_m (fst (shr_fexp prec emax m2 e1 loc_Exact)))%Z /\
    IZR (shr_m (fst (shr_fexp prec emax m2 e1 loc_Exact)))
    * exp2 (snd (shr_fexp prec emax m2 e1 loc_Exact))
    = IZR m2 * exp2 e1 /\
    (snd (shr_fexp prec emax m2 e1 loc_Exact) = e1 \/
     (snd (shr_fexp prec emax m2 e1 loc_Exact) = (e1 + 1)%Z /\
      (0 < m1)%Z /\
      fexp prec emax (Zdigits2 m1 + 1 + e1) = (e1 + 1)%Z)).
Proof.
  intros m1 m2 e1 Hm1 Hm2 He1 Hcan.
  unfold shr_fexp. cbn [shr_record_of_loc].
  set (n2 := (fexp prec emax (Zdigits2 m2 + e1) - e1)%Z).
  assert (Hm2' : (0 <= m2)%Z) by lia.
  assert (Stay : (n2 <= 0)%Z ->
    (0 <= shr_m (fst (shr {| shr_m := m2; shr_r := false; shr_s := false |}
                        e1 n2)))%Z /\
    IZR (shr_m (fst (shr {| shr_m := m2; shr_r := false; shr_s := false |}
                       e1 n2)))
    * exp2 (snd (shr {| shr_m := m2; shr_r := false; shr_s := false |} e1 n2))
    = IZR m2 * exp2 e1 /\
    snd (shr {| shr_m := m2; shr_r := false; shr_s := false |} e1 n2) = e1).
  { intro Hn. destruct n2 as [|p|p]; try lia; cbn [shr fst snd shr_m]; auto. }
  destruct (Z_le_gt_dec n2 0) as [Hn|Hn].
  { destruct (Stay Hn) as (A & B & C). auto. }
  clear Stay.
  assert (Hsucc : m2 = (m1 + 1)%Z).
  { destruct Hm2 as [E|E]; [|exact E]. exfalso. subst m2 n2. lia. }
  assert (Hpos : (0 < m1)%Z).
  { destruct (Z.eq_dec m1 0) as [Z1|N1]; [|lia]. exfalso.
    subst m2 n2. rewrite Z1 in Hn. change (Zdigits2 (0 + 1)) with 1%Z in Hn.
    rewrite fexp_eq in Hn. lia. }
  destruct (Zdigits2_succ m1 Hpos) as [Same|[Hpow Hdig]].
  { exfalso. subst m2 n2. rewrite Same in Hn. lia. }
  destruct (Zdigits2_bounds m1 Hpos) as [Hd1 _].
  assert (Hn1 : n2 = 1%Z).
  { subst n2 m2. rewrite Hdig in *. rewrite fexp_eq in *. lia. }
  assert (Hf : fexp prec emax (Zdigits2 m1 + 1 + e1) = (e1 + 1)%Z).
  { subst n2 m2. rewrite Hdig in Hn1. lia. }
  rewrite Hn1.
  assert (Heven : m2 = (2 * 2 ^ (Zdigits2 m1 - 1))%Z).
  { rewrite Hsucc, Hpow.
    replace (Zdigits2 m1) with ((Zdigits2 m1 - 1) + 1)%Z at 1 by lia.
    rewrite Z.pow_add_r by lia. change (2 ^ 1)%Z with 2%Z. lia. }
  assert (Hk : (0 < 2 ^ (Zdigits2 m1 - 1))%Z)
    by (apply Z.pow_pos_nonneg; lia).
  clearbody n2. clear Hn Hn1.
  destruct m2 as [|[q|q|]|q]; try lia.
  unfold shr. cbn [SpecFloat.iter_pos shr_1 fst snd shr_m orb].
  split; [lia|]. split.
  - rewrite exp2_succ, (IZR_POS_xO q). ring.
  - right. split; [reflexivity|]. split; [exact Hpos|exact Hf].
Qed.

(** What [binary_round_aux] makes of the real [X] that a mantissa with
    its location stands for: a number [V] of the given sign within
    half a unit of the last place of [X], or an infinity; no infinity
    when [X] is below 2^1023. *)
Lemma binary_round_aux_spec :
  forall (s : bool) (mx ex : Z) (lx : location) (X : R),
    represents X (shr_record_of_loc mx lx) ex ->
    exists V : R,
      0 <= V /\
      Rabs (V - X)
      <= exp2 (Z.max ex (fexp prec emax (Zdigits2 mx + ex)) - 1) /\
      (lx = loc_Exact ->
       (fexp prec emax (Zdigits2 mx + ex) <= ex)%Z -> V = X) /\
      (X = 0 -> V = 0) /\
      (binary_round_aux prec emax s mx ex lx = S754_infinity s \/
       (finite_SF (binary_round_aux prec emax s mx ex lx) /\
        SF2R (binary_round_aux prec emax s mx ex lx)
        = if s then - V else V)) /\
      (X < exp2 1023 -> (ex <= 971)%Z ->
       finite_SF (binary_round_aux prec emax s mx ex lx)).
Proof.
  intros s mx ex lx X HX.
  unfold binary_round_aux.
  set (e1 := Z.max ex (fexp prec emax (Zdigits2 mx + ex))).
  destruct (shr_represents X _ ex
              (fexp prec emax (Zdigits2 mx + ex) - ex) HX)
    as (H1 & He1 & Hsame).
  fold (shr_fexp prec emax mx ex lx) in H1, He1, Hsame.
  destruct (shr_fexp prec emax mx ex lx) as [mrs1 e1'].
  cbn [fst snd] in H1, He1, Hsame.
  assert (e1' = e1) as -> by (subst e1; lia).
  clear He1.
  pose proof (shifted_is_canonical X mx lx ex mrs1 HX H1) as Hcan.
  fold e1 in Hcan.
  pose proof H1 as [Hm1 (rho & Hrho & HXeq)].
  destruct (round_nearest_even_spec mrs1 rho Hrho) as (Hm2 & Habs & Hexact).
  set (m2 := round_nearest_even (shr_m mrs1) (loc_of_shr_record mrs1)) in *.
  assert (He1 : (-1074 <= e1)%Z) by (subst e1; rewrite fexp_eq; lia).
  destruct (second_shift (shr_m mrs1) m2 e1 Hm1 Hm2 He1 Hcan)
    as (Hm3 & Hval & He2).
  destruct (shr_fexp prec emax m2 e1 loc_Exact) as [mrs2 e2].
  cbn [fst snd] in Hm3, Hval, He2.
  exists (IZR m2 * exp2 e1).
  pose proof (exp2_pos e1) as Pe1.
  pose proof (exp2_pos e2) as Pe2.
  assert (Hm2' : (0 <= m2)%Z) by lia.
  split; [apply IZR_le in Hm2'; nra|].
  split.
  { rewrite HXeq.
    replace (IZR m2 * exp2 e1 - (IZR (shr_m mrs1) + rho) * exp2 e1)
      with ((IZR m2 - (IZR (shr_m mrs1) + rho)) * exp2 e1) by ring.
    rewrite Rabs_mult, (Rabs_pos_eq (exp2 e1)) by lra.
    rewrite exp2_pred. nra. }
  split.
  { intros -> Hle.
    assert (mrs1 = shr_record_of_loc mx loc_Exact) as Hrec
      by (apply Hsame; lia).
    assert (e1 = ex) as E1 by (subst e1; lia).
    rewrite Hrec in Hrho. cbn [shr_record_of_loc shr_r shr_s frac_ok] in Hrho.
    rewrite (Hexact Hrho), HXeq, Hrho. ring. }
  split.
  { intro X0.
    pose proof (frac_ok_range _ _ _ Hrho) as Hr.
    assert (0 <= IZR (shr_m mrs1)) as Hi by (apply IZR_le; exact Hm1).
    assert (IZR (shr_m mrs1) + rho = 0) as Hsum by nra.
    assert (rho = 0) as R0 by lra.
    rewrite (Hexact R0).
    assert (IZR (shr_m mrs1) = 0) as -> by lra. ring. }
  change (emax - prec)%Z with 971%Z.
  assert (Hfit : X < exp2 1023 -> (ex <= 971)%Z -> (e2 <= 971)%Z).
  { intros Hsmall Hex.
    destruct He2 as [->|(-> & Hpos1 & Hf)].
    - destruct (Z_le_gt_dec e1 971) as [L|G]; [exact L|exfalso].
      assert (Hmx : (0 < shr_m (shr_record_of_loc mx lx))%Z).
      { rewrite represents_of_loc_m. destruct HX as [Hx _].
        rewrite represents_of_loc_m in Hx.
        destruct (Z.eq_dec mx 0) as [Zx|Nx]; [|lia].
        subst e1. rewrite Zx in G. cbn [Zdigits2] in G.
        rewrite fexp_eq in G. lia. }
      pose proof (represents_bounds _ _ _ HX Hmx) as [L0 _].
      rewrite represents_of_loc_m in L0.
      assert (Zdigits2 mx - 1 + ex < 1023)%Z by (apply exp2_lt_inv; lra).
      subst e1. rewrite fexp_eq in G. lia.
    - destruct (Z_le_gt_dec (e1 + 1) 971) as [L|G]; [exact L|exfalso].
      pose proof (represents_bounds _ _ _ H1 Hpos1) as [L1 _].
      assert (Zdigits2 (shr_m mrs1) - 1 + e1 < 1023)%Z
        by (apply exp2_lt_inv; lra).
      rewrite fexp_eq in Hf. lia. }
  destruct (shr_m mrs2) as [|m|m]; [| |lia].
  - split.
    + right. split; [exact I|]. cbn [SF2R].
      replace (IZR m2 * exp2 e1) with 0 by lra.
      destruct s; lra.
    + intros _ _. exact I.
  - destruct (Z.leb_spec e2 971) as [L|G].
    + split; [|intros _ _; exact I].
      right. split; [exact I|]. cbn [SF2R]. rewrite <- Hval.
      destruct s; ring.
    + split; [left; reflexivity|].
      intros Hsmall Hex. specialize (Hfit Hsmall Hex). lia.
Qed.

End RoundAux.

Section Model.
Local Open Scope R_scope.

Lemma unit_roundoff_pos : 0 < unit_roundoff.
Proof. apply exp2_pos. Qed.

Lemma half_least_pos : 0 < half_least.
Proof. apply exp2_pos. Qed.

(** The rounding of [binary_round_aux] in the standard model: the
    result is an infinity of the given sign, or the real the mantissa
    stands for, rounded. *)
Lemma binary_round_aux_model :
  forall (s : bool) (mx ex : Z) (lx : location) (X : R),
    represents X (shr_record_of_loc mx lx) ex ->
    lx = loc_Exact \/ (ex <= -1074)%Z \/ exp2 (ex + 52) <= X ->
    (binary_round_aux prec emax s mx ex lx = S754_infinity s \/
     rounds_to (binary_round_aux prec emax s mx ex lx)
       (if s then - X else X)) /\
    (X < exp2 1023 -> (ex <= 971)%Z ->
     rounds_to (binary_round_aux prec emax s mx ex lx)
       (if s then - X else X)).
Proof.
  intros s mx ex lx X HX Hprec.
  destruct (binary_round_aux_spec s mx ex lx X HX)
    as (V & HV & Herr & Hexact & Hzero & Hcase & Hfin).
  pose proof (represents_nonneg _ _ _ HX) as HX0.
  assert (Hbound : Rabs (V - X) <= unit_roundoff * X + half_least).
  { pose proof unit_roundoff_pos as Pu. pose proof half_least_pos as Ph.
    destruct (Z_le_gt_dec (fexp prec emax (Zdigits2 mx + ex)) ex) as [L|G].
    - rewrite Z.max_l in Herr by lia.
      destruct Hprec as [E|[E|E]].
      + rewrite (Hexact E L). replace (X - X) with 0 by ring.
        rewrite Rabs_R0. nra.
      + assert (exp2 (ex - 1) <= half_least)
          by (apply exp2_le; lia).
        nra.
      + replace (ex - 1)%Z with (-53 + (ex + 52))%Z in Herr by lia.
        rewrite exp2_add in Herr. fold unit_roundoff in Herr.
        nra.
    - rewrite Z.max_r in Herr by lia.
      rewrite fexp_eq in Herr, G.
      destruct (Z_le_gt_dec (Zdigits2 mx + ex - 53) (-1074)) as [L'|G'].
      + rewrite Z.max_r in Herr by lia.
        change (exp2 (-1074 - 1)) with half_least in Herr. nra.
      + rewrite Z.max_l in Herr, G by lia.
        assert (Hmx : (0 < shr_m (shr_record_of_loc mx lx))%Z).
        { rewrite represents_of_loc_m.
          pose proof (proj1 HX) as Hx. rewrite represents_of_loc_m in Hx.
          destruct mx as [|p|p]; cbn [Zdigits2] in G; lia. }
        pose proof (represents_bounds _ _ _ HX Hmx) as [L0 _].
        rewrite represents_of_loc_m in L0.
        replace (Zdigits2 mx + ex - 53 - 1)%Z
          with (-53 + (Zdigits2 mx - 1 + ex))%Z in Herr by lia.
        rewrite exp2_add in Herr. fold unit_roundoff in Herr.
        nra. }
  assert (Hrounds :
    finite_SF (binary_round_aux prec emax s mx ex lx) ->
    SF2R (binary_round_aux prec emax s mx ex lx) = (if s then - V else V) ->
    rounds_to (binary_round_aux prec emax s mx ex lx)
      (if s then - X else X)).
  { intros Hf Hv. split; [exact Hf|]. rewrite Hv.
    destruct s.
    - replace (- V - - X) with (- (V - X)) by ring.
      rewrite Rabs_Ropp, (Rabs_Ropp X), (Rabs_pos_eq X) by exact HX0.
      split; [exact Hbound|]. split; intro; [|lra].
      rewrite Hzero by lra. lra.
    - rewrite (Rabs_pos_eq X) by exact HX0.
      split; [exact Hbound|]. split; intro; [lra|].
      rewrite Hzero by lra. lra. }
  split.
  - destruct Hcase as [Hinf|[Hf Hv]]; [left; exact Hinf|right; auto].
  - intros Hsmall Hex. specialize (Hfin Hsmall Hex).
    destruct Hcase as [Hinf|[Hf Hv]]; [|auto].
    rewrite Hinf in Hfin. destruct Hfin.
Qed.

End Model.

(* ================================================================= *)
(** ** The operations on valid binary64 numbers *)

Section Operations.
Local Open Scope R_scope.

Lemma valid_finite :
  forall s m e,
    valid_binary (S754_finite s m e) = true ->
    (-1074 <= e <= 971)%Z /\
    (Zpos (digits2_pos m) <= 53)%Z /\
    (e = (-1074)%Z \/ Zpos (digits2_pos m) = 53%Z).
Proof.
  intros s m e H. cbn [SpecFloat.valid_binary] in H.
  unfold bounded, canonical_mantissa in H.
  apply andb_true_iff in H. destruct H as [Hc Hb].
  apply Z.eqb_eq in Hc. apply Z.leb_le in Hb.
  rewrite fexp_eq in Hc. change (emax - prec)%Z with 971%Z in Hb. lia.
Qed.

(** A mantissa of 53 digits is at least 2^52. *)
Lemma normal_mantissa :
  forall m, Zpos (digits2_pos m) = 53%Z -> exp2 52 <= IZR (Zpos m).
Proof.
  intros m H. pose proof (digits2_pos_bounds m) as [L _].
  rewrite H in L. rewrite exp2_IZR by lia. apply IZR_le. exact L.
Qed.

Lemma mantissa_below :
  forall m, (Zpos (digits2_pos m) <= 53)%Z -> IZR (Zpos m) < exp2 53.
Proof.
  intros m H. pose proof (digits2_pos_bounds m) as [_ U].
  rewrite exp2_IZR by lia. apply IZR_lt.
  assert (2 ^ Zpos (digits2_pos m) <= 2 ^ 53)%Z
    by (apply Z.pow_le_mono_r; lia).
  lia.
Qed.

Lemma iter_xO :
  forall (d m : positive),
    Zpos (Pos.iter xO m d) = (Zpos m * 2 ^ Zpos d)%Z.
Proof.
  intros d m. induction d as [|d IH] using Pos.peano_ind.
  - cbn [Pos.iter]. lia.
  - rewrite Pos.iter_succ, Pos2Z.inj_xO, IH, Pos2Z.inj_succ.
    rewrite Z.pow_succ_r by lia. lia.
Qed.

(** [shl_align] lowers the exponent to the smaller of the two and
    keeps the number. *)
Lemma shl_align_spec :
  forall (m : positive) (e e' : Z),
    snd (shl_align m e e') = Z.min e e' /\
    IZR (Zpos (fst (shl_align m e e'))) * exp2 (snd (shl_align m e e'))
    = IZR (Zpos m) * exp2 e.
Proof.
  intros m e e'. unfold shl_align.
  destruct (e' - e)%Z as [|d|d] eqn:E; cbn [fst snd].
  - split; [lia|reflexivity].
  - split; [lia|reflexivity].
  - split; [lia|].
    rewrite iter_xO, mult_IZR, <- exp2_IZR by lia.
    replace (exp2 e) with (exp2 (Zpos d + e')) by (f_equal; lia).
    rewrite exp2_add. ring.
Qed.

Lemma rounds_to_exact :
  forall z, finite_SF z -> rounds_to z (SF2R z).
Proof.
  intros z Hz. split; [exact Hz|].
  replace (SF2R z - SF2R z) with 0 by ring. rewrite Rabs_R0.
  pose proof unit_roundoff_pos. pose proof half_least_pos.
  pose proof (Rabs_pos (SF2R z)).
  split; [nra|]. split; intro; assumption.
Qed.

Lemma represents_exact :
  forall (m : positive) (e : Z),
    represents (IZR (Zpos m) * exp2 e)
      (shr_record_of_loc (Zpos m) loc_Exact) e.
Proof.
  intros m e. split; [cbn; lia|].
  exists 0. split; [reflexivity|]. cbn [shr_record_of_loc shr_m]. ring.
Qed.

(** [binary_round]: the number [m * 2^e] of the given sign, rounded. *)
Lemma binary_round_model :
  forall (s : bool) (m : positive) (e : Z),
    (e <= 971)%Z ->
    (binary_round prec emax s m e = S754_infinity s \/
     rounds_to (binary_round prec emax s m e)
       (if s then - (IZR (Zpos m) * exp2 e) else IZR (Zpos m) * exp2 e)) /\
    (IZR (Zpos m) * exp2 e < exp2 1023 ->
     rounds_to (binary_round prec emax s m e)
       (if s then - (IZR (Zpos m) * exp2 e) else IZR (Zpos m) * exp2 e)).
Proof.
  intros s m e He. unfold binary_round.
  destruct (shl_align_spec m e (fexp prec emax (Zpos (digits2_pos m) + e)))
    as [Hsnd Hval].
  destruct (shl_align m e (fexp prec emax (Zpos (digits2_pos m) + e)))
    as [mz ez].
  cbn [fst snd] in Hsnd, Hval.
  rewrite <- Hval.
  destruct (binary_round_aux_model s (Zpos mz) ez loc_Exact
              (IZR (Zpos mz) * exp2 ez) (represents_exact mz ez)
              (or_introl eq_refl)) as [Hcase Hfin].
  split; [exact Hcase|].
  intro Hsmall. apply Hfin; [exact Hsmall|lia].
Qed.

(** [binary_normalize]: the number [m * 2^e], rounded. *)
Lemma binary_normalize_model :
  forall (m e : Z),
    (e <= 971)%Z ->
    ((binary_normalize prec emax m e false = S754_infinity false /\
      0 < IZR m * exp2 e) \/
     (binary_normalize prec emax m e false = S754_infinity true /\
      IZR m * exp2 e < 0) \/
     rounds_to (binary_normalize prec emax m e false) (IZR m * exp2 e)) /\
    (Rabs (IZR m * exp2 e) < exp2 1023 ->
     rounds_to (binary_normalize prec emax m e false) (IZR m * exp2 e)).
Proof.
  intros m e He. pose proof (exp2_pos e) as Pe.
  destruct m as [|p|p]; cbn [binary_normalize].
  - replace (0 * exp2 e) with (SF2R (S754_zero false)) by (cbn; ring).
    split; [right; right|intros _]; apply rounds_to_exact; exact I.
  - destruct (binary_round_model false p e He) as [Hcase Hfin].
    assert (0 < IZR (Zpos p) * exp2 e).
    { assert (0 < IZR (Zpos p)) by (apply IZR_lt; lia). nra. }
    split.
    + destruct Hcase as [Hinf|Hr]; [left; split; assumption|right; right; exact Hr].
    + intro Hs. apply Hfin. rewrite Rabs_pos_eq in Hs; lra.
  - destruct (binary_round_model true p e He) as [Hcase Hfin].
    assert (0 < IZR (Zpos p) * exp2 e).
    { assert (0 < IZR (Zpos p)) by (apply IZR_lt; lia). nra. }
    assert (IZR (Zneg p) * exp2 e = - (IZR (Zpos p) * exp2 e)) as E.
    { rewrite IZR_NEG. ring. }
    rewrite E.
    split.
    + destruct Hcase as [Hinf|Hr];
        [right; left; split; [assumption|lra]|right; right; exact Hr].
    + intro Hs. apply Hfin. rewrite Rabs_Ropp, Rabs_pos_eq in Hs; lra.
Qed.

End Operations.

Section AddSub.
Local Open Scope R_scope.

Lemma aligned_value :
  forall (s : bool) (m : positive) (e ez : Z),
    (ez <= e)%Z ->
    IZR (cond_Zopp s (Zpos (fst (shl_align m e ez)))) * exp2 ez
    = SF2R (S754_finite s m e).
Proof.
  intros s m e ez H.
  destruct (shl_align_spec m e ez) as [Hsnd Hval].
  rewrite Hsnd, Z.min_r in Hval by lia.
  cbn [SF2R]. destruct s; cbn [cond_Zopp].
  - cbn [Z.opp]. rewrite IZR_NEG. lra.
  - exact Hval.
Qed.

Lemma exact_result :
  forall (z : spec_float) (t : R),
    finite_SF z -> SF2R z = t ->
    ((z = S754_infinity false /\ 0 < t) \/
     (z = S754_infinity true /\ t < 0) \/
     rounds_to z t) /\
    (Rabs t < exp2 1023 -> rounds_to z t).
Proof.
  intros z t Hz <-.
  split; [right; right|intros _]; apply rounds_to_exact; exact Hz.
Qed.

(** Addition of finite numbers: the sum, rounded, or an infinity of
    the sign of the sum. *)
Lemma SFadd_model :
  forall x y : spec_float,
    valid_binary x = true -> valid_binary y = true ->
    finite_SF x -> finite_SF y ->
    ((SFadd prec emax x y = S754_infinity false /\ 0 < SF2R x + SF2R y) \/
     (SFadd prec emax x y = S754_infinity true /\ SF2R x + SF2R y < 0) \/
     rounds_to (SFadd prec emax x y) (SF2R x + SF2R y)) /\
    (Rabs (SF2R x + SF2R y) < exp2 1023 ->
     rounds_to (SFadd prec emax x y) (SF2R x + SF2R y)).
Proof.
  intros [sx|sx| |sx mx ex] [sy|sy| |sy my ey] Vx Vy Fx Fy;
    try contradiction; cbn [SFadd].
  - apply exact_result; [destruct sx, sy; exact I|].
    destruct sx, sy; cbn; ring.
  - apply exact_result; [exact I|]. cbn [SF2R]. ring.
  - apply exact_result; [exact I|]. cbn [SF2R]. ring.
  - destruct (valid_finite _ _ _ Vx) as [Hex _].
    destruct (valid_finite _ _ _ Vy) as [Hey _].
    cbv zeta.
    rewrite <- (aligned_value sx mx ex (Z.min ex ey)) by lia.
    rewrite <- (aligned_value sy my ey (Z.min ex ey)) by lia.
    rewrite <- Rmult_plus_distr_r, <- plus_IZR.
    apply binary_normalize_model. lia.
Qed.

(** Subtraction, likewise. *)
Lemma SFsub_model :
  forall x y : spec_float,
    valid_binary x = true -> valid_binary y = true ->
    finite_SF x -> finite_SF y ->
    ((SFsub prec emax x y = S754_infinity false /\ 0 < SF2R x - SF2R y) \/
     (SFsub prec emax x y = S754_infinity true /\ SF2R x - SF2R y < 0) \/
     rounds_to (SFsub prec emax x y) (SF2R x - SF2R y)) /\
    (Rabs (SF2R x - SF2R y) < exp2 1023 ->
     rounds_to (SFsub prec emax x y) (SF2R x - SF2R y)).
Proof.
  intros [sx|sx| |sx mx ex] [sy|sy| |sy my ey] Vx Vy Fx Fy;
    try contradiction; cbn [SFsub].
  - apply exact_result; [destruct sx, sy; exact I|].
    destruct sx, sy; cbn; ring.
  - apply exact_result; [exact I|]. cbn [SF2R]. destruct sy; cbn [negb]; ring.
  - apply exact_result; [exact I|]. cbn [SF2R]. ring.
  - destruct (valid_finite _ _ _ Vx) as [Hex _].
    destruct (valid_finite _ _ _ Vy) as [Hey _].
    cbv zeta.
    rewrite <- (aligned_value sx mx ex (Z.min ex ey)) by lia.
    rewrite <- (aligned_value sy my ey (Z.min ex ey)) by lia.
    rewrite <- Rmult_minus_distr_r, <- minus_IZR.
    apply binary_normalize_model. lia.
Qed.

(** The square of a finite number: rounded, or the positive
    infinity. *)
Lemma SFmul_square :
  forall x : spec_float,
    valid_binary x = true -> finite_SF x ->
    (SFmul prec emax x x = S754_infinity false \/
     rounds_to (SFmul prec emax x x) (SF2R x * SF2R x)) /\
    (SF2R x * SF2R x < exp2 1023 ->
     rounds_to (SFmul prec emax x x) (SF2R x * SF2R x)).
Proof.
  intros [s|s| |s m e] Vx Fx; try contradiction; cbn [SFmul].
  - replace (SF2R (S754_zero s) * SF2R (S754_zero s))
      with (SF2R (S754_zero (xorb s s))) by (cbn; ring).
    split; [right|intros _]; apply rounds_to_exact; exact I.
  - replace (xorb s s) with false by (destruct s; reflexivity).
    assert (E : SF2R (S754_finite s m e) * SF2R (S754_finite s m e)
                = IZR (Zpos (m * m)) * exp2 (e + e)).
    { cbn [SF2R]. rewrite Pos2Z.inj_mul, mult_IZR, exp2_add.
      destruct s; ring. }
    rewrite E.
    destruct (binary_round_aux_model false (Zpos (m * m)) (e + e) loc_Exact
                (IZR (Zpos (m * m)) * exp2 (e + e))
                (represents_exact (m * m) (e + e))
                (or_introl eq_refl)) as [Hcase Hfin].
    split; [exact Hcase|].
    intro Hsmall. apply Hfin; [exact Hsmall|].
    destruct (valid_finite _ _ _ Vx) as (He & Hd & [Hsub|Hnorm]); [lia|].
    pose proof (normal_mantissa m Hnorm) as Hm.
    rewrite Pos2Z.inj_mul, mult_IZR in Hsmall.
    assert (exp2 (104 + (e + e)) < exp2 1023).
    { rewrite exp2_add. change 104%Z with (52 + 52)%Z. rewrite exp2_add.
      pose proof (exp2_pos (e + e)). pose proof (exp2_pos 52).
      assert (exp2 52 * exp2 52 <= IZR (Zpos m) * IZR (Zpos m)) by nra.
      nra. }
    apply exp2_lt_inv in H. lia.
Qed.

End AddSub.

Section DivSqrt.
Local Open Scope R_scope.

(** The location [new_location] gives to a remainder [r] of a division
    by [n]. *)
Lemma new_location_spec :
  forall (n r q : Z),
    (0 <= r < n)%Z ->
    frac_ok (IZR r / IZR n)
      (shr_r (shr_record_of_loc q (new_location n r)))
      (shr_s (shr_record_of_loc q (new_location n r))).
Proof.
  intros n r q Hr.
  assert (Hn : 0 < IZR n) by (apply IZR_lt; lia).
  set (x := IZR r / IZR n).
  assert (Hx : IZR r = x * IZR n) by (unfold x; field; lra).
  assert (Zero : r = 0%Z -> x = 0).
  { intros ->. unfold x. field. lra. }
  assert (Lt : (0 < r)%Z -> (2 * r < n)%Z -> 0 < x < 1 / 2).
  { intros H0 H1. apply IZR_lt in H0, H1. rewrite mult_IZR in H1.
    split; nra. }
  assert (Gt : (n < 2 * r)%Z -> 1 / 2 < x < 1).
  { intros H1. apply IZR_lt in H1. rewrite mult_IZR in H1.
    destruct Hr as [_ H2]. apply IZR_lt in H2. split; nra. }
  unfold new_location.
  destruct (Z.even n) eqn:Ev.
  - unfold new_location_even.
    destruct (Z.eqb_spec r 0) as [E|N]; [cbn; auto|].
    destruct (Z.compare_spec (2 * r) n) as [E|L|G]; cbn.
    + apply IZR_eq in E. rewrite mult_IZR in E. nra.
    + apply Lt; lia.
    + apply Gt; lia.
  - unfold new_location_odd.
    destruct (Z.eqb_spec r 0) as [E|N]; [cbn; auto|].
    assert (Hodd : (2 * r <> n)%Z).
    { intro E. rewrite <- E, Z.even_mul in Ev. discriminate. }
    destruct (Z.compare_spec (2 * r + 1) n) as [E|L|G]; cbn.
    + apply Lt; lia.
    + apply Lt; lia.
    + apply Gt; lia.
Qed.

Lemma shifted_mantissa :
  forall (m s : Z),
    (0 < m)%Z -> (0 <= s)%Z ->
    IZR match s with
        | Zpos _ => Z.shiftl m s
        | Z0 => m
        | Zneg _ => 0%Z
        end
    = IZR m * exp2 s /\
    (0 < match s with
         | Zpos _ => Z.shiftl m s
         | Z0 => m
         | Zneg _ => 0%Z
         end)%Z.
Proof.
  intros m s Hm Hs. destruct s as [|p|p]; try lia.
  - rewrite exp2_0. split; [ring|exact Hm].
  - rewrite Z.shiftl_mul_pow2 by lia.
    rewrite mult_IZR, <- exp2_IZR by lia. split; [reflexivity|].
    assert (0 < 2 ^ Zpos p)%Z by (apply Z.pow_pos_nonneg; lia). nia.
Qed.

(** The quotient and the location [SFdiv_core_binary] computes stand
    for the quotient of the two numbers, with enough digits. *)
Lemma SFdiv_core_spec :
  forall (mx my : positive) (ex ey : Z),
    let X := IZR (Zpos mx) * exp2 ex / (IZR (Zpos my) * exp2 ey) in
    let c := SFdiv_core_binary prec emax (Zpos mx) ex (Zpos my) ey in
    represents X (shr_record_of_loc (fst (fst c)) (snd c)) (snd (fst c)) /\
    ((snd (fst c) <= -1074)%Z \/ exp2 (snd (fst c) + 52) <= X) /\
    (X < exp2 1023 -> (snd (fst c) <= 971)%Z).
Proof.
  intros mx my ex ey X c. subst c. unfold SFdiv_core_binary.
  set (D := (Zdigits2 (Zpos mx) + ex - (Zdigits2 (Zpos my) + ey))%Z).
  set (e' := Z.min (fexp prec emax D) (ex - ey)).
  set (s := (ex - ey - e')%Z).
  assert (Hs : (0 <= s)%Z) by (subst s e'; lia).
  destruct (shifted_mantissa (Zpos mx) s ltac:(lia) Hs) as [Hm' Hpos'].
  set (m' := match s with
             | Zpos _ => Z.shiftl (Zpos mx) s
             | Z0 => Zpos mx
             | Zneg _ => 0%Z
             end) in *.
  pose proof (Z_div_mod m' (Zpos my) ltac:(lia)) as Hdiv.
  destruct (Z.div_eucl m' (Zpos my)) as [q r].
  destruct Hdiv as [Hq Hr].
  cbn [fst snd].
  assert (Hq0 : (0 <= q)%Z) by nia.
  pose proof (exp2_pos ex) as Pex. pose proof (exp2_pos ey) as Pey.
  pose proof (exp2_pos e') as Pe'. pose proof (exp2_pos s) as Ps.
  assert (Pmy : 0 < IZR (Zpos my)) by (apply IZR_lt; lia).
  assert (Pmx : 0 < IZR (Zpos mx)) by (apply IZR_lt; lia).
  assert (Eex : exp2 ex = exp2 s * exp2 e' * exp2 ey).
  { rewrite <- !exp2_add. f_equal. subst s. lia. }
  assert (HX : X = (IZR q + IZR r / IZR (Zpos my)) * exp2 e').
  { unfold X. rewrite Eex.
    apply IZR_eq in Hq. rewrite plus_IZR, mult_IZR, Hm' in Hq.
    field_simplify_eq; [|lra]. nra. }
  assert (Hlow : exp2 (D - 1) <= X).
  { pose proof (mantissa_bounds (Zpos mx) ex ltac:(lia)) as [Lx _].
    pose proof (mantissa_bounds (Zpos my) ey ltac:(lia)) as [_ Uy].
    assert (exp2 (Zdigits2 (Zpos mx) - 1 + ex)
            = exp2 (D - 1) * exp2 (Zdigits2 (Zpos my) + ey)) as E.
    { rewrite <- exp2_add. f_equal. subst D. lia. }
    pose proof (exp2_pos (D - 1)) as PD.
    set (B := IZR (Zpos my) * exp2 ey) in *.
    assert (0 < B) by (unfold B; nra).
    assert (X * B = IZR (Zpos mx) * exp2 ex) as EX
      by (unfold X; field; lra).
    nra. }
  split; [|split].
  - split; [rewrite represents_of_loc_m; exact Hq0|].
    exists (IZR r / IZR (Zpos my)).
    split; [apply new_location_spec; lia|].
    rewrite represents_of_loc_m. exact HX.
  - destruct (Z_le_gt_dec e' (-1074)) as [L|G]; [left; exact L|right].
    assert (e' + 52 <= D - 1)%Z.
    { subst e'. rewrite fexp_eq in *. lia. }
    apply (exp2_le _ _) in H. lra.
  - intro Hsmall.
    assert (D - 1 < 1023)%Z by (apply exp2_lt_inv; lra).
    subst e'. rewrite fexp_eq. lia.
Qed.

(** Division of a finite number by a finite number other than zero:
    the quotient, rounded, or an infinity. *)
Lemma SFdiv_model :
  forall (x : spec_float) (sy : bool) (my : positive) (ey : Z),
    valid_binary x = true -> finite_SF x ->
    ((exists s, SFdiv prec emax x (S754_finite sy my ey) = S754_infinity s) \/
     rounds_to (SFdiv prec emax x (S754_finite sy my ey))
       (SF2R x / SF2R (S754_finite sy my ey))) /\
    (Rabs (SF2R x / SF2R (S754_finite sy my ey)) < exp2 1023 ->
     rounds_to (SFdiv prec emax x (S754_finite sy my ey))
       (SF2R x / SF2R (S754_finite sy my ey))).
Proof.
  intros [sx|sx| |sx mx ex] sy my ey Vx Fx; try contradiction;
    cbn [SFdiv].
  - assert (SF2R (S754_zero sx) / SF2R (S754_finite sy my ey)
            = SF2R (S754_zero (xorb sx sy))) as ->.
    { cbn [SF2R]. unfold Rdiv. ring. }
    split; [right|intros _]; apply rounds_to_exact; exact I.
  - pose proof (SFdiv_core_spec mx my ex ey) as Hcore.
    cbv zeta in Hcore.
    destruct (SFdiv_core_binary prec emax (Zpos mx) ex (Zpos my) ey)
      as [[mz ez] lz].
    cbn [fst snd] in Hcore. destruct Hcore as (Hrep & Hprec & Hfit).
    set (X := IZR (Zpos mx) * exp2 ex / (IZR (Zpos my) * exp2 ey)) in *.
    assert (Pmy : 0 < IZR (Zpos my)) by (apply IZR_lt; lia).
    pose proof (exp2_pos ey) as Pey.
    assert (E : SF2R (S754_finite sx mx ex) / SF2R (S754_finite sy my ey)
                = if xorb sx sy then - X else X).
    { unfold X. cbn [SF2R]. destruct sx, sy; cbn [xorb]; field; lra. }
    rewrite E.
    destruct (binary_round_aux_model (xorb sx sy) mz ez lz X Hrep
                (or_intror Hprec)) as [Hcase Hfin].
    split.
    + destruct Hcase as [Hinf|Hr]; [left; eexists; exact Hinf|right; exact Hr].
    + intro Hsmall.
      assert (X < exp2 1023).
      { pose proof (represents_nonneg _ _ _ Hrep).
        destruct (xorb sx sy);
          [rewrite Rabs_Ropp in Hsmall|]; rewrite Rabs_pos_eq in Hsmall; lra. }
      apply Hfin; auto.
Qed.

(** The root and the location [SFsqrt_core_binary] computes stand for
    the square root, with enough digits. *)
Lemma SFsqrt_core_spec :
  forall (m : positive) (e : Z),
    let X := sqrt (IZR (Zpos m) * exp2 e) in
    let c := SFsqrt_core_binary prec emax (Zpos m) e in
    represents X (shr_record_of_loc (fst (fst c)) (snd c)) (snd (fst c)) /\
    ((snd (fst c) <= -1074)%Z \/ exp2 (snd (fst c) + 52) <= X) /\
    ((e <= 971)%Z -> (Zpos (digits2_pos m) <= 53)%Z ->
     X < exp2 1023 /\ (snd (fst c) <= 971)%Z).
Proof.
  intros m e X c. subst c. unfold SFsqrt_core_binary.
  set (d := Zdigits2 (Zpos m)).
  set (e' := Z.min (fexp prec emax (Z.div2 (d + e + 1))) (Z.div2 e)).
  set (s := (e - 2 * e')%Z).
  assert (Hdiv2 : forall a : Z, (2 * Z.div2 a <= a <= 2 * Z.div2 a + 1)%Z).
  { intro a. rewrite Z.div2_div. pose proof (Z.div_mod a 2 ltac:(lia)).
    pose proof (Z.mod_pos_bound a 2 ltac:(lia)). lia. }
  assert (Hs : (0 <= s)%Z).
  { subst s e'. pose proof (Hdiv2 e). lia. }
  destruct (shifted_mantissa (Zpos m) s ltac:(lia) Hs) as [Hm' Hpos'].
  set (m' := match s with
             | Zpos _ => Z.shiftl (Zpos m) s
             | Z0 => Zpos m
             | Zneg _ => 0%Z
             end) in *.
  pose proof (Z.sqrtrem_spec m' ltac:(lia)) as Hsqrt.
  destruct (Z.sqrtrem m') as [q r]. destruct Hsqrt as [Hq Hr].
  cbn [fst snd].
  assert (Pm : 0 < IZR (Zpos m)) by (apply IZR_lt; lia).
  pose proof (exp2_pos e) as Pe. pose proof (exp2_pos e') as Pe'.
  pose proof (exp2_pos s) as Ps.
  assert (Ee : exp2 e = exp2 s * (exp2 e' * exp2 e')).
  { rewrite <- !exp2_add. f_equal. subst s. lia. }
  assert (Hm0 : 0 <= IZR m') by (apply IZR_le; lia).
  set (y := sqrt (IZR m')).
  assert (Hy0 : 0 <= y) by apply sqrt_pos.
  assert (Hyy : y * y = IZR m') by (apply sqrt_sqrt; exact Hm0).
  assert (HX : X = y * exp2 e').
  { unfold X, y. rewrite Ee.
    replace (IZR (Zpos m) * (exp2 s * (exp2 e' * exp2 e')))
      with (IZR m' * (exp2 e' * exp2 e')) by (rewrite Hm'; ring).
    rewrite sqrt_mult by nra. rewrite sqrt_square by lra. reflexivity. }
  assert (HXX : X * X = IZR (Zpos m) * exp2 e).
  { unfold X. apply sqrt_sqrt. nra. }
  assert (HX0 : 0 <= X) by apply sqrt_pos.
  assert (Hq0 : (0 <= q)%Z) by lia.
  assert (HQ : 0 <= IZR q) by (apply IZR_le; exact Hq0).
  assert (Hsq : y * y = IZR q * IZR q + IZR r).
  { rewrite Hyy, Hq, plus_IZR, mult_IZR. reflexivity. }
  split; [|split].
  - split; [rewrite represents_of_loc_m; exact Hq0|].
    exists (y - IZR q). rewrite represents_of_loc_m.
    split; [|rewrite HX; ring].
    destruct (Z.eqb_spec r 0) as [E|N]; cbn.
    + rewrite E in Hsq. nra.
    + assert (1 <= IZR r) by (apply IZR_le; lia).
      destruct (Z.leb_spec r q) as [L|G]; cbn.
      * apply IZR_le in L. split; nra.
      * assert (IZR q + 1 <= IZR r)
          by (rewrite <- plus_IZR; apply IZR_le; lia).
        assert (IZR r <= 2 * IZR q)
          by (rewrite <- mult_IZR; apply IZR_le; lia).
        split; nra.
  - destruct (Z_le_gt_dec e' (-1074)) as [L|G]; [left; exact L|right].
    pose proof (mantissa_bounds (Zpos m) e ltac:(lia)) as [Lm _].
    fold d in Lm.
    assert (2 * (e' + 52) <= d - 1 + e)%Z.
    { pose proof (Hdiv2 (d + e + 1)%Z). subst e'. rewrite fexp_eq in *. lia. }
    apply exp2_le in H. rewrite exp2_double in H.
    pose proof (exp2_pos (e' + 52)). nra.
  - intros He Hd.
    pose proof (mantissa_below m Hd) as Um.
    assert (exp2 e <= exp2 971) by (apply exp2_le; lia).
    assert (exp2 53 * exp2 971 = exp2 1024) by (rewrite <- exp2_add; reflexivity).
    assert (exp2 1024 <= exp2 1023 * exp2 1023)
      by (rewrite <- exp2_add; apply exp2_le; lia).
    pose proof (exp2_pos 1023). pose proof (exp2_pos 53).
    split; [nra|].
    pose proof (Hdiv2 e). subst e'. lia.
Qed.

(** The square root of a finite number that is not negative: the
    root, rounded. *)
Lemma SFsqrt_model :
  forall x : spec_float,
    valid_binary x = true -> finite_SF x -> 0 <= SF2R x ->
    rounds_to (SFsqrt prec emax x) (sqrt (SF2R x)).
Proof.
  intros [s|s| |s m e] Vx Fx Hx; try contradiction; cbn [SFsqrt].
  - replace (sqrt (SF2R (S754_zero s))) with (SF2R (S754_zero s))
      by (cbn [SF2R]; rewrite sqrt_0; reflexivity).
    apply rounds_to_exact. exact I.
  - assert (Pm : 0 < IZR (Zpos m)) by (apply IZR_lt; lia).
    pose proof (exp2_pos e) as Pe.
    destruct s; [exfalso; cbn [SF2R] in Hx; nra|].
    cbn [SF2R].
    pose proof (SFsqrt_core_spec m e) as Hcore. cbv zeta in Hcore.
    destruct (SFsqrt_core_binary prec emax (Zpos m) e) as [[mz ez] lz].
    cbn [fst snd] in Hcore. destruct Hcore as (Hrep & Hprec & Hfit).
    destruct (valid_finite _ _ _ Vx) as (He & Hd & _).
    destruct (Hfit ltac:(lia) Hd) as [Hsmall Hez].
    destruct (binary_round_aux_model false mz ez lz _ Hrep
                (or_intror Hprec)) as [_ Hfin].
    apply Hfin; assumption.
Qed.

End DivSqrt.

(* ================================================================= *)
(** ** Comparison *)

Section Comparison.
Local Open Scope R_scope.

Lemma SF2R_pos :
  forall m e, 0 < SF2R (S754_finite false m e).
Proof.
  intros m e. cbn [SF2R].
  assert (0 < IZR (Zpos m)) by (apply IZR_lt; lia).
  pose proof (exp2_pos e). nra.
Qed.

(** Of two valid positive numbers the one with the smaller exponent is
    the smaller. *)
Lemma smaller_exponent :
  forall m1 e1 m2 e2,
    valid_binary (S754_finite false m1 e1) = true ->
    valid_binary (S754_finite false m2 e2) = true ->
    (e1 < e2)%Z ->
    SF2R (S754_finite false m1 e1) < SF2R (S754_finite false m2 e2).
Proof.
  intros m1 e1 m2 e2 V1 V2 H. cbn [SF2R].
  destruct (valid_finite _ _ _ V1) as (He1 & Hd1 & _).
  destruct (valid_finite _ _ _ V2) as (He2 & _ & [Hs|Hn]); [lia|].
  pose proof (mantissa_below m1 Hd1) as U.
  pose proof (normal_mantissa m2 Hn) as L.
  assert (exp2 (53 + e1) <= exp2 (52 + e2)) as E by (apply exp2_le; lia).
  rewrite !exp2_add in E.
  pose proof (exp2_pos e1). pose proof (exp2_pos e2). nra.
Qed.

(** [SFcompare] on valid positive numbers compares the numbers. *)
Lemma SFcompare_pos :
  forall m1 e1 m2 e2,
    valid_binary (S754_finite false m1 e1) = true ->
    valid_binary (S754_finite false m2 e2) = true ->
    match SFcompare (S754_finite false m1 e1) (S754_finite false m2 e2) with
    | Some Lt =>
        SF2R (S754_finite false m1 e1) < SF2R (S754_finite false m2 e2)
    | Some Eq =>
        SF2R (S754_finite false m1 e1) = SF2R (S754_finite false m2 e2)
    | Some Gt =>
        SF2R (S754_finite false m2 e2) < SF2R (S754_finite false m1 e1)
    | None => False
    end.
Proof.
  intros m1 e1 m2 e2 V1 V2. cbn [SFcompare].
  destruct (Z.compare_spec e1 e2) as [E|L|G].
  - subst e2. change (Pos.compare_cont Eq m1 m2) with (Pos.compare m1 m2).
    pose proof (exp2_pos e1). cbn [SF2R].
    destruct (Pos.compare_spec m1 m2) as [E|L|G].
    + subst m2. reflexivity.
    + assert (IZR (Zpos m1) < IZR (Zpos m2)) by (apply IZR_lt; lia). nra.
    + assert (IZR (Zpos m2) < IZR (Zpos m1)) by (apply IZR_lt; lia). nra.
  - apply smaller_exponent; assumption.
  - apply smaller_exponent; assumption.
Qed.

(** A float that is at least a positive float and below the positive
    infinity is finite, and the number it stands for is at least the
    number of the bound. *)
Lemma leb_ltb_finite :
  forall (lo x : float) (m : positive) (e : Z),
    Prim2SF lo = S754_finite false m e ->
    PrimFloat.leb lo x = true ->
    PrimFloat.ltb x infinity = true ->
    finite x /\ value lo <= value x.
Proof.
  intros lo x m e Hlo Hle Hlt.
  rewrite leb_spec in Hle. rewrite ltb_spec in Hlt.
  pose proof (Prim2SF_valid lo) as Vlo. pose proof (Prim2SF_valid x) as Vx.
  unfold finite, value. rewrite Hlo in *.
  change (Prim2SF infinity) with (S754_infinity false) in Hlt.
  unfold SFleb in Hle. unfold SFltb in Hlt.
  destruct (Prim2SF x) as [s|s| |s mx ex].
  - cbn in Hle. discriminate.
  - destruct s; cbn in Hle, Hlt; discriminate.
  - cbn in Hle. discriminate.
  - destruct s; [cbn in Hle; discriminate|].
    split; [exact I|].
    pose proof (SFcompare_pos m e mx ex Vlo Vx) as C.
    destruct (SFcompare (S754_finite false m e) (S754_finite false mx ex))
      as [[| |]|]; try discriminate; lra.
Qed.

(** A finite float whose number is at most that of a positive float in
    absolute value: [abs] of it compares below that float. *)
Lemma abs_leb :
  forall (x hi : float) (m : positive) (e : Z),
    Prim2SF hi = S754_finite false m e ->
    finite x ->
    Rabs (value x) <= value hi ->
    PrimFloat.leb (PrimFloat.abs x) hi = true.
Proof.
  intros x hi m e Hhi Fx Hle.
  rewrite leb_spec, abs_spec.
  pose proof (Prim2SF_valid hi) as Vhi. pose proof (Prim2SF_valid x) as Vx.
  unfold finite, value in *. rewrite Hhi in *.
  destruct (Prim2SF x) as [s|s| |s mx ex]; try contradiction.
  - reflexivity.
  - cbn [SFabs]. unfold SFleb.
    assert (Vx' : valid_binary (S754_finite false mx ex) = true) by exact Vx.
    pose proof (SFcompare_pos mx ex m e Vx' Vhi) as C.
    assert (Rabs (SF2R (S754_finite s mx ex))
            = SF2R (S754_finite false mx ex)) as E.
    { pose proof (SF2R_pos mx ex) as P. cbn [SF2R] in *.
      destruct s.
      - replace (- IZR (Zpos mx) * exp2 ex)
          with (- (IZR (Zpos mx) * exp2 ex)) by ring.
        rewrite Rabs_Ropp. apply Rabs_pos_eq. lra.
      - apply Rabs_pos_eq. lra. }
    rewrite E in Hle.
    destruct (SFcompare (S754_finite false mx ex) (S754_finite false m e))
      as [[| |]|]; try reflexivity; try contradiction; lra.
Qed.

End Comparison.

(* ================================================================= *)
(** ** The operations of the normalizer on float64 *)

Section Float64.
Local Open Scope R_scope.

Lemma rounds_nonneg :
  forall (z : float) (t : R),
    rounds_to (Prim2SF z) t -> 0 <= t -> nonneg_finite z.
Proof.
  intros z t (Hf & _ & Hs & _) Ht. split; [exact Hf|]. apply Hs, Ht.
Qed.

Lemma nan_or_inf_not_finite :
  forall x, nan_or_inf x -> finite x -> False.
Proof.
  intros x [H|H] F; unfold finite in F; rewrite H in F; exact F.
Qed.

(** [v * v]: the square, rounded, when [v] is finite and the square is
    in range; NaN or the positive infinity otherwise. *)
Lemma square_cases :
  forall x : float,
    (nan_or_inf (x * x)%float \/
     (finite x /\
      rounds_to (Prim2SF (x * x)%float) (value x * value x))) /\
    (finite x -> value x * value x < exp2 1023 ->
     rounds_to (Prim2SF (x * x)%float) (value x * value x)).
Proof.
  intro x. unfold nan_or_inf, finite, value.
  rewrite mul_spec. unfold SF64mul.
  pose proof (Prim2SF_valid x) as Vx.
  destruct (Prim2SF x) as [s|s| |s m e] eqn:E.
  - destruct (SFmul_square (S754_zero s) Vx I) as [Hc Hf].
    split; [|intros _; exact Hf].
    destruct Hc as [Hc|Hc]; [left; right; exact Hc|right; split; [exact I|exact Hc]].
  - split; [|intros []]. left. right. cbn. destruct s; reflexivity.
  - split; [|intros []]. left. left. reflexivity.
  - destruct (SFmul_square (S754_finite s m e) Vx I) as [Hc Hf].
    split; [|intros _; exact Hf].
    destruct Hc as [Hc|Hc]; [left; right; exact Hc|right; split; [exact I|exact Hc]].
Qed.

(** [a + p] for two operands that are finite and not negative, or NaN
    or the positive infinity: the sum, rounded, when both are finite
    and the sum is in range; NaN or the positive infinity otherwise. *)
Lemma add_cases :
  forall a p : float,
    nonneg_finite a \/ nan_or_inf a ->
    nonneg_finite p \/ nan_or_inf p ->
    (nan_or_inf (a + p)%float \/
     (nonneg_finite a /\ nonneg_finite p /\
      rounds_to (Prim2SF (a + p)%float) (value a + value p))) /\
    (nonneg_finite a -> nonneg_finite p ->
     value a + value p < exp2 1023 ->
     rounds_to (Prim2SF (a + p)%float) (value a + value p)).
Proof.
  intros a p Ha Hp.
  assert (Both : nonneg_finite a -> nonneg_finite p ->
    (nan_or_inf (a + p)%float \/
     rounds_to (Prim2SF (a + p)%float) (value a + value p)) /\
    (value a + value p < exp2 1023 ->
     rounds_to (Prim2SF (a + p)%float) (value a + value p))).
  { intros [Fa Pa] [Fp Pp]. unfold nan_or_inf, finite, value in *.
    rewrite add_spec. unfold SF64add.
    destruct (SFadd_model (Prim2SF a) (Prim2SF p)
                (Prim2SF_valid a) (Prim2SF_valid p) Fa Fp) as [Hc Hf].
    split.
    - destruct Hc as [[Hc _]|[[_ Hc]|Hc]];
        [left; right; exact Hc|lra|right; exact Hc].
    - intro Hs. apply Hf. rewrite Rabs_pos_eq; lra. }
  split.
  - destruct Ha as [Ha|Ha].
    + destruct Hp as [Hp|Hp].
      * destruct (Both Ha Hp) as [[B|B] _]; [left; exact B|right; auto].
      * left. destruct Ha as [Fa _]. unfold nan_or_inf, finite in *.
        rewrite add_spec. unfold SF64add.
        destruct (Prim2SF a) as [s|s| |s m e]; try contradiction;
          destruct Hp as [-> | ->]; cbn; auto.
    + left. unfold nan_or_inf, nonneg_finite, finite in *.
      rewrite add_spec. unfold SF64add.
      destruct Ha as [-> | ->]; [left; reflexivity|].
      destruct Hp as [[Fp _]|[-> | ->]]; cbn; auto.
      destruct (Prim2SF p) as [s|s| |s m e]; try contradiction; cbn; auto.
  - intros Na Np. apply Both; assumption.
Qed.

(** [math.Sqrt]: the square root, rounded, of a finite number that is
    not negative; NaN and the positive infinity stay. *)
Lemma sqrt_cases :
  forall a : float,
    (nan_or_inf a -> nan_or_inf (PrimFloat.sqrt a)) /\
    (nonneg_finite a ->
     rounds_to (Prim2SF (PrimFloat.sqrt a)) (sqrt (value a))).
Proof.
  intro a. unfold nan_or_inf, nonneg_finite, finite, value.
  rewrite sqrt_spec. unfold SF64sqrt. split.
  - intros [-> | ->]; cbn; auto.
  - intros [Fa Pa]. apply SFsqrt_model; [apply Prim2SF_valid|exact Fa|exact Pa].
Qed.

(** [v / magnitude] for a finite [v] and a finite positive
    [magnitude], when the quotient is in range. *)
Lemma div_model :
  forall x m : float,
    finite x -> finite m -> 0 < value m ->
    Rabs (value x / value m) < exp2 1023 ->
    rounds_to (Prim2SF (x / m)%float) (value x / value m).
Proof.
  intros x m Fx Fm Pm Hs. unfold finite, value in *.
  rewrite div_spec. unfold SF64div.
  destruct (Prim2SF m) as [s|s| |s mm em]; try contradiction.
  - cbn [SF2R] in Pm. lra.
  - apply SFdiv_model; [apply Prim2SF_valid|exact Fx|exact Hs].
Qed.

Lemma sub_model :
  forall x y : float,
    finite x -> finite y ->
    Rabs (value x - value y) < exp2 1023 ->
    rounds_to (Prim2SF (x - y)%float) (value x - value y).
Proof.
  intros x y Fx Fy Hs. unfold finite, value in *.
  rewrite sub_spec. unfold SF64sub.
  apply SFsub_model; auto using Prim2SF_valid.
Qed.

End Float64.

(* ================================================================= *)
(** ** The error of a sum of squares *)

Section SumOfSquares.
Local Open Scope R_scope.

Lemma rounds_bounds :
  forall (z : spec_float) (t : R),
    rounds_to z t -> 0 <= t ->
    t * (1 - unit_roundoff) - half_least <= SF2R z
    <= t * (1 + unit_roundoff) + half_least.
Proof.
  intros z t (_ & H & _) Ht. rewrite (Rabs_pos_eq t) in H by exact Ht.
  apply Rabs_le_both in H. lra.
Qed.

(** One step of the error bound from above: [A'] is the accumulator
    after adding the rounded square [x2], [V] the end of the loop. *)
Lemma step_upper :
  forall A A' x2 S N u h V : R,
    0 <= A -> 0 <= x2 -> 0 <= S -> 0 <= N -> 0 <= u -> 0 <= h ->
    (N + 1) * u <= 1 / 16 ->
    A' <= (A + (x2 * (1 + u) + h)) * (1 + u) + h ->
    V <= (A' + S) * (1 + 3 * N * u) + 3 * N * h ->
    V <= (A + (x2 + S)) * (1 + 3 * (N + 1) * u) + 3 * (N + 1) * h.
Proof.
  intros A A' x2 S N u h V HA Hx HS HN Hu Hh Hsmall HA' HV.
  assert (Nu : 0 <= N * u) by nra.
  assert (Nu' : N * u <= 1 / 16) by nra.
  assert (u1 : u <= 1 / 16) by nra.
  assert (cA : (1 + u) * (1 + 3 * N * u) <= 1 + 3 * (N + 1) * u) by nra.
  assert (cx : (1 + u) * (1 + u) * (1 + 3 * N * u) <= 1 + 3 * (N + 1) * u).
  { assert ((1 + u) * (1 + u) <= 1 + 2 * u + u / 16) by nra.
    assert (0 <= 1 + 3 * N * u) by nra.
    assert ((1 + 2 * u + u / 16) * (1 + 3 * N * u)
            <= 1 + 3 * (N + 1) * u) by nra.
    nra. }
  assert (ch : (2 + u) * (1 + 3 * N * u) <= 3) by nra.
  assert (P : 0 <= 1 + 3 * N * u) by nra.
  assert (V <= ((A + (x2 * (1 + u) + h)) * (1 + u) + h + S)
               * (1 + 3 * N * u) + 3 * N * h) by nra.
  pose proof (Rmult_le_compat_l A _ _ HA cA).
  pose proof (Rmult_le_compat_l x2 _ _ Hx cx).
  pose proof (Rmult_le_compat_l h _ _ Hh ch).
  assert (S * (1 + 3 * N * u) <= S * (1 + 3 * (N + 1) * u)) by nra.
  nra.
Qed.

Lemma step_lower :
  forall A A' x2 S N u h V : R,
    0 <= A -> 0 <= x2 -> 0 <= S -> 0 <= N -> 0 <= u -> 0 <= h ->
    (N + 1) * u <= 1 / 16 ->
    (A + (x2 * (1 - u) - h)) * (1 - u) - h <= A' ->
    (A' + S) * (1 - 3 * N * u) - 3 * N * h <= V ->
    (A + (x2 + S)) * (1 - 3 * (N + 1) * u) - 3 * (N + 1) * h <= V.
Proof.
  intros A A' x2 S N u h V HA Hx HS HN Hu Hh Hsmall HA' HV.
  assert (Nu : 0 <= N * u) by nra.
  assert (Nu' : N * u <= 1 / 16) by nra.
  assert (u1 : u <= 1 / 16) by nra.
  assert (cA : 1 - 3 * (N + 1) * u <= (1 - u) * (1 - 3 * N * u)) by nra.
  assert (cx : 1 - 3 * (N + 1) * u <= (1 - u) * (1 - u) * (1 - 3 * N * u)).
  { assert (1 - 2 * u <= (1 - u) * (1 - u)) by nra.
    assert (0 <= 1 - 3 * N * u) by nra.
    assert (1 - 3 * (N + 1) * u <= (1 - 2 * u) * (1 - 3 * N * u)) by nra.
    nra. }
  assert (ch : (2 - u) * (1 - 3 * N * u) <= 3) by nra.
  assert (P : 0 <= 1 - 3 * N * u) by nra.
  assert (((A + (x2 * (1 - u) - h)) * (1 - u) - h + S)
          * (1 - 3 * N * u) - 3 * N * h <= V) by nra.
  pose proof (Rmult_le_compat_l A _ _ HA cA).
  pose proof (Rmult_le_compat_l x2 _ _ Hx cx).
  pose proof (Rmult_le_compat_l h _ _ Hh ch).
  assert (S * (1 - 3 * (N + 1) * u) <= S * (1 - 3 * N * u)) by nra.
  nra.
Qed.

Lemma unit_roundoff_eq : unit_roundoff * 9007199254740992 = 1.
Proof.
  unfold unit_roundoff.
  change 9007199254740992 with (IZR (2 ^ 53)).
  rewrite <- exp2_IZR, <- exp2_add by lia. reflexivity.
Qed.

Lemma half_least_eq : half_least = unit_roundoff * exp2 (-1022).
Proof. unfold half_least, unit_roundoff. rewrite <- exp2_add. reflexivity. Qed.

Lemma exp2_neg_le_1 : forall e : Z, (e <= 0)%Z -> exp2 e <= 1.
Proof. intros e H. rewrite <- exp2_0. apply exp2_le. exact H. Qed.

Lemma half_least_small : half_least <= unit_roundoff * exp2 (-1000).
Proof.
  rewrite half_least_eq.
  assert (exp2 (-1022) <= exp2 (-1000)) by (apply exp2_le; lia).
  pose proof unit_roundoff_pos. nra.
Qed.

Lemma real_sum_squares_nonneg :
  forall l : list float, 0 <= real_sum_squares l.
Proof.
  induction l as [|x l IH]; cbn [real_sum_squares fold_right]; [lra|].
  fold (real_sum_squares l). nra.
Qed.

Lemma square_class :
  forall x : float,
    nonneg_finite (x * x)%float \/ nan_or_inf (x * x)%float.
Proof.
  intro x. destruct (square_cases x) as [[B|[_ R]] _]; [right; exact B|].
  left. apply (rounds_nonneg _ _ R). nra.
Qed.

(** NaN and the positive infinity stay to the end of the loop. *)
Lemma fold_nan_or_inf :
  forall (l : list float) (acc : float),
    nan_or_inf acc ->
    nan_or_inf
      (fold_left (fun magnitude v => fadd magnitude (fmul v v)) l acc).
Proof.
  induction l as [|x l IH]; intros acc H; cbn [fold_left]; [exact H|].
  apply IH. cbn [fadd fmul float64].
  destruct (add_cases acc (x * x)%float (or_intror H) (square_class x))
    as [[B|[[F _] _]] _]; [exact B|].
  destruct (nan_or_inf_not_finite _ H F).
Qed.

(** The loop [magnitude += v * v] from an accumulator that is finite
    and not negative: the result is NaN or the positive infinity, or
    every element is finite and the result is the sum of the squares
    up to a relative error of three unit roundoffs for each element
    (and three times half the smallest positive number). *)
Lemma fold_model :
  forall (l : list float) (acc : float),
    nonneg_finite acc ->
    INR (length l) * unit_roundoff <= 1 / 16 ->
    nan_or_inf
      (fold_left (fun magnitude v => fadd magnitude (fmul v v)) l acc) \/
    (nonneg_finite
       (fold_left (fun magnitude v => fadd magnitude (fmul v v)) l acc) /\
     Forall finite l /\
     (value acc + real_sum_squares l)
     * (1 - 3 * INR (length l) * unit_roundoff)
     - 3 * INR (length l) * half_least
     <= value (fold_left (fun magnitude v => fadd magnitude (fmul v v)) l acc)
     <= (value acc + real_sum_squares l)
        * (1 + 3 * INR (length l) * unit_roundoff)
        + 3 * INR (length l) * half_least).
Proof.
  pose proof unit_roundoff_pos as Pu. pose proof half_least_pos as Ph.
  induction l as [|x l IH]; intros acc Hacc Hn.
  - right. cbn [fold_left length real_sum_squares fold_right INR].
    split; [exact Hacc|]. split; [constructor|]. lra.
  - cbn [fold_left]. cbn [fadd fmul float64].
    change (length (x :: l)) with (S (length l)) in *.
    rewrite S_INR in *.
    cbn [real_sum_squares fold_right]. fold (real_sum_squares l).
    pose proof (pos_INR (length l)) as PN.
    destruct (square_cases x) as [[Bx|[Fx Rx]] _].
    { left. apply fold_nan_or_inf.
      destruct (add_cases acc (x * x)%float (or_introl Hacc) (or_intror Bx))
        as [[B|(_ & [F _] & _)] _]; [exact B|].
      destruct (nan_or_inf_not_finite _ Bx F). }
    assert (Hx2 : 0 <= value x * value x) by nra.
    pose proof (rounds_nonneg _ _ Rx Hx2) as Np.
    destruct (add_cases acc (x * x)%float (or_introl Hacc) (or_introl Np))
      as [[B|(_ & _ & Ra)] _].
    { left. apply fold_nan_or_inf. exact B. }
    destruct Hacc as [Facc Pacc]. destruct Np as [Fp Pp].
    assert (Hsum : 0 <= value acc + value (x * x)%float) by lra.
    pose proof (rounds_nonneg _ _ Ra Hsum) as Nacc'.
    destruct (IH (acc + x * x)%float Nacc' ltac:(nra)) as [B|(Nr & Fl & Lo & Hi)].
    { left. exact B. }
    right. split; [exact Nr|]. split; [constructor; assumption|].
    pose proof (rounds_bounds _ _ Rx Hx2) as [Lp Up].
    pose proof (rounds_bounds _ _ Ra Hsum) as [La Ua].
    fold (value (x * x)%float) in Lp, Up.
    fold (value (acc + x * x)%float) in La, Ua.
    pose proof (real_sum_squares_nonneg l) as PS.
    destruct Nacc' as [_ Pacc'].
    assert (Pu1 : unit_roundoff <= 1 / 16) by nra.
    split.
    + apply (step_lower (value acc) (value (acc + x * x)%float)
               (value x * value x) (real_sum_squares l) (INR (length l))
               unit_roundoff half_least); try lra; [nra|exact Lo].
    + apply (step_upper (value acc) (value (acc + x * x)%float)
               (value x * value x) (real_sum_squares l) (INR (length l))
               unit_roundoff half_least); try lra; [nra|exact Hi].
Qed.

End SumOfSquares.

(* ================================================================= *)
(** ** The error of the normalization, over the reals *)

Section Analysis.
Local Open Scope R_scope.

(** The magnitude against the exact sum of squares [S]: [vs] is the
    computed sum, [w] its square root, [M] the computed magnitude, at
    least [L]; [N] is the number of elements. *)
Lemma magnitude_analysis :
  forall S vs w M N u h L : R,
    0 <= S -> 0 <= w -> w * w = vs ->
    0 <= N <= 1073741824 ->
    u * 9007199254740992 = 1 ->
    0 < h -> 0 < L <= 1 ->
    h * 37778931862957161709568 <= L * L ->
    S * (1 - 3 * N * u) - 3 * N * h <= vs
    <= S * (1 + 3 * N * u) + 3 * N * h ->
    w * (1 - u) - h <= M <= w * (1 + u) + h ->
    L <= M ->
    S * (1 - 61 / 167772160) <= M * M <= S * (1 + 61 / 167772160).
Proof.
  intros S vs w M N u h L HS Hw Hww HN Hu Hh HL HhL Hvs HM HLM.
  assert (u0 : 0 < u) by lra.
  assert (u1 : u <= 1 / 9007199254740992) by lra.
  assert (hL : h <= L / 37778931862957161709568) by nra.
  (* the root is at least half the bound *)
  assert (Hw2 : L / 2 <= w) by nra.
  (* half the smallest number is nothing against the root *)
  assert (hw : h <= u * w).
  { assert (h <= L * L / 37778931862957161709568) by lra.
    assert (L * L <= 2 * w * L) by nra.
    assert (2 * w * L <= 2 * w) by nra.
    nra. }
  assert (M1 : w * (1 - 2 * u) <= M) by lra.
  assert (M2 : M <= w * (1 + 2 * u)) by lra.
  assert (M0 : 0 <= w * (1 - 2 * u)) by nra.
  assert (MM1 : vs * ((1 - 2 * u) * (1 - 2 * u)) <= M * M).
  { rewrite <- Hww. nra. }
  assert (MM2 : M * M <= vs * ((1 + 2 * u) * (1 + 2 * u))).
  { rewrite <- Hww. nra. }
  assert (vs0 : L * L / 4 <= vs).
  { rewrite <- Hww. nra. }
  set (t := / 2199023255552).
  assert (Nh : 3 * N * h <= vs * t).
  { unfold t.
    assert (3 * N * h <= 3 * 1073741824 * h) by nra.
    lra. }
  assert (theta : 0 <= 3 * N * u <= 6 / 16777216) by nra.
  set (th := 3 * N * u) in *.
  assert (S1 : vs * (1 - t) <= S * (1 + th)) by lra.
  assert (S2 : S * (1 - th) <= vs * (1 + t)) by lra.
  assert (vs1 : 0 <= vs) by nra.
  unfold t in *. clear t.
  split.
  - assert (c : (1 - 61 / 167772160) * (1 + / 2199023255552)
               <= (1 - th) * ((1 - 2 * u) * (1 - 2 * u))).
    { assert ((1 - 2 / 9007199254740992) * (1 - 2 / 9007199254740992)
              <= (1 - 2 * u) * (1 - 2 * u)) by nra.
      assert (1 - 6 / 16777216 <= 1 - th) by lra.
      assert (0 <= (1 - 2 * u) * (1 - 2 * u)) by nra.
      assert ((1 - 6 / 16777216)
              * ((1 - 2 / 9007199254740992) * (1 - 2 / 9007199254740992))
              <= (1 - th) * ((1 - 2 * u) * (1 - 2 * u))) by nra.
      lra. }
    assert (0 <= (1 - 2 * u) * (1 - 2 * u)) by nra.
    assert (S * (1 - th) * ((1 - 2 * u) * (1 - 2 * u))
            <= vs * (1 + / 2199023255552) * ((1 - 2 * u) * (1 - 2 * u)))
      by nra.
    assert (vs * (1 + / 2199023255552) * ((1 - 2 * u) * (1 - 2 * u))
            <= M * M * (1 + / 2199023255552)) by nra.
    assert (S * ((1 - 61 / 167772160) * (1 + / 2199023255552))
            <= S * ((1 - th) * ((1 - 2 * u) * (1 - 2 * u)))) by nra.
    nra.
  - assert (c : (1 + th) * ((1 + 2 * u) * (1 + 2 * u))
               <= (1 + 61 / 167772160) * (1 - / 2199023255552)).
    { assert ((1 + 2 * u) * (1 + 2 * u)
              <= (1 + 2 / 9007199254740992) * (1 + 2 / 9007199254740992))
        by nra.
      assert (1 + th <= 1 + 6 / 16777216) by lra.
      assert ((1 + th) * ((1 + 2 * u) * (1 + 2 * u))
              <= (1 + 6 / 16777216)
                 * ((1 + 2 / 9007199254740992) * (1 + 2 / 9007199254740992)))
        by nra.
      lra. }
    assert (0 <= (1 + 2 * u) * (1 + 2 * u)) by nra.
    assert (M * M * (1 - / 2199023255552)
            <= vs * (1 - / 2199023255552) * ((1 + 2 * u) * (1 + 2 * u)))
      by nra.
    assert (vs * (1 - / 2199023255552) * ((1 + 2 * u) * (1 + 2 * u))
            <= S * (1 + th) * ((1 + 2 * u) * (1 + 2 * u))) by nra.
    assert (S * ((1 + th) * ((1 + 2 * u) * (1 + 2 * u)))
            <= S * ((1 + 61 / 167772160) * (1 - / 2199023255552))) by nra.
    nra.
Qed.

(** The norm of the normalized vector: [q] is the exact sum of
    squares over the square of the magnitude, [T] the exact sum of the
    squares of the quotients, [vt] the computed one, [w] its square
    root and [V] the computed norm. *)
Lemma norm_analysis :
  forall q MM S T vt w V N u h : R,
    0 < MM -> q * MM = S ->
    S * (1 - 61 / 167772160) <= MM <= S * (1 + 61 / 167772160) ->
    0 <= N <= 1073741824 ->
    u * 9007199254740992 = 1 ->
    0 < h -> h * 1267650600228229401496703205376 <= 1 ->
    q * (1 - 2 * u) - 4 * N * h <= T <= q * ((1 + u) * (1 + u)) + 6 * N * h ->
    T * (1 - 3 * N * u) - 3 * N * h <= vt
    <= T * (1 + 3 * N * u) + 3 * N * h ->
    0 <= w -> w * w = vt ->
    w * (1 - u) - h <= V <= w * (1 + u) + h ->
    - (63 / 167772160) <= V - 1 <= 63 / 167772160.
Proof.
  intros q MM S T vt w V N u h HMM Hq HS HN Hu Hh Hh' HT Hvt Hw Hww HV.
  assert (u0 : 0 < u) by lra.
  assert (u1 : u <= 1 / 9007199254740992) by lra.
  assert (Nh : N * h <= 1 / 1180591620717411303424).
  { assert (N * h <= 1073741824 * h) by nra. lra. }
  assert (theta : 0 <= 3 * N * u <= 6 / 16777216) by nra.
  set (th := 3 * N * u) in *.
  assert (q1 : q * (1 - 61 / 167772160) <= 1).
  { rewrite <- Hq in HS. nra. }
  assert (q2 : 1 <= q * (1 + 61 / 167772160)).
  { rewrite <- Hq in HS. nra. }
  assert (qhi : q <= 1 + 62 / 167772160) by nra.
  assert (qlo : 1 - 61 / 167772160 <= q) by nra.
  assert (Thi : T <= 1 + 625 / 1677721600).
  { assert ((1 + u) * (1 + u) <= 1 + 3 * u) by nra.
    assert (q * ((1 + u) * (1 + u)) <= (1 + 62 / 167772160) * (1 + 3 * u))
      by nra.
    nra. }
  assert (Tlo : 1 - 615 / 1677721600 <= T).
  { assert ((1 - 61 / 167772160) * (1 - 2 * u) <= q * (1 - 2 * u)) by nra.
    nra. }
  assert (vthi : vt <= (1 + 62 / 167772160) * (1 + 62 / 167772160)).
  { assert (T * (1 + th) <= (1 + 625 / 1677721600) * (1 + 6 / 16777216))
      by nra.
    nra. }
  assert (vtlo : (1 - 62 / 167772160) * (1 - 62 / 167772160) <= vt).
  { assert ((1 - 615 / 1677721600) * (1 - 6 / 16777216) <= T * (1 - th))
      by nra.
    nra. }
  assert (whi : w <= 1 + 62 / 167772160) by nra.
  assert (wlo : 1 - 62 / 167772160 <= w) by nra.
  split; nra.
Qed.

End Analysis.

(* ================================================================= *)
(** ** The normalizer on float64 *)

Section Normalization.
Local Open Scope R_scope.

Lemma exp2_50 : exp2 50 = 1125899906842624.
Proof. rewrite exp2_IZR by lia. reflexivity. Qed.

Lemma exp2_1023_large : 2251799813685248 <= exp2 1023.
Proof.
  change 2251799813685248 with (IZR (2 ^ 51)).
  rewrite <- exp2_IZR by lia. apply exp2_le. lia.
Qed.

Lemma half_least_tiny :
  half_least * 1267650600228229401496703205376 <= 1.
Proof.
  change 1267650600228229401496703205376 with (IZR (2 ^ 100)).
  rewrite <- exp2_IZR by lia. unfold half_least. rewrite <- exp2_add.
  apply exp2_neg_le_1. lia.
Qed.

Lemma nonneg_finite_zero : nonneg_finite 0%float.
Proof. split; [exact I|]. unfold value. cbn. lra. Qed.

(** The loop [magnitude += v * v] over elements of square at most 16
    does not overflow. *)
Lemma fold_in_range :
  forall (l : list float) (acc : float),
    nonneg_finite acc ->
    Forall (fun y => finite y /\ value y * value y <= 16) l ->
    value acc + 32 * INR (length l) <= exp2 50 ->
    nonneg_finite
      (fold_left (fun magnitude v => fadd magnitude (fmul v v)) l acc).
Proof.
  pose proof unit_roundoff_pos as Pu. pose proof unit_roundoff_eq as Eu.
  pose proof half_least_pos as Ph. pose proof half_least_tiny as Eh.
  pose proof exp2_50 as E50. pose proof exp2_1023_large as E1023.
  induction l as [|x l IH]; intros acc Hacc Hall Hroom; cbn [fold_left];
    [exact Hacc|].
  cbn [fadd fmul float64].
  change (length (x :: l)) with (S (length l)) in Hroom.
  rewrite S_INR in Hroom.
  pose proof (pos_INR (length l)) as PN.
  inversion Hall as [|? ? [Fx Hx] Hall']; subst.
  destruct (square_cases x) as [_ Hsq].
  specialize (Hsq Fx ltac:(lra)).
  assert (Hx2 : 0 <= value x * value x) by nra.
  pose proof (rounds_nonneg _ _ Hsq Hx2) as Np.
  pose proof (rounds_bounds _ _ Hsq Hx2) as [_ Up].
  fold (value (x * x)%float) in Up.
  destruct Hacc as [Facc Pacc].
  destruct (add_cases acc (x * x)%float
              (or_introl (conj Facc Pacc)) (or_introl Np)) as [_ Hadd].
  assert (Hp : value (x * x)%float <= 17) by nra.
  specialize (Hadd (conj Facc Pacc) Np ltac:(lra)).
  destruct Np as [_ Pp].
  assert (Hsum : 0 <= value acc + value (x * x)%float) by lra.
  pose proof (rounds_nonneg _ _ Hadd Hsum) as Nacc'.
  pose proof (rounds_bounds _ _ Hadd Hsum) as [_ Ua].
  fold (value (acc + x * x)%float) in Ua.
  apply IH; [exact Nacc'|exact Hall'|].
  nra.
Qed.

Lemma element_squares :
  forall l : list float,
    Forall (fun x => value x * value x <= real_sum_squares l) l.
Proof.
  induction l as [|x l IH]; [constructor|].
  cbn [real_sum_squares fold_right]. fold (real_sum_squares l).
  pose proof (real_sum_squares_nonneg l) as PS.
  constructor; [nra|].
  apply (Forall_impl _ (P := fun y => value y * value y <= real_sum_squares l));
    [|exact IH].
  intros y Hy. cbn beta in *. nra.
Qed.

(** A quotient [a], of square at most 4, rounded to [y]: the square of
    [y] against the square of [a]. *)
Lemma quotient_square :
  forall a y u h : R,
    a * a <= 4 ->
    Rabs (y - a) <= u * Rabs a + h ->
    u * 9007199254740992 = 1 ->
    0 < h -> h * 1267650600228229401496703205376 <= 1 ->
    y * y <= 16 /\
    a * a * (1 - 2 * u) - 4 * h <= y * y
    <= a * a * ((1 + u) * (1 + u)) + 6 * h.
Proof.
  intros a y u h Ha Hy Hu Hh Hh'.
  assert (u0 : 0 < u) by lra.
  assert (u1 : u <= 1 / 9007199254740992) by lra.
  assert (h1 : h <= 1 / 1267650600228229401496703205376) by lra.
  set (e := y - a) in *.
  assert (Ey : y = a + e) by (unfold e; ring).
  apply Rabs_le_both in Hy.
  assert (Hb : 0 <= Rabs a <= 2).
  { split; [apply Rabs_pos|].
    destruct (Rle_dec 0 a) as [P|P].
    - rewrite Rabs_pos_eq by exact P. nra.
    - rewrite Rabs_left1 by lra. nra. }
  assert (Hbb : Rabs a * Rabs a = a * a).
  { destruct (Rle_dec 0 a) as [P|P].
    - rewrite Rabs_pos_eq by exact P. reflexivity.
    - rewrite Rabs_left1 by lra. ring. }
  assert (Hae : - (Rabs a * (u * Rabs a + h)) <= a * e
                <= Rabs a * (u * Rabs a + h)).
  { destruct (Rle_dec 0 a) as [P|P].
    - rewrite (Rabs_pos_eq a) in * by exact P. split; nra.
    - rewrite (Rabs_left1 a) in * by lra. split; nra. }
  set (b := Rabs a) in *.
  assert (Hee : 0 <= e * e <= (u * b + h) * (u * b + h)) by (split; nra).
  rewrite Ey.
  replace ((a + e) * (a + e)) with (a * a + 2 * (a * e) + e * e) by ring.
  rewrite <- Hbb.
  assert (bh : b * h <= 2 * h) by nra.
  assert (ubh : u * b * h <= h) by nra.
  assert (hh : h * h <= h) by nra.
  split; [nra|]. split; nra.
Qed.

(** The loop [normalized[i] = v / magnitude] over finite elements of
    square at most four times the square of the magnitude: every
    quotient is finite, and the sum of their squares is the sum of the
    squares of the elements over the square of the magnitude, up to
    two roundings of each quotient. *)
Lemma normalized_squares :
  forall (m : float) (l : list float),
    finite m -> 0 < value m ->
    Forall (fun x => finite x /\
                     value x * value x <= 4 * (value m * value m)) l ->
    Forall (fun y => finite y /\ value y * value y <= 16)
      (map (fun v => fdiv v m) l) /\
    real_sum_squares l / (value m * value m) * (1 - 2 * unit_roundoff)
    - 4 * INR (length l) * half_least
    <= real_sum_squares (map (fun v => fdiv v m) l)
    <= real_sum_squares l / (value m * value m)
       * ((1 + unit_roundoff) * (1 + unit_roundoff))
       + 6 * INR (length l) * half_least.
Proof.
  intros m l Fm Pm.
  pose proof unit_roundoff_eq as Eu.
  pose proof half_least_pos as Ph. pose proof half_least_tiny as Eh.
  pose proof exp2_1023_large as E1023.
  assert (PMM : 0 < value m * value m) by nra.
  induction l as [|x l IH]; intro Hall.
  - cbn [map length real_sum_squares fold_right INR].
    split; [constructor|]. unfold Rdiv. lra.
  - inversion Hall as [|? ? [Fx Hx] Hall']; subst.
    destruct (IH Hall') as (Hfin & Lo & Hi).
    cbn [map]. change (length (x :: l)) with (S (length l)).
    rewrite S_INR.
    cbn [real_sum_squares fold_right].
    fold (real_sum_squares l).
    fold (real_sum_squares (map (fun v => fdiv v m) l)).
    change (fdiv x m) with (x / m)%float.
    set (a := value x / value m).
    assert (Haa : a * a = value x * value x / (value m * value m)).
    { unfold a. field. lra. }
    assert (Haa' : a * a * (value m * value m) = value x * value x).
    { unfold a. field. lra. }
    assert (Ha4 : a * a <= 4) by nra.
    assert (Hsmall : Rabs a < exp2 1023).
    { destruct (Rle_dec 0 a) as [P|P].
      - rewrite Rabs_pos_eq by exact P. nra.
      - rewrite Rabs_left1 by lra. nra. }
    pose proof (div_model x m Fx Fm Pm Hsmall) as (Fy & Hy & _).
    fold (value (x / m)%float) in Hy. fold a in Hy.
    destruct (quotient_square a (value (x / m)%float)
                unit_roundoff half_least Ha4 Hy Eu Ph Eh)
      as (H16 & Ly & Uy).
    split; [constructor; [split; [exact Fy|exact H16]|exact Hfin]|].
    replace ((value x * value x + real_sum_squares l)
             / (value m * value m))
      with (a * a + real_sum_squares l / (value m * value m))
      by (rewrite Haa; field; lra).
    split; lra.
Qed.

End Normalization.

Section UnitNorm.
Local Open Scope R_scope.

Lemma value_zero : value 0%float = 0.
Proof. unfold value. cbn. reflexivity. Qed.

Lemma value_one : finite 1%float /\ value 1%float = 1.
Proof.
  unfold finite, value.
  replace (Prim2SF 1%float) with (S754_finite false 4503599627370496 (-52))
    by (vm_compute; reflexivity).
  split; [exact I|]. cbn [SF2R].
  change (IZR (Zpos 4503599627370496)) with (IZR (2 ^ 52)).
  rewrite <- exp2_IZR, <- exp2_add by lia. reflexivity.
Qed.

Lemma value_bound : value 0x1p-500%float = exp2 (-500).
Proof.
  unfold value.
  replace (Prim2SF 0x1p-500%float)
    with (S754_finite false 4503599627370496 (-552))
    by (vm_compute; reflexivity).
  cbn [SF2R].
  change (IZR (Zpos 4503599627370496)) with (IZR (2 ^ 52)).
  rewrite <- exp2_IZR, <- exp2_add by lia. reflexivity.
Qed.

Lemma value_tolerance : value tolerance * 1048576 = 1.
Proof.
  unfold value.
  replace (Prim2SF tolerance)
    with (S754_finite false 4503599627370496 (-72))
    by (vm_compute; reflexivity).
  cbn [SF2R].
  change (IZR (Zpos 4503599627370496)) with (IZR (2 ^ 52)).
  change 1048576 with (IZR (2 ^ 20)).
  rewrite <- !exp2_IZR, <- !exp2_add by lia. reflexivity.
Qed.

Lemma half_least_bound :
  half_least * 37778931862957161709568 <= exp2 (-500) * exp2 (-500).
Proof.
  change 37778931862957161709568 with (IZR (2 ^ 75)).
  rewrite <- exp2_IZR by lia. unfold half_least.
  rewrite <- !exp2_add. apply exp2_le. lia.
Qed.

(** C2, amended: on float64, for every vector of at most 2^30 elements
    whose magnitude, as the first loop and [math.Sqrt] compute it, is
    finite and at least 2^-500, the normalized vector has a norm,
    computed in the same way, within 2^-20 of 1. *)
Theorem normalized_unit_norm_in_range :
  forall v : list float,
    (Z.of_nat (length v) <= 2 ^ 30)%Z ->
    PrimFloat.leb 0x1p-500 (magnitude v) = true ->
    PrimFloat.ltb (magnitude v) infinity = true ->
    close_to_one (norm (normalized v)) = true.
Proof.
  intros v Hlen Hlo Hinf.
  pose proof unit_roundoff_pos as Pu. pose proof unit_roundoff_eq as Eu.
  pose proof half_least_pos as Ph. pose proof half_least_tiny as Eh.
  assert (HN : 0 <= INR (length v) <= 1073741824).
  { split; [apply pos_INR|]. rewrite INR_IZR_INZ.
    apply IZR_le in Hlen. exact Hlen. }
  assert (Hsmall : INR (length v) * unit_roundoff <= 1 / 16) by nra.
  (* the magnitude is finite and at least 2^-500 *)
  destruct (leb_ltb_finite 0x1p-500 (magnitude v) 4503599627370496 (-552)
              ltac:(vm_compute; reflexivity) Hlo Hinf) as [Fm Lm].
  rewrite value_bound in Lm.
  unfold magnitude in Fm, Lm. cbn [fsqrt float64] in Fm, Lm.
  (* the first loop *)
  unfold sum_squares in Fm, Lm. cbn [fzero float64] in Fm, Lm.
  destruct (fold_model v 0%float nonneg_finite_zero Hsmall)
    as [Bs|(Ns & Fv & Los & His)].
  { destruct (nan_or_inf_not_finite _
                (proj1 (sqrt_cases _) Bs) Fm). }
  rewrite value_zero, Rplus_0_l in Los, His.
  set (s := fold_left (fun magnitude v => fadd magnitude (fmul v v)) v
              0%float) in *.
  set (m := PrimFloat.sqrt s) in *.
  pose proof (real_sum_squares_nonneg v) as PS.
  destruct Ns as [Fs Ps].
  pose proof (proj2 (sqrt_cases s) (conj Fs Ps)) as Rm.
  pose proof (rounds_bounds _ _ Rm (sqrt_pos _)) as Bm.
  fold m in Bm. fold (value m) in Bm.
  assert (HL : 0 < exp2 (-500) <= 1).
  { split; [apply exp2_pos|apply exp2_neg_le_1; lia]. }
  pose proof (magnitude_analysis (real_sum_squares v) (value s)
                (sqrt (value s)) (value m) (INR (length v))
                unit_roundoff half_least (exp2 (-500))
                PS (sqrt_pos _) (sqrt_sqrt _ Ps) HN Eu Ph HL
                half_least_bound (conj Los His) Bm Lm) as HMM.
  assert (Pm : 0 < value m) by lra.
  assert (PMM : 0 < value m * value m) by nra.
  (* the second loop *)
  assert (Hall : Forall (fun x => finite x /\
                   value x * value x <= 4 * (value m * value m)) v).
  { pose proof (Forall_and Fv (element_squares v)) as H.
    apply (Forall_impl _ (P := fun x => finite x /\
             value x * value x <= real_sum_squares v)); [|exact H].
    intros x [Fx Hx]. split; [exact Fx|]. nra. }
  destruct (normalized_squares m v Fm Pm Hall) as (H16 & LoT & HiT).
  (* the norm of the result *)
  change (norm (normalized v))
    with (PrimFloat.sqrt
            (fold_left (fun magnitude v => fadd magnitude (fmul v v))
               (map (fun x => fdiv x m) v) 0%float)).
  set (w := map (fun x => fdiv x m) v) in *.
  assert (Hw : length w = length v) by apply length_map.
  assert (Nt : nonneg_finite
                 (fold_left (fun magnitude v => fadd magnitude (fmul v v))
                    w 0%float)).
  { apply fold_in_range; [exact nonneg_finite_zero|exact H16|].
    rewrite value_zero, Hw, exp2_50. lra. }
  destruct (fold_model w 0%float nonneg_finite_zero
              ltac:(rewrite Hw; exact Hsmall))
    as [Bt|(_ & _ & Lot & Hit)].
  { destruct Nt as [Ft _]. destruct (nan_or_inf_not_finite _ Bt Ft). }
  rewrite value_zero, Rplus_0_l, Hw in Lot, Hit.
  set (t := fold_left (fun magnitude v => fadd magnitude (fmul v v)) w
              0%float) in *.
  destruct Nt as [Ft Pt].
  pose proof (proj2 (sqrt_cases t) (conj Ft Pt)) as Rn.
  pose proof (rounds_bounds _ _ Rn (sqrt_pos _)) as Bn.
  set (n := PrimFloat.sqrt t) in *. fold (value n) in Bn.
  pose proof (norm_analysis
                (real_sum_squares v / (value m * value m))
                (value m * value m) (real_sum_squares v)
                (real_sum_squares w) (value t) (sqrt (value t)) (value n)
                (INR (length v)) unit_roundoff half_least
                PMM ltac:(field; lra) HMM HN Eu Ph Eh
                (conj LoT HiT) (conj Lot Hit)
                (sqrt_pos _) (sqrt_sqrt _ Pt) Bn) as Hn.
  (* the comparison with 1 *)
  destruct Rn as (Fn & _).
  destruct value_one as [F1 V1].
  pose proof exp2_1023_large as E1023.
  assert (Hd : Rabs (value n - value 1%float) < exp2 1023).
  { rewrite V1. apply Rabs_def1; lra. }
  pose proof (sub_model n 1%float Fn F1 Hd) as (Fd & Hsub & _).
  rewrite V1 in Hsub. fold (value (n - 1)%float) in Hsub.
  unfold close_to_one.
  apply (abs_leb (n - 1)%float tolerance 4503599627370496 (-72)
           ltac:(vm_compute; reflexivity) Fd).
  pose proof value_tolerance as Et.
  assert (Hr : Rabs (value n - 1) <= 63 / 167772160)
    by (apply Rabs_le; lra).
  apply Rabs_le_both in Hsub.
  apply Rabs_le. nra.
Qed.

End UnitNorm.

(** The vector (0.1, 0.2, 0.3), as float64. *)
Lemma normalized_unit_norm_in_range_witness :
  close_to_one
    (norm (normalized [0x1.999999999999ap-4; 0x1.999999999999ap-3;
                       0x1.3333333333333p-2]%float)) = true.
Proof.
  apply (normalized_unit_norm_in_range
           [0x1.999999999999ap-4; 0x1.999999999999ap-3;
            0x1.3333333333333p-2]%float).
  - vm_compute. discriminate.
  - vm_compute. reflexivity.
  - vm_compute. reflexivity.
Defined.

(** Below the range squares underflow: on the single element
    1.2 * 2^-537 the square is rounded to 2^-1074, the magnitude is
    2^-537 (not zero), and the result has norm 1.2. *)
Lemma unit_norm_fails_on_underflow :
  PrimFloat.eqb (magnitude [0x1.3333333333333p-537%float]) 0 = false /\
  magnitude [0x1.3333333333333p-537%float] = 0x1p-537%float /\
  normalized [0x1.3333333333333p-537%float] = [0x1.3333333333333p+0%float] /\
  close_to_one (norm (normalized [0x1.3333333333333p-537%float])) = false.
Proof. repeat split; vm_compute; reflexivity. Qed.


(* ================================================================= *)
(** ** Runs: general facts *)

Lemma result_bind :
  forall (A B : Type) (m : Run A) (k : A -> Run B),
    result_of (bind m k)
    = match result_of m with
      | Returned a => result_of (k a)
      | Exited code => Exited code
      | Panicked msg => Panicked msg
      end.
Proof.
  intros A B [[a|code|msg] t] k; cbn; try reflexivity.
  destruct (k a); reflexivity.
Qed.

Lemma trace_bind :
  forall (A B : Type) (m : Run A) (k : A -> Run B),
    trace_of (bind m k)
    = match result_of m with
      | Returned a => (trace_of m ++ trace_of (k a))%list
      | _ => trace_of m
      end.
Proof.
  intros A B [[a|code|msg] t] k; cbn; try reflexivity.
  destruct (k a); reflexivity.
Qed.

Lemma commands_app :
  forall t u : list event, commands (t ++ u) = (commands t ++ commands u)%list.
Proof.
  induction t as [|e t IH]; intro u; [reflexivity|].
  destruct e; cbn [app commands]; rewrite IH; reflexivity.
Qed.

Lemma posts_to_app :
  forall (url : string) (t u : list event),
    posts_to url (t ++ u) = (posts_to url t ++ posts_to url u)%list.
Proof.
  intros url. induction t as [|e t IH]; intro u; [reflexivity|].
  destruct e; cbn [app posts_to]; rewrite IH; try reflexivity.
  destruct (url0 =? url); reflexivity.
Qed.

Lemma printed_app :
  forall t u : list event, printed (t ++ u) = (printed t ++ printed u)%list.
Proof.
  induction t as [|e t IH]; intro u; [reflexivity|].
  destruct e; cbn [app printed]; rewrite IH; reflexivity.
Qed.

Lemma quiet_ret : forall (A : Type) (a : A), quiet (ret a).
Proof. reflexivity. Qed.

Lemma quiet_bind :
  forall (A B : Type) (m : Run A) (k : A -> Run B),
    quiet m -> (forall a, quiet (k a)) -> quiet (bind m k).
Proof.
  unfold quiet. intros A B m k Hm Hk. rewrite trace_bind.
  destruct (result_of m); [|exact Hm|exact Hm].
  rewrite commands_app, Hm, Hk. reflexivity.
Qed.

Lemma quiet_Printf : forall text : string, quiet (Printf text).
Proof. reflexivity. Qed.

Lemma quiet_Println : forall s : string, quiet (Println s).
Proof. reflexivity. Qed.

Lemma quiet_post :
  forall W url headers payload, quiet (post W url headers payload).
Proof. reflexivity. Qed.

Lemma quiet_panic : forall (A : Type) (msg : string), quiet (@panic A msg).
Proof. reflexivity. Qed.

Create HintDb quiet.
#[local] Hint Resolve quiet_ret quiet_Printf quiet_Println quiet_post
  quiet_panic : quiet.

Ltac quiet_steps :=
  repeat first
    [ solve [auto with quiet]
    | progress cbv zeta
    | apply quiet_bind; [|intro]
    | match goal with
      | |- quiet (match ?x with _ => _ end) => destruct x
      | |- quiet (if ?b then _ else _) => destruct b
      end ].

Lemma quiet_MainGo_firstText :
  forall scanned, quiet (MainGo.firstText scanned).
Proof. intros. unfold MainGo.firstText. quiet_steps. Qed.

Lemma quiet_Part000b_firstText :
  forall scanned, quiet (Part000b.firstText scanned).
Proof. intros. unfold Part000b.firstText. quiet_steps. Qed.

#[local] Hint Resolve quiet_MainGo_firstText quiet_Part000b_firstText : quiet.

Lemma quiet_MainGo_getAnthropicSummary :
  forall W content, quiet (MainGo.getAnthropicSummary W content).
Proof. intros. unfold MainGo.getAnthropicSummary. quiet_steps. Qed.

Lemma quiet_compressLogs :
  forall W content, quiet (Part000b.compressLogs W content).
Proof. intros. unfold Part000b.compressLogs. quiet_steps. Qed.

Lemma quiet_getEmbeddings :
  forall W text, quiet (Part000b.getEmbeddings W text).
Proof. intros. unfold Part000b.getEmbeddings. quiet_steps. Qed.

#[local] Hint Resolve quiet_compressLogs quiet_getEmbeddings : quiet.

Lemma quiet_Part000b_getAnthropicSummary :
  forall W content, quiet (Part000b.getAnthropicSummary W content).
Proof. intros. unfold Part000b.getAnthropicSummary. quiet_steps. Qed.

Lemma quiet_summarizer :
  forall r W content, quiet (summarizer r W content).
Proof.
  intros [| |] W content; cbn [summarizer].
  - apply quiet_MainGo_getAnthropicSummary.
  - apply quiet_MainGo_getAnthropicSummary.
  - apply quiet_Part000b_getAnthropicSummary.
Qed.

(* ================================================================= *)
(** ** The command runner *)

Lemma getCommandOutput_failed :
  forall W name args err,
    cmd_Output W name args = Failed err ->
    getCommandOutput W name args
    = (Exited 1, [Exec name args; Stdout (error_line err)]).
Proof.
  intros W name args err E. unfold getCommandOutput. rewrite E. reflexivity.
Qed.

Lemma getCommandOutput_succeeded :
  forall W name args output,
    cmd_Output W name args = Succeeded output ->
    getCommandOutput W name args
    = (Returned (TrimSpace output), [Exec name args]).
Proof.
  intros W name args output E. unfold getCommandOutput. rewrite E. reflexivity.
Qed.

#[local] Hint Resolve quiet_MainGo_getAnthropicSummary
  quiet_Part000b_getAnthropicSummary : quiet.

(* ================================================================= *)
(** ** Running the three programs *)

(** One step of a program: the next [getCommandOutput] either fails,
    which ends the run, or hands its trimmed output on. *)
Ltac run_command :=
  match goal with
  | |- context [getCommandOutput ?W ?n ?a] =>
      let E := fresh "E" in
      destruct (cmd_Output W n a) as [?output|?err] eqn:E;
      [ rewrite (getCommandOutput_succeeded W n a _ E)
      | rewrite (getCommandOutput_failed W n a _ E) ];
      cbn [bind app]
  end.

(** What follows the last command starts no subprocess. *)
Ltac close_tail :=
  match goal with
  | |- context [bind ?m ?k] =>
      let Q := fresh "Q" in
      assert (Q : quiet (bind m k)) by quiet_steps;
      destruct (bind m k) as [?o ?t];
      unfold quiet in Q; cbn [trace_of snd] in Q
  end.

Ltac same_command :=
  match goal with
  | H : (_, _) = (_, _) |- _ =>
      apply pair_equal_spec in H; destruct H as [<- <-]
  end.

Lemma trace_of_pair :
  forall (A : Type) (o : outcome A) (t : list event), trace_of (o, t) = t.
Proof. reflexivity. Qed.

Lemma result_of_pair :
  forall (A : Type) (o : outcome A) (t : list event), result_of (o, t) = o.
Proof. reflexivity. Qed.

Lemma commands_Exec :
  forall name args t, commands (Exec name args :: t) = (name, args) :: commands t.
Proof. reflexivity. Qed.

Lemma commands_Stdout :
  forall text t, commands (Stdout text :: t) = commands t.
Proof. reflexivity. Qed.

Lemma commands_Post :
  forall url headers payload t,
    commands (Post url headers payload :: t) = commands t.
Proof. reflexivity. Qed.

Lemma commands_nil : commands [] = [].
Proof. reflexivity. Qed.

Lemma printed_Exec :
  forall name args t, printed (Exec name args :: t) = printed t.
Proof. reflexivity. Qed.

Lemma printed_Stdout :
  forall text t, printed (Stdout text :: t) = text :: printed t.
Proof. reflexivity. Qed.

Lemma printed_Post :
  forall url headers payload t,
    printed (Post url headers payload :: t) = printed t.
Proof. reflexivity. Qed.

Lemma printed_nil : printed [] = [].
Proof. reflexivity. Qed.

Create Rewrite HintDb trace.
#[local] Hint Rewrite trace_of_pair result_of_pair commands_Exec
  commands_Stdout commands_Post commands_nil printed_Exec printed_Stdout
  printed_Post printed_nil : trace.

Ltac split_cases :=
  repeat match goal with
  | H : _ \/ _ |- _ => destruct H
  | H : False |- _ => destruct H
  | H : In _ (_ :: _) |- _ => destruct H
  | H : In _ [] |- _ => destruct H
  end.

(** C3: when a subprocess started by [getCommandOutput] fails, the call
    does not return: the process exits with status 1.  In each of the
    three programs the run then consists of the commands that
    succeeded before, the failed command, started once, and the error
    line; that line is all that was printed, so no report. *)
Theorem command_failure_is_fatal :
  forall (r : revision) (W : World) (name : string) (args : list string)
         (err : string),
    In (name, args) (commands (trace_of (program r W))) ->
    cmd_Output W name args = Failed err ->
    result_of (getCommandOutput W name args) = Exited 1 /\
    result_of (program r W) = Exited 1 /\
    printed (trace_of (program r W)) = [error_line err] /\
    exists earlier : list (string * list string),
      trace_of (program r W)
      = (map exec_of earlier ++ [Exec name args; Stdout (error_line err)])%list
      /\ forall c, In c earlier ->
           exists output, cmd_Output W (fst c) (snd c) = Succeeded output.
Proof.
  intros r W name args err Hin Hfail.
  split.
  { rewrite (getCommandOutput_failed _ _ _ _ Hfail). reflexivity. }
  revert Hin.
  destruct r; cbn [program];
    unfold MainGo.main, Part000a.main, Part000b.main;
    repeat run_command; try close_tail;
    autorewrite with trace; try rewrite Q;
    intro Hin; split_cases;
    same_command; try congruence;
    match goal with
    | E : cmd_Output _ _ _ = Failed ?e |- _ =>
        assert (e = err) by congruence; subst e
    end;
    (split; [reflexivity|]); (split; [reflexivity|]);
    match goal with
    | |- exists earlier, (?t = _) /\ _ =>
        exists (removelast (commands t))
    end;
    (split; [reflexivity|]);
    autorewrite with trace; cbn [removelast];
    intros c Hc; split_cases;
    subst c; cbn [fst snd]; eauto.
Qed.

Lemma command_failure_is_fatal_witness :
  result_of (program part_000_b log_fails) = Exited 1 /\
  printed (trace_of (program part_000_b log_fails))
  = [error_line "exit status 128"].
Proof.
  assert (Hin : In ("git", ["log"; "main..feature"; "--pretty=format:%h - %s"])
                  (commands (trace_of (program part_000_b log_fails)))).
  { vm_compute. right. right. left. reflexivity. }
  assert (Hfail : cmd_Output log_fails "git"
                    ["log"; "main..feature"; "--pretty=format:%h - %s"]
                  = Failed "exit status 128").
  { reflexivity. }
  destruct (command_failure_is_fatal part_000_b log_fails "git"
              ["log"; "main..feature"; "--pretty=format:%h - %s"]
              "exit status 128" Hin Hfail) as [_ [Hexit [Hprinted _]]].
  split; [exact Hexit | exact Hprinted].
Defined.

(* ================================================================= *)
(** ** The report *)

Lemma append_assoc :
  forall a b c : string, (a ++ b) ++ c = a ++ b ++ c.
Proof.
  induction a as [|x a IH]; intros b c; cbn [append]; [reflexivity|].
  rewrite IH. reflexivity.
Qed.

Lemma occur_skip :
  forall (hs : list string) (x s : string),
    occur_in_order hs s -> occur_in_order hs (x ++ s).
Proof.
  intros [|h hs] x s; cbn [occur_in_order]; [trivial|].
  intros (before & after & -> & Hrest).
  exists (x ++ before), after. split; [|exact Hrest].
  symmetry. apply append_assoc.
Qed.

Lemma occur_take :
  forall (h : string) (hs : list string) (s : string),
    occur_in_order hs s -> occur_in_order (h :: hs) (h ++ s).
Proof.
  intros h hs s Hrest. cbn [occur_in_order].
  exists "", s. split; [reflexivity|exact Hrest].
Qed.

Lemma report_headers :
  forall header currentBranch commits changesOverview summary : string,
    occur_in_order
      ["## Branch:"; "## Commits:"; "## Changes Overview:"; header]
      (report header currentBranch commits changesOverview summary).
Proof.
  intros. unfold report.
  do 3 apply occur_skip.
  apply (occur_take "## Branch:" _ (" " ++ _)).
  do 4 apply occur_skip.
  apply occur_take.
  do 4 apply occur_skip.
  apply occur_take.
  do 4 apply occur_skip.
  apply occur_take.
  exact I.
Qed.

Lemma returns_after_Println :
  forall (A : Type) (m : Run A) (f : A -> string) (o : outcome unit)
         (t : list event),
    bind m (fun a => Println (f a)) = (o, t) ->
    o = Returned tt ->
    exists a, t = (trace_of m ++ [Stdout (f a ++ nl)])%list.
Proof.
  intros A [[a|code|msg] u] f o t E Ho; cbn [bind Println emit] in E;
    injection E as <- <-; try discriminate Ho.
  exists a. reflexivity.
Qed.

(** A program that returns has printed its report last. *)
Lemma program_prints_report :
  forall (r : revision) (W : World),
    result_of (program r W) = Returned tt ->
    exists before currentBranch commits changesOverview summary,
      trace_of (program r W)
      = (before
         ++ [Stdout (prSummary_of r currentBranch commits changesOverview
                       summary ++ nl)])%list.
Proof.
  intros r W.
  destruct r; cbn [program prSummary_of];
    unfold MainGo.main, Part000a.main, Part000b.main;
    repeat run_command;
    try (autorewrite with trace; discriminate);
    match goal with
    | |- context [bind ?m (fun a => Println (@?f a))] =>
        destruct (bind m (fun a => Println (f a))) as [o t] eqn:Etail;
        autorewrite with trace; intro Ho;
        destruct (returns_after_Println _ m f o t Etail Ho) as [a ->]
    end.
  - eexists (_ :: _ :: _ :: _ :: _)%list, _, _, _, _.
    cbn [app]. reflexivity.
  - eexists (_ :: _ :: _ :: _ :: _ :: _)%list, _, _, _, _.
    cbn [app]. reflexivity.
  - eexists (_ :: _ :: _ :: _ :: _ :: _)%list, _, _, _, _.
    cbn [app]. reflexivity.
Qed.

(** C6: whatever the branch name, the commit list, the change
    statistics and the summary are, the report contains [## Branch:],
    [## Commits:], [## Changes Overview:] and the header of the summary
    section one after the other, in this order; and a program that
    returns has printed such a report, as the last thing it wrote to
    standard output. *)
Theorem report_sections_in_order :
  forall (r : revision),
    (forall currentBranch commits changesOverview summary : string,
       occur_in_order
         ["## Branch:"; "## Commits:"; "## Changes Overview:"; summary_header r]
         (prSummary_of r currentBranch commits changesOverview summary)) /\
    (forall W : World,
       result_of (program r W) = Returned tt ->
       exists before text,
         trace_of (program r W) = (before ++ [Stdout (text ++ nl)])%list /\
         occur_in_order
           ["## Branch:"; "## Commits:"; "## Changes Overview:";
            summary_header r]
           text).
Proof.
  intro r.
  assert (Hreport :
    forall currentBranch commits changesOverview summary : string,
      occur_in_order
        ["## Branch:"; "## Commits:"; "## Changes Overview:"; summary_header r]
        (prSummary_of r currentBranch commits changesOverview summary)).
  { destruct r; intros; apply report_headers. }
  split; [exact Hreport|].
  intros W Hreturned.
  destruct (program_prints_report r W Hreturned)
    as (before & cb & cm & co & s & Htrace).
  exists before, (prSummary_of r cb cm co s).
  split; [exact Htrace|apply Hreport].
Qed.

Lemma report_sections_in_order_witness :
  exists before text,
    trace_of (program part_000_b typo_fixed)
    = (before ++ [Stdout (text ++ nl)])%list /\
    occur_in_order
      ["## Branch:"; "## Commits:"; "## Changes Overview:"; "# Summary:"]
      text.
Proof.
  apply (proj2 (report_sections_in_order part_000_b) typo_fixed).
  vm_compute. reflexivity.
Defined.

(* ================================================================= *)
(** ** The remote summarizer *)

Lemma offline_ret : forall (A : Type) url (a : A), offline url (ret a).
Proof. reflexivity. Qed.

Lemma offline_bind :
  forall (A B : Type) url (m : Run A) (k : A -> Run B),
    offline url m -> (forall a, offline url (k a)) -> offline url (bind m k).
Proof.
  unfold offline. intros A B url m k Hm Hk. rewrite trace_bind.
  destruct (result_of m); [|exact Hm|exact Hm].
  rewrite posts_to_app, Hm, Hk. reflexivity.
Qed.

Lemma offline_Printf : forall url text, offline url (Printf text).
Proof. reflexivity. Qed.

Lemma offline_Println : forall url s, offline url (Println s).
Proof. reflexivity. Qed.

Lemma offline_panic : forall (A : Type) url msg, offline url (@panic A msg).
Proof. reflexivity. Qed.

Create HintDb offline.
#[local] Hint Resolve offline_ret offline_Printf offline_Println
  offline_panic : offline.

Ltac offline_steps :=
  repeat first
    [ solve [auto with offline]
    | progress cbv zeta
    | apply offline_bind; [|intro]
    | match goal with
      | |- offline _ (match ?x with _ => _ end) => destruct x
      | |- offline _ (if ?b then _ else _) => destruct b
      end ].

Lemma offline_MainGo_firstText :
  forall url scanned, offline url (MainGo.firstText scanned).
Proof. intros. unfold MainGo.firstText. offline_steps. Qed.

Lemma offline_Part000b_firstText :
  forall url scanned, offline url (Part000b.firstText scanned).
Proof. intros. unfold Part000b.firstText. offline_steps. Qed.

#[local] Hint Resolve offline_MainGo_firstText offline_Part000b_firstText
  : offline.

Lemma result_post :
  forall W url headers payload,
    result_of (post W url headers payload) = Returned (http_Do W url payload).
Proof. reflexivity. Qed.

Lemma trace_post :
  forall W url headers payload,
    trace_of (post W url headers payload) = [Post url headers payload].
Proof. reflexivity. Qed.

Lemma posts_to_same :
  forall url headers payload t,
    posts_to url (Post url headers payload :: t) = payload :: posts_to url t.
Proof. intros. cbn [posts_to]. rewrite String.eqb_refl. reflexivity. Qed.

(** The summarizer of src/main.go (and of the first program of
    part_000) posts one request and returns what [firstText] makes of
    the answer. *)
Lemma MainGo_summary_run :
  forall W content,
    posts_to anthropicAPIURL (trace_of (MainGo.getAnthropicSummary W content))
    = [MainGo.requestBody content] /\
    result_of (MainGo.getAnthropicSummary W content)
    = match http_Do W anthropicAPIURL (MainGo.requestBody content) with
      | Unreachable _ => Returned fallback
      | Answered _ scanned => result_of (MainGo.firstText scanned)
      end.
Proof.
  intros W content. unfold MainGo.getAnthropicSummary.
  rewrite trace_bind, result_bind, result_post, trace_post.
  cbn [app]. rewrite posts_to_same.
  destruct (http_Do W anthropicAPIURL (MainGo.requestBody content))
    as [err|body scanned].
  - split; reflexivity.
  - split; [|reflexivity].
    f_equal. apply offline_MainGo_firstText.
Qed.

Lemma compressLogs_run :
  forall W content,
    exists x,
      Part000b.compressLogs W content
      = (Returned x,
         [Post Part000b.ollamaCompletionURL Part000b.jsonHeaders
            (Part000b.completionRequest content)]).
Proof.
  intros W content. unfold Part000b.compressLogs, post, emit.
  cbn [bind ret app].
  destruct (http_Do W _ _) as [err|body [err|j]]; cbn [ret];
    try (eexists; reflexivity).
  destruct (Part000b.decodeCompletionResponse j) as [result [err|]];
    eexists; reflexivity.
Qed.

Lemma getEmbeddings_run :
  forall W text,
    exists x,
      Part000b.getEmbeddings W text
      = (Returned x,
         [Post Part000b.ollamaAPIURL Part000b.jsonHeaders
            (Part000b.embeddingRequest text)]).
Proof.
  intros W text. unfold Part000b.getEmbeddings, post, emit.
  cbn [bind ret app].
  destruct (http_Do W _ _) as [err|body [err|j]]; cbn [ret];
    try (eexists; reflexivity).
  destruct (Part000b.decodeEmbeddingResponse W j) as [result [err|]];
    eexists; reflexivity.
Qed.


Lemma Part000b_firstText_returns :
  forall scanned,
    exists summary, result_of (Part000b.firstText scanned) = Returned summary.
Proof.
  intros [err|j]; unfold Part000b.firstText.
  - eexists. reflexivity.
  - destruct (Part000b.decodeResult j) as [result [err|]].
    + eexists. reflexivity.
    + destruct (Part000b.Content result); eexists; reflexivity.
Qed.

(** The run of the summarizer of the second program of part_000, step
    by step. *)
Lemma Part000b_summary_run :
  forall W content,
    exists compressed embedded o rest,
      result_of (Part000b.compressLogs W content) = Returned compressed /\
      result_of (Part000b.getEmbeddings W
                   (compressed_or_original compressed content))
      = Returned embedded /\
      Part000b.getAnthropicSummary W content
      = (o,
         Post Part000b.ollamaCompletionURL Part000b.jsonHeaders
           (Part000b.completionRequest content)
         :: (compression_log compressed
             ++ Post Part000b.ollamaAPIURL Part000b.jsonHeaders
                  (Part000b.embeddingRequest
                     (compressed_or_original compressed content))
                :: rest)%list) /\
      match embedded with
      | Err err =>
          o = Returned fallback /\
          rest = [Stdout ("Error getting embeddings: " ++ err ++ nl)]
      | Ok embeddings =>
          exists rest',
            rest
            = Post anthropicAPIURL (Part000b.headers W)
                (Part000b.requestBody
                   (Part000b.prompt
                      (Part000b.processEmbeddings W embeddings)
                      (compressed_or_original compressed content) content))
              :: rest' /\
            (forall url, posts_to url rest' = []) /\
            (exists summary, o = Returned summary) /\
            o = match
                  http_Do W anthropicAPIURL
                    (Part000b.requestBody
                       (Part000b.prompt
                          (Part000b.processEmbeddings W embeddings)
                          (compressed_or_original compressed content) content))
                with
                | Unreachable _ => Returned fallback
                | Answered _ scanned => result_of (Part000b.firstText scanned)
                end
      end.
Proof.
  intros W content. unfold Part000b.getAnthropicSummary.
  destruct (compressLogs_run W content) as [compressed Hc].
  rewrite Hc. exists compressed.
  assert (Hlog :
    match compressed with
    | Err err =>
        Printf ("Error compressing logs: " ++ err ++ nl) ;; ret content
    | Ok c => ret c
    end
    = (Returned (compressed_or_original compressed content),
       compression_log compressed)).
  { destruct compressed; reflexivity. }
  cbn [bind]. rewrite Hlog. cbn [bind].
  destruct (getEmbeddings_run W (compressed_or_original compressed content))
    as [embedded He].
  rewrite He. exists embedded. cbn [bind].
  destruct embedded as [embeddings|err].
  - cbv zeta.
    set (payload := Part000b.requestBody _).
    unfold post, emit. cbn [bind ret app].
    destruct (http_Do W anthropicAPIURL payload) as [err|body scanned].
    + do 2 eexists. split; [reflexivity|]. split; [reflexivity|].
      cbn [bind Printf emit ret app].
      split; [reflexivity|].
      eexists. split; [reflexivity|]. split; [reflexivity|].
      split; [eexists|]; reflexivity.
    + destruct (Part000b_firstText_returns scanned) as [summary Hs].
      destruct (Part000b.firstText scanned) as [o' t'] eqn:Ef.
      cbn [result_of fst] in Hs. subst o'.
      assert (Ht' : forall url, posts_to url t' = []).
      { intro url.
        pose proof (offline_Part000b_firstText url scanned) as Hoff.
        unfold offline in Hoff. rewrite Ef in Hoff. exact Hoff. }
      do 2 eexists. split; [reflexivity|]. split; [reflexivity|].
      cbn [bind Printf emit ret app].
      split; [reflexivity|].
      eexists. split; [reflexivity|]. split; [|split; [eexists|]; reflexivity].
      intro url. cbn [posts_to]. apply Ht'.
  - do 2 eexists. split; [reflexivity|]. split; [reflexivity|].
    cbn [bind Printf emit ret app].
    split; [reflexivity|]. split; reflexivity.
Qed.

Lemma posts_to_Exec :
  forall url name args t, posts_to url (Exec name args :: t) = posts_to url t.
Proof. reflexivity. Qed.

Lemma posts_to_Stdout :
  forall url text t, posts_to url (Stdout text :: t) = posts_to url t.
Proof. reflexivity. Qed.

Lemma posts_to_nil : forall url, posts_to url [] = [].
Proof. reflexivity. Qed.

#[local] Hint Rewrite posts_to_Exec posts_to_Stdout posts_to_nil : trace.

Lemma bind_bind_ret :
  forall (A B C : Type) (m : Run A) (f : A -> B) (k : B -> Run C),
    bind (bind m (fun a => ret (f a))) k = bind m (fun a => k (f a)).
Proof.
  intros A B C [[a|code|msg] t] f k; cbn [bind ret]; try reflexivity.
  rewrite app_nil_r. destruct (k (f a)); reflexivity.
Qed.

Ltac reach_summarizer n :=
  match goal with
  | |- context [bind ?m ?k] =>
      destruct (bind m k) as [?o ?t]
  end;
  match goal with
  | |- context [trace_of (_, ?T)] =>
      exists (commands (firstn n T))
  end;
  cbn [firstn commands map exec_of fst snd];
  split;
  [ intros c Hc; split_cases; subst c; cbn [fst snd]; eauto
  | split; reflexivity ].

(** A run of a program in which something was posted went through all
    its commands and into the summarizer; what remained to do was to
    print the report around the summary. *)
Lemma program_reaches_summarizer :
  forall r W url p,
    In p (posts_to url (trace_of (program r W))) ->
    exists content currentBranch commits changesOverview started,
      (forall c, In c started ->
         exists output, cmd_Output W (fst c) (snd c) = Succeeded output) /\
      result_of (program r W)
      = result_of
          (summary <- summarizer r W content ;;
           Println (prSummary_of r currentBranch commits changesOverview
                      summary)) /\
      trace_of (program r W)
      = (map exec_of started
         ++ trace_of
              (summary <- summarizer r W content ;;
               Println (prSummary_of r currentBranch commits changesOverview
                          summary)))%list.
Proof.
  intros r W url p.
  destruct r; cbn [program summarizer prSummary_of];
    unfold MainGo.main, Part000a.main, Part000b.main;
    repeat run_command;
    try (autorewrite with trace; intros []).
  - intros _.
    match goal with
    | |- context [bind (MainGo.getAnthropicSummary W ?c)
                    (fun s => Println (MainGo.prSummary ?cb ?cm ?co s))] =>
        exists c, cb, cm, co
    end.
    reach_summarizer 4.
  - destruct (2 <? len (TrimSpace output1))%nat.
    + unfold Println, emit. cbn [bind ret app].
      autorewrite with trace. intros [].
    + intros _. unfold Part000a.getAnthropicSummary.
      rewrite (bind_bind_ret _ _ _ _ (fun summary => (_, summary))).
      cbn [snd].
      match goal with
      | |- context [bind (MainGo.getAnthropicSummary W ?c)
                      (fun s => Println (Part000a.prSummary ?cb ?cm ?co s))] =>
          exists c, cb, cm, co
      end.
      reach_summarizer 5.
  - destruct (0 <? len (TrimSpace output1))%nat.
    + intros _.
      match goal with
      | |- context [bind (Part000b.getAnthropicSummary W ?c)
                      (fun s => Println (Part000b.prSummary ?cb ?cm ?co s))] =>
          exists c, cb, cm, co
      end.
      reach_summarizer 5.
    + unfold Println, emit. cbn [bind ret app].
      autorewrite with trace. intros [].
Qed.

Lemma posts_to_other :
  forall url url' headers payload t,
    (url' =? url) = false ->
    posts_to url (Post url' headers payload :: t) = posts_to url t.
Proof. intros * E. cbn [posts_to]. rewrite E. reflexivity. Qed.

Lemma posts_to_compression_log :
  forall url compressed, posts_to url (compression_log compressed) = [].
Proof. intros url [c|err]; reflexivity. Qed.

(** When the remote API was called, the summarizer returns what the end
    of the function makes of the answer, or the fallback when there was
    no answer; and it was called once. *)
Lemma summarizer_answer :
  forall r W content p,
    In p (posts_to anthropicAPIURL (trace_of (summarizer r W content))) ->
    posts_to anthropicAPIURL (trace_of (summarizer r W content)) = [p] /\
    result_of (summarizer r W content)
    = match http_Do W anthropicAPIURL p with
      | Unreachable _ => Returned fallback
      | Answered _ scanned => result_of (firstText_of r scanned)
      end.
Proof.
  intros r W content p.
  assert (Direct :
    In p (posts_to anthropicAPIURL
            (trace_of (MainGo.getAnthropicSummary W content))) ->
    posts_to anthropicAPIURL (trace_of (MainGo.getAnthropicSummary W content))
    = [p] /\
    result_of (MainGo.getAnthropicSummary W content)
    = match http_Do W anthropicAPIURL p with
      | Unreachable _ => Returned fallback
      | Answered _ scanned => result_of (MainGo.firstText scanned)
      end).
  { destruct (MainGo_summary_run W content) as [Hposts Hres].
    rewrite Hposts. intros [<-|[]]. split; [reflexivity|exact Hres]. }
  destruct r; cbn [summarizer firstText_of]; try exact Direct.
  clear Direct.
  destruct (Part000b_summary_run W content)
    as (compressed & embedded & o & rest & _ & _ & Hrun & Hcase).
  rewrite Hrun. autorewrite with trace.
  rewrite posts_to_other by reflexivity.
  rewrite posts_to_app, posts_to_compression_log. cbn [app].
  rewrite posts_to_other by reflexivity.
  destruct embedded as [embeddings|err].
  - destruct Hcase as (rest' & -> & Hrest' & _ & ->).
    rewrite posts_to_same, Hrest'.
    intros [<-|[]]. split; reflexivity.
  - destruct Hcase as [-> ->]. autorewrite with trace. intros [].
Qed.

(** The request of [remote_request] is the one request the summarizer
    sends to the remote API. *)
Lemma summarizer_sends :
  forall r W content p,
    remote_request r W content = Some p ->
    posts_to anthropicAPIURL (trace_of (summarizer r W content)) = [p].
Proof.
  intros r W content p.
  assert (Direct :
    Some (MainGo.requestBody content) = Some p ->
    posts_to anthropicAPIURL (trace_of (MainGo.getAnthropicSummary W content))
    = [p]).
  { intro E. assert (MainGo.requestBody content = p) as <- by congruence.
    apply MainGo_summary_run. }
  destruct r; cbn [remote_request summarizer]; try exact Direct.
  clear Direct.
  destruct (Part000b_summary_run W content)
    as (compressed & embedded & o & rest & Hc & He & Hrun & Hcase).
  rewrite Hc. cbv zeta. rewrite He.
  destruct embedded as [embeddings|err]; [|discriminate].
  intro E.
  destruct Hcase as (rest' & -> & Hrest' & _ & _).
  rewrite Hrun. autorewrite with trace.
  rewrite posts_to_other by reflexivity.
  rewrite posts_to_app, posts_to_compression_log. cbn [app].
  rewrite posts_to_other by reflexivity.
  rewrite posts_to_same, Hrest'. congruence.
Qed.

(** C4: the summarizer sends its request to the remote API, and when
    the answer to it is the JSON text [{"content":[{"text": X}]}], the
    summarizer returns [X].  In src/main.go and in the first program of
    part_000 the request is always sent; in the second program it is
    sent when [getEmbeddings] returned a vector ([remote_request]). *)
Theorem first_segment_text_is_returned :
  forall (r : revision) (W : World) (content : string) (p : json)
         (body X : string),
    remote_request r W content = Some p ->
    http_Do W anthropicAPIURL p = Answered body (inr (one_segment X)) ->
    posts_to anthropicAPIURL (trace_of (summarizer r W content)) = [p] /\
    result_of (summarizer r W content) = Returned X.
Proof.
  intros r W content p body X Hsent Hanswer.
  pose proof (summarizer_sends r W content p Hsent) as Hposts.
  split; [exact Hposts|].
  assert (Hin : In p (posts_to anthropicAPIURL
                        (trace_of (summarizer r W content)))).
  { rewrite Hposts. left. reflexivity. }
  destruct (summarizer_answer r W content p Hin) as [_ ->].
  rewrite Hanswer. destruct r; reflexivity.
Qed.

Lemma first_segment_text_is_returned_witness :
  result_of (MainGo.getAnthropicSummary typo_fixed "diff")
  = Returned "Fixes a typo." /\
  result_of (Part000a.getAnthropicSummary typo_fixed "diff")
  = Returned "Fixes a typo." /\
  result_of (Part000b.getAnthropicSummary typo_fixed "diff")
  = Returned "Fixes a typo.".
Proof.
  split; [|split].
  - apply (first_segment_text_is_returned main_go typo_fixed "diff"
             (MainGo.requestBody "diff")
             (one_segment_text "Fixes a typo.") "Fixes a typo.");
      reflexivity.
  - apply (first_segment_text_is_returned part_000_a typo_fixed "diff"
             (MainGo.requestBody "diff")
             (one_segment_text "Fixes a typo.") "Fixes a typo.");
      reflexivity.
  - apply (first_segment_text_is_returned part_000_b typo_fixed "diff"
             (Part000b.requestBody
                (Part000b.prompt
                   (Part000b.processEmbeddings typo_fixed [3%float; 4%float])
                   "2 files changed" "diff"))
             (one_segment_text "Fixes a typo.") "Fixes a typo.");
      reflexivity.
Defined.

Lemma exact_name_folds :
  forall k f : string, (k =? f) = true -> equal_fold k f = true.
Proof.
  intros k f E. apply String.eqb_eq in E. subst k.
  unfold equal_fold. apply String.eqb_refl.
Qed.

Lemma find_field_none :
  forall k f : string, equal_fold k f = false -> find_field [f] k = None.
Proof.
  intros k f E. unfold find_field. cbn [find]. rewrite E.
  destruct (k =? f) eqn:Ex; [|reflexivity].
  apply exact_name_folds in Ex. congruence.
Qed.

Lemma map_index_absent :
  forall (f : string) (ms : list (string * json)),
    members_for f ms = [] -> map_index f ms = None.
Proof.
  intros f. induction ms as [|[k x] ms IH]; [reflexivity|].
  unfold members_for. cbn [filter fst map_index].
  destruct (equal_fold k f) eqn:E; [discriminate|].
  intro H. rewrite (IH H).
  destruct (k =? f) eqn:Ex; [|reflexivity].
  apply exact_name_folds in Ex. congruence.
Qed.

Lemma map_index_only :
  forall (f : string) (v : json) (ms : list (string * json)),
    members_for f ms = [(f, v)] -> map_index f ms = Some v.
Proof.
  intros f v. induction ms as [|[k x] ms IH]; [discriminate|].
  unfold members_for. cbn [filter fst map_index].
  destruct (equal_fold k f) eqn:E.
  - intro H. injection H as -> -> H.
    rewrite (map_index_absent _ _ H), String.eqb_refl. reflexivity.
  - intro H. rewrite (IH H). reflexivity.
Qed.

Lemma MainGo_firstText_unusable :
  forall scanned,
    malformed_or_empty scanned ->
    result_of (MainGo.firstText scanned) = Returned fallback.
Proof.
  intros [err|j]; [reflexivity|].
  destruct j; cbn [malformed_or_empty]; try contradiction.
  intro H. unfold MainGo.firstText. cbv zeta.
  rewrite (map_index_only _ _ _ H). reflexivity.
Qed.

Lemma decodeResultFields_absent :
  forall (ms : list (string * json)) (r : Part000b.Result)
         (saved : option string),
    members_for "content" ms = [] ->
    Part000b.decodeResultFields r ms saved = (r, saved).
Proof.
  induction ms as [|[k x] ms IH]; intros r saved; [reflexivity|].
  unfold members_for. cbn [filter fst Part000b.decodeResultFields].
  destruct (equal_fold k "content") eqn:E; [discriminate|].
  intro H. rewrite (find_field_none _ _ E). apply IH. exact H.
Qed.

Lemma decodeResultFields_empty :
  forall (ms : list (string * json)) (r : Part000b.Result)
         (saved : option string),
    members_for "content" ms = [("content", JArr [])] ->
    Part000b.decodeResultFields r ms saved
    = ({| Part000b.Content := [] |}, saved).
Proof.
  induction ms as [|[k x] ms IH]; intros r saved; [discriminate|].
  unfold members_for. cbn [filter fst Part000b.decodeResultFields].
  destruct (equal_fold k "content") eqn:E.
  - intro H. injection H as -> -> H.
    change (find_field ["content"] "content") with (Some "content").
    cbn [Part000b.decodeSegments].
    apply decodeResultFields_absent. exact H.
  - intro H. rewrite (find_field_none _ _ E). apply IH. exact H.
Qed.

Lemma Part000b_firstText_unusable :
  forall scanned,
    malformed_or_empty scanned ->
    result_of (Part000b.firstText scanned) = Returned fallback.
Proof.
  intros [err|j]; [reflexivity|].
  destruct j; cbn [malformed_or_empty]; try contradiction.
  intro H. unfold Part000b.firstText, Part000b.decodeResult. cbv zeta.
  rewrite (decodeResultFields_empty _ _ _ H). reflexivity.
Qed.

Lemma posts_to_started :
  forall url (started : list (string * list string)),
    posts_to url (map exec_of started) = [].
Proof.
  intros url. induction started as [|c l IH]; [reflexivity|exact IH].
Qed.

(** A program that got as far as posting [p] to [url] did so inside
    its summarizer. *)
Lemma posted_by_summarizer :
  forall r W url p,
    In p (posts_to url (trace_of (program r W))) ->
    exists content currentBranch commits changesOverview started,
      In p (posts_to url (trace_of (summarizer r W content))) /\
      result_of (program r W)
      = match result_of (summarizer r W content) with
        | Returned _ => Returned tt
        | Exited code => Exited code
        | Panicked msg => Panicked msg
        end /\
      forall summary,
        result_of (summarizer r W content) = Returned summary ->
        trace_of (program r W)
        = ((map exec_of started ++ trace_of (summarizer r W content))
           ++ [Stdout (prSummary_of r currentBranch commits changesOverview
                         summary ++ nl)])%list.
Proof.
  intros r W url p Hin.
  destruct (program_reaches_summarizer r W url p Hin)
    as (content & cb & cm & co & started & _ & Hres & Htrace).
  exists content, cb, cm, co, started.
  rewrite Htrace, posts_to_app, posts_to_started, trace_bind in Hin.
  cbn [app] in Hin.
  rewrite Hres, Htrace, result_bind, trace_bind.
  destruct (result_of (summarizer r W content)) as [s|code|msg] eqn:Es.
  - rewrite posts_to_app in Hin. cbn [Println emit trace_of snd] in Hin.
    autorewrite with trace in Hin. rewrite app_nil_r in Hin.
    split; [exact Hin|]. split; [reflexivity|].
    intros summary [= <-]. rewrite app_assoc. reflexivity.
  - split; [exact Hin|]. split; [reflexivity|]. discriminate.
  - split; [exact Hin|]. split; [reflexivity|]. discriminate.
Qed.

(** C5: when the body of the answer of the remote API is not a JSON
    text, or is a JSON object whose content list is empty, the
    summarizer, which has sent its request ([remote_request]), returns
    the fixed fallback string; a program that made the request does
    not stop there: it prints its report, with the fallback as the
    summary, and returns. *)
Theorem unusable_answer_degrades :
  forall (r : revision) (W : World) (content : string) (p : json)
         (body : string) (scanned : string + json),
    remote_request r W content = Some p ->
    http_Do W anthropicAPIURL p = Answered body scanned ->
    malformed_or_empty scanned ->
    posts_to anthropicAPIURL (trace_of (summarizer r W content)) = [p] /\
    result_of (summarizer r W content) = Returned "Unable to generate summary"
    /\
    (In p (posts_to anthropicAPIURL (trace_of (program r W))) ->
     result_of (program r W) = Returned tt /\
     exists before currentBranch commits changesOverview,
       trace_of (program r W)
       = (before
          ++ [Stdout (prSummary_of r currentBranch commits changesOverview
                        "Unable to generate summary" ++ nl)])%list).
Proof.
  intros r W content p body scanned Hsent Hanswer Hbad.
  assert (Hsum : forall content',
    In p (posts_to anthropicAPIURL (trace_of (summarizer r W content'))) ->
    result_of (summarizer r W content') = Returned fallback).
  { intros content' Hin.
    destruct (summarizer_answer r W content' p Hin) as [_ ->].
    rewrite Hanswer.
    destruct r; cbn [firstText_of];
      auto using MainGo_firstText_unusable, Part000b_firstText_unusable. }
  pose proof (summarizer_sends r W content p Hsent) as Hposts.
  split; [exact Hposts|].
  split.
  { apply Hsum. rewrite Hposts. left. reflexivity. }
  intro Hin.
  destruct (posted_by_summarizer r W anthropicAPIURL p Hin)
    as (content' & cb & cm & co & started & Hp & Hres & Htrace).
  specialize (Hsum content' Hp).
  rewrite Hres, Hsum. split; [reflexivity|].
  exists (map exec_of started ++ trace_of (summarizer r W content'))%list,
    cb, cm, co.
  apply Htrace. exact Hsum.
Qed.

Lemma unusable_answer_degrades_witness :
  (result_of (program main_go garbled) = Returned tt /\
   last (printed (trace_of (program main_go garbled))) ""
   = MainGo.prSummary "feature" "1a2b3c4 - fix typo"
       ("README.md | 2 +-" ++ nl ++ " 1 file changed")
       "Unable to generate summary" ++ nl) /\
  (result_of (program part_000_a garbled_without_commits) = Returned tt /\
   last (printed (trace_of (program part_000_a garbled_without_commits))) ""
   = Part000a.prSummary "feature" "" "" "Unable to generate summary" ++ nl) /\
  (result_of (program part_000_b garbled) = Returned tt /\
   last (printed (trace_of (program part_000_b garbled))) ""
   = Part000b.prSummary "feature" "1a2b3c4 - fix typo"
       ("README.md | 2 +-" ++ nl ++ " 1 file changed")
       "Unable to generate summary" ++ nl).
Proof.
  split; [|split].
  - destruct (unusable_answer_degrades main_go garbled
                ("Commits:" ++ nl ++ "1a2b3c4 - fix typo" ++ nl ++ nl
                 ++ "Changes Overview:" ++ nl ++ "README.md | 2 +-" ++ nl
                 ++ " 1 file changed")
                (MainGo.requestBody
                   ("Commits:" ++ nl ++ "1a2b3c4 - fix typo" ++ nl ++ nl
                    ++ "Changes Overview:" ++ nl ++ "README.md | 2 +-" ++ nl
                    ++ " 1 file changed"))
                "{" (inl "unexpected end of JSON input"))
      as (_ & _ & Hprogram).
    + reflexivity.
    + reflexivity.
    + exact I.
    + destruct Hprogram as [Hreturned _].
      * vm_compute. left. reflexivity.
      * split; [exact Hreturned|]. vm_compute. reflexivity.
  - destruct (unusable_answer_degrades part_000_a garbled_without_commits
                ("Detailed Changes:" ++ nl ++ nl ++ nl
                 ++ "Changes Overview:" ++ nl)
                (MainGo.requestBody
                   ("Detailed Changes:" ++ nl ++ nl ++ nl
                    ++ "Changes Overview:" ++ nl))
                "{" (inl "unexpected end of JSON input"))
      as (_ & _ & Hprogram).
    + reflexivity.
    + reflexivity.
    + exact I.
    + destruct Hprogram as [Hreturned _].
      * vm_compute. left. reflexivity.
      * split; [exact Hreturned|]. vm_compute. reflexivity.
  - destruct (unusable_answer_degrades part_000_b garbled
                ("Detailed Changes:" ++ nl ++ "README.md | 2 +-" ++ nl
                 ++ " 1 file changed" ++ nl ++ nl
                 ++ "Changes Overview:" ++ nl ++ "README.md | 2 +-" ++ nl
                 ++ " 1 file changed")
                (Part000b.requestBody
                   (Part000b.prompt
                      (Part000b.processEmbeddings garbled [3%float; 4%float])
                      "2 files changed"
                      ("Detailed Changes:" ++ nl ++ "README.md | 2 +-" ++ nl
                       ++ " 1 file changed" ++ nl ++ nl
                       ++ "Changes Overview:" ++ nl ++ "README.md | 2 +-" ++ nl
                       ++ " 1 file changed")))
                "{" (inl "unexpected end of JSON input"))
      as (_ & _ & Hprogram).
    + reflexivity.
    + reflexivity.
    + exact I.
    + destruct Hprogram as [Hreturned _].
      * vm_compute. left. reflexivity.
      * split; [exact Hreturned|]. vm_compute. reflexivity.
Defined.

(* ================================================================= *)
(** ** The base branch *)

(** C8 as stated fails on src/main.go, which does not read its
    arguments: called with the argument [develop] in a checkout of
    [feature] whose remote default branch is [main], it compares with
    [main]. *)
Lemma main_go_ignores_argument :
  os_Args against_develop = ["prgpt"; "develop"] /\
  compares_with "main" "feature" (trace_of (program main_go against_develop)) /\
  ~ compares_with "develop" "feature"
      (trace_of (program main_go against_develop)).
Proof.
  split; [reflexivity|]. split.
  - eexists. split; [vm_compute; reflexivity|].
    repeat (apply Forall_cons;
            [first [left; reflexivity | right; reflexivity]|]).
    apply Forall_nil.
  - intros (later & Hcommands & _).
    vm_compute in Hcommands. discriminate Hcommands.
Qed.

Ltac compared :=
  unfold compares_with; autorewrite with trace;
  eexists; (split; [reflexivity|]);
  repeat (apply Forall_cons;
          [first [left; reflexivity | right; reflexivity]|]);
  try apply Forall_nil.

Ltac run_to_end Hhead Horigin base :=
  rewrite (getCommandOutput_succeeded _ _ _ _ Hhead); cbn [bind app];
  rewrite (getCommandOutput_succeeded _ _ _ _ Horigin); cbn [bind app];
  base;
  repeat run_command; try congruence; try close_tail;
  try match goal with Q : commands _ = [] |- _ =>
        unfold compares_with; autorewrite with trace; rewrite Q
      end;
  compared.

(** C8, amended: the two programs of part_000 take their first argument,
    when there is one, as the base branch, in place of the name
    obtained from [origin/HEAD], and use it in [git log] and in every
    [git diff]; without an argument they use the name obtained.
    src/main.go uses the name obtained, whatever its arguments. *)
Theorem base_branch_override :
  forall (r : revision) (W : World) (output output0 : string),
    cmd_Output W "git" ["rev-parse"; "--abbrev-ref"; "HEAD"]
    = Succeeded output ->
    cmd_Output W "git" ["rev-parse"; "--abbrev-ref"; "origin/HEAD"]
    = Succeeded output0 ->
    (r <> main_go ->
     forall prog arg rest,
       os_Args W = prog :: arg :: rest ->
       compares_with arg (TrimSpace output) (trace_of (program r W))) /\
    (r <> main_go ->
     (length (os_Args W) <= 1)%nat ->
     compares_with (TrimPrefix (TrimSpace output0) "origin/")
       (TrimSpace output) (trace_of (program r W))) /\
    (r = main_go ->
     compares_with (TrimPrefix (TrimSpace output0) "origin/")
       (TrimSpace output) (trace_of (program r W))).
Proof.
  intros r W output output0 Hhead Horigin.
  split; [|split].
  - intros Hr prog arg rest Hargs.
    destruct r; [congruence| |]; cbn [program];
      unfold Part000a.main, Part000b.main;
      run_to_end Hhead Horigin ltac:(rewrite Hargs).
  - intros Hr Hargs.
    assert (Hbase : forall queried : string,
              match os_Args W with
              | _ :: arg :: _ => arg
              | _ => queried
              end = queried).
    { intro queried. destruct (os_Args W) as [|prog [|arg rest]];
        [reflexivity|reflexivity|]. cbn [length] in Hargs. lia. }
    destruct r; [congruence| |]; cbn [program];
      unfold Part000a.main, Part000b.main;
      run_to_end Hhead Horigin ltac:(rewrite Hbase).
  - intros ->. cbn [program]. unfold MainGo.main.
    run_to_end Hhead Horigin ltac:(idtac).
Qed.

Lemma base_branch_override_witness :
  compares_with "develop" "feature"
    (trace_of (program part_000_b against_develop)).
Proof.
  assert (Hhead : cmd_Output against_develop "git"
                    ["rev-parse"; "--abbrev-ref"; "HEAD"]
                  = Succeeded ("feature" ++ nl)) by reflexivity.
  assert (Horigin : cmd_Output against_develop "git"
                      ["rev-parse"; "--abbrev-ref"; "origin/HEAD"]
                    = Succeeded ("origin/main" ++ nl)) by reflexivity.
  destruct (base_branch_override part_000_b against_develop _ _ Hhead Horigin)
    as [Hargument _].
  apply (Hargument ltac:(discriminate) "prgpt" "develop" []).
  reflexivity.
Defined.

(* ================================================================= *)
(** ** Failure of the local compression *)

Lemma length_append :
  forall a b : string,
    String.length (a ++ b) = (String.length a + String.length b)%nat.
Proof.
  induction a as [|x a IH]; intro b; cbn [append String.length plus];
    [reflexivity|].
  rewrite IH. reflexivity.
Qed.

Lemma append_inv_head :
  forall a x y : string, a ++ x = a ++ y -> x = y.
Proof.
  induction a as [|c a IH]; intros x y H; cbn [append] in H; [exact H|].
  injection H as H. apply IH. exact H.
Qed.

Lemma append_inv_tail :
  forall x y s : string, x ++ s = y ++ s -> x = y.
Proof.
  induction x as [|a x IH]; intros [|b y] s H; cbn [append] in H.
  - reflexivity.
  - apply (f_equal String.length) in H.
    cbn [String.length] in H. rewrite length_append in H. lia.
  - apply (f_equal String.length) in H.
    cbn [String.length] in H. rewrite length_append in H. lia.
  - injection H as -> H. f_equal. apply (IH y s). exact H.
Qed.

Lemma completionRequest_inj :
  forall c c' : string,
    Part000b.completionRequest c = Part000b.completionRequest c' -> c = c'.
Proof.
  intros c c' H. unfold Part000b.completionRequest in H. cbv zeta in H.
  injection H as H.
  apply append_inv_tail in H. exact H.
Qed.

(** What the summarizer of the second program of part_000 asks of the
    local model service. *)
Lemma Part000b_summary_local :
  forall W content,
    exists compressed pre post,
      result_of (Part000b.compressLogs W content) = Returned compressed /\
      (exists summary,
         result_of (Part000b.getAnthropicSummary W content) = Returned summary)
      /\
      trace_of (Part000b.getAnthropicSummary W content)
      = (pre ++ compression_log compressed ++ post)%list /\
      posts_to Part000b.ollamaCompletionURL
        (trace_of (Part000b.getAnthropicSummary W content))
      = [Part000b.completionRequest content] /\
      posts_to Part000b.ollamaAPIURL
        (trace_of (Part000b.getAnthropicSummary W content))
      = [Part000b.embeddingRequest (compressed_or_original compressed content)]
      /\
      forall p,
        In p (posts_to anthropicAPIURL
                (trace_of (Part000b.getAnthropicSummary W content))) ->
        exists embeddings,
          p = Part000b.requestBody
                (Part000b.prompt (Part000b.processEmbeddings W embeddings)
                   (compressed_or_original compressed content) content).
Proof.
  intros W content.
  destruct (Part000b_summary_run W content)
    as (compressed & embedded & o & rest & Hc & _ & Hrun & Hcase).
  exists compressed. rewrite Hrun. autorewrite with trace.
  eexists [_], (_ :: rest). split; [exact Hc|].
  assert (Hlog : forall url, posts_to url (compression_log compressed) = [])
    by (intro; apply posts_to_compression_log).
  destruct embedded as [embeddings|err].
  - destruct Hcase as (rest' & -> & Hrest' & Ho & _).
    split; [exact Ho|]. split; [reflexivity|].
    repeat first
      [ rewrite posts_to_same
      | rewrite posts_to_other by reflexivity
      | rewrite posts_to_app
      | rewrite Hlog
      | rewrite Hrest'
      | progress cbn [app] ].
    split; [reflexivity|]. split; [reflexivity|].
    intros p [<-|[]]. exists embeddings. reflexivity.
  - destruct Hcase as [-> ->].
    split; [eexists; reflexivity|]. split; [reflexivity|].
    repeat first
      [ rewrite posts_to_same
      | rewrite posts_to_other by reflexivity
      | rewrite posts_to_app
      | rewrite Hlog
      | progress autorewrite with trace
      | progress cbn [app] ].
    split; [reflexivity|]. split; [reflexivity|].
    intros p [].
Qed.

(** C9: when [compressLogs] fails, [getAnthropicSummary] logs the error
    and goes on with the original content in the place of the
    compressed one: the embedding request is made for the original
    content, and the prompt of the remote request, when it comes to
    that, carries the original content twice.  The summarizer returns,
    and the program that called it prints its report and returns. *)
Theorem compression_failure_falls_back :
  forall (W : World) (content err : string),
    result_of (Part000b.compressLogs W content) = Returned (Err err) ->
    (exists summary,
       result_of (Part000b.getAnthropicSummary W content) = Returned summary)
    /\
    In (Stdout ("Error compressing logs: " ++ err ++ nl))
      (trace_of (Part000b.getAnthropicSummary W content)) /\
    posts_to Part000b.ollamaAPIURL
      (trace_of (Part000b.getAnthropicSummary W content))
    = [Part000b.embeddingRequest content] /\
    (forall p,
       In p (posts_to anthropicAPIURL
               (trace_of (Part000b.getAnthropicSummary W content))) ->
       exists embeddings,
         p = Part000b.requestBody
               (Part000b.prompt (Part000b.processEmbeddings W embeddings)
                  content content)) /\
    (In (Part000b.completionRequest content)
       (posts_to Part000b.ollamaCompletionURL
          (trace_of (program part_000_b W))) ->
     result_of (program part_000_b W) = Returned tt /\
     In (Stdout ("Error compressing logs: " ++ err ++ nl))
       (trace_of (program part_000_b W)) /\
     In (Part000b.embeddingRequest content)
       (posts_to Part000b.ollamaAPIURL (trace_of (program part_000_b W)))).
Proof.
  intros W content err Hfail.
  destruct (Part000b_summary_local W content)
    as (compressed & pre & post & Hc & Hreturns & Htrace & _ & Hembed
        & Hremote).
  assert (compressed = Err err) by congruence. subst compressed.
  cbn [compressed_or_original compression_log] in *.
  assert (Hlogged :
    In (Stdout ("Error compressing logs: " ++ err ++ nl))
      (trace_of (Part000b.getAnthropicSummary W content))).
  { rewrite Htrace. apply in_or_app. right. left. reflexivity. }
  split; [exact Hreturns|]. split; [exact Hlogged|].
  split; [exact Hembed|]. split; [exact Hremote|].
  intro Hcalled.
  destruct (posted_by_summarizer part_000_b W _ _ Hcalled)
    as (content' & cb & cm & co & started & Hp & Hres & Hprogram).
  cbn [summarizer] in *.
  assert (content' = content).
  { destruct (Part000b_summary_local W content')
      as (_ & _ & _ & _ & _ & _ & Hposts & _).
    rewrite Hposts in Hp. destruct Hp as [Hp|[]].
    apply completionRequest_inj. exact Hp. }
  subst content'.
  destruct Hreturns as [summary Hsummary].
  rewrite Hres, Hsummary. split; [reflexivity|].
  rewrite (Hprogram summary Hsummary). split.
  - apply in_or_app. left. apply in_or_app. right. exact Hlogged.
  - rewrite !posts_to_app, posts_to_started, Hembed. left. reflexivity.
Qed.

Lemma compression_failure_falls_back_witness :
  result_of (program part_000_b no_generation) = Returned tt /\
  posts_to Part000b.ollamaAPIURL (trace_of (program part_000_b no_generation))
  = [Part000b.embeddingRequest sample_content].
Proof.
  assert (Hfail :
    result_of (Part000b.compressLogs no_generation sample_content)
    = Returned (Err "error calling Ollama API: connection refused"))
    by reflexivity.
  destruct (compression_failure_falls_back no_generation sample_content _ Hfail)
    as (_ & _ & _ & _ & Hprogram).
  destruct Hprogram as (Hreturned & _ & _).
  - vm_compute. left. reflexivity.
  - split; [exact Hreturned|]. vm_compute. reflexivity.
Defined.

(* ================================================================= *)
(** ** The condition before the summarizer *)

Lemma len_zero : forall s : string, len s = 0%nat -> s = "".
Proof. intros [|c s] H; [reflexivity|discriminate H]. Qed.

Lemma log_arguments :
  forall x y x' y' : string,
    ["log"; x; y] = ["log"; x'; y'] -> x = x' /\ y = y'.
Proof. intros x y x' y' H. injection H as -> ->. split; reflexivity. Qed.

Ltac the_log_command :=
  split_cases;
  match goal with
  | H : (_, _) = (_, _) |- _ =>
      apply pair_equal_spec in H; destruct H as [_ H];
      first [ discriminate H
            | apply log_arguments in H; destruct H as [<- <-] ]
  end.

(** The second program of part_000 skips the summarizer when [git log]
    printed nothing: nothing is posted to the remote API, and the
    report, if the run gets as far, has an empty summary. *)
Lemma part_000_b_skips_without_commits :
  forall (W : World) (range pretty output : string),
    In ("git", ["log"; range; pretty])
      (commands (trace_of (program part_000_b W))) ->
    cmd_Output W "git" ["log"; range; pretty] = Succeeded output ->
    len (TrimSpace output) = 0%nat ->
    posts_to anthropicAPIURL (trace_of (program part_000_b W)) = [] /\
    (result_of (program part_000_b W) = Returned tt ->
     exists before currentBranch changesOverview,
       trace_of (program part_000_b W)
       = (before
          ++ [Stdout (Part000b.prSummary currentBranch "" changesOverview ""
                        ++ nl)])%list).
Proof.
  intros W range pretty output.
  cbn [program]. unfold Part000b.main.
  repeat run_command;
    try (autorewrite with trace; intros _ _ _;
         split; [reflexivity|discriminate]).
  destruct (0 <? len (TrimSpace output2))%nat eqn:G.
  - close_tail. autorewrite with trace. rewrite Q.
    intros Hin Hlog Hlen. exfalso.
    the_log_command.
    assert (output2 = output) by congruence. subst output2.
    rewrite Hlen in G. discriminate G.
  - unfold Println, emit. cbn [bind ret app].
    autorewrite with trace.
    intros Hin Hlog Hlen.
    the_log_command.
    assert (output2 = output) by congruence. subst output2.
    rewrite (len_zero _ Hlen).
    split; [reflexivity|]. intros _.
    eexists [_; _; _; _; _], _, _. reflexivity.
Qed.

(** The first program of part_000 does the opposite: when [git log]
    printed at most two bytes and every command succeeded, it calls the
    remote API. *)
Lemma part_000_a_summarizes_short_logs :
  forall (W : World) (range pretty output : string),
    In ("git", ["log"; range; pretty])
      (commands (trace_of (program part_000_a W))) ->
    cmd_Output W "git" ["log"; range; pretty] = Succeeded output ->
    (len (TrimSpace output) <= 2)%nat ->
    result_of (program part_000_a W) <> Exited 1 ->
    posts_to anthropicAPIURL (trace_of (program part_000_a W)) <> [].
Proof.
  intros W range pretty output.
  cbn [program]. unfold Part000a.main.
  repeat run_command;
    try (autorewrite with trace; intros _ _ _ Hexit; congruence).
  destruct (2 <? len (TrimSpace output2))%nat eqn:G.
  - close_tail. autorewrite with trace. rewrite Q.
    intros Hin Hlog Hlen. exfalso.
    the_log_command.
    assert (output2 = output) by congruence. subst output2.
    apply Nat.ltb_lt in G. lia.
  - intros _ _ _ _.
    unfold Part000a.getAnthropicSummary. rewrite bind_bind_ret.
    match goal with
    | |- context [bind (MainGo.getAnthropicSummary W ?c) ?k] =>
        destruct (MainGo_summary_run W c) as [Hposts _];
        pose proof (trace_bind _ _ (MainGo.getAnthropicSummary W c) k) as Ht;
        destruct (bind (MainGo.getAnthropicSummary W c) k) as [o t]
    end.
    cbn [trace_of snd] in Ht. autorewrite with trace. subst t.
    destruct (result_of _).
    + rewrite posts_to_app, Hposts. discriminate.
    + rewrite Hposts. discriminate.
    + rewrite Hposts. discriminate.
Qed.

(** C1 at the input on which the first program of part_000 breaks it:
    [git log] prints nothing, so the commit list has length 0, which is
    at most 2; the program posts its request to the remote API and the
    summary it prints is the answer, not the empty string.  The second
    program of part_000, in the same world, posts nothing and prints an
    empty summary. *)
Theorem part_000_a_condition_is_inverted :
  cmd_Output no_commits "git" ["log"; "main..feature"; "--pretty=format:%h - %s"]
  = Succeeded "" /\
  posts_to anthropicAPIURL (trace_of (program part_000_a no_commits))
  = [MainGo.requestBody
       ("Detailed Changes:" ++ nl ++ nl ++ nl ++ "Changes Overview:" ++ nl)] /\
  last (printed (trace_of (program part_000_a no_commits))) ""
  = Part000a.prSummary "feature" "" "" "No changes." ++ nl /\
  posts_to anthropicAPIURL (trace_of (program part_000_b no_commits)) = [] /\
  last (printed (trace_of (program part_000_b no_commits))) ""
  = Part000b.prSummary "feature" "" "" "" ++ nl.
Proof. repeat split; vm_compute; reflexivity. Qed.

(* ================================================================= *)
(** ** Trimmed command output *)

Lemma strip_prefix_some :
  forall (p s rest : list ascii),
    strip_prefix p s = Some rest -> s = (p ++ rest)%list.
Proof.
  induction p as [|a p IH]; intros s rest H; cbn [strip_prefix] in H.
  - injection H as ->. reflexivity.
  - destruct s as [|b s]; [discriminate|].
    destruct (Ascii.eqb a b) eqn:E; [|discriminate].
    apply Ascii.eqb_eq in E. subst b.
    cbn [app]. f_equal. apply IH. exact H.
Qed.

Lemma strip_prefix_app :
  forall (p rest : list ascii), strip_prefix p (p ++ rest) = Some rest.
Proof.
  induction p as [|a p IH]; intro rest; cbn [strip_prefix app]; [reflexivity|].
  rewrite Ascii.eqb_refl. apply IH.
Qed.

Lemma strip_one_some :
  forall (runes : list (list ascii)) (s rest : list ascii),
    strip_one runes s = Some rest ->
    exists r, In r runes /\ s = (r ++ rest)%list.
Proof.
  induction runes as [|r runes IH]; intros s rest H; cbn [strip_one] in H;
    [discriminate|].
  destruct (strip_prefix r s) as [rest'|] eqn:E.
  - injection H as ->. exists r. split; [left; reflexivity|].
    apply strip_prefix_some. exact E.
  - destruct (IH s rest H) as (r' & Hin & Hs).
    exists r'. split; [right; exact Hin|exact Hs].
Qed.

Lemma strip_one_starts :
  forall (runes : list (list ascii)) (r rest : list ascii),
    In r runes -> strip_one runes (r ++ rest) <> None.
Proof.
  induction runes as [|r0 runes IH]; intros r rest Hin; [destruct Hin|].
  cbn [strip_one].
  destruct (strip_prefix r0 (r ++ rest)) eqn:E; [discriminate|].
  destruct Hin as [->|Hin].
  - rewrite strip_prefix_app in E. discriminate.
  - apply IH. exact Hin.
Qed.

Lemma strip_one_none_prefix :
  forall (runes : list (list ascii)) (a b : list ascii),
    strip_one runes (a ++ b) = None -> strip_one runes a = None.
Proof.
  intros runes a b H.
  destruct (strip_one runes a) as [rest|] eqn:E; [|reflexivity].
  destruct (strip_one_some _ _ _ E) as (r & Hin & ->).
  rewrite <- app_assoc in H.
  exfalso. exact (strip_one_starts runes r _ Hin H).
Qed.

Lemma trim_left_is_suffix :
  forall (runes : list (list ascii)) (fuel : nat) (s : list ascii),
    exists rs,
      Forall (fun r => In r runes) rs /\
      s = (concat rs ++ trim_left fuel runes s)%list.
Proof.
  intros runes. induction fuel as [|n IH]; intro s; cbn [trim_left].
  - exists []. split; [constructor|reflexivity].
  - destruct (strip_one runes s) as [rest|] eqn:E.
    + destruct (strip_one_some _ _ _ E) as (r & Hin & ->).
      destruct (IH rest) as (rs & Hrs & Hrest).
      exists (r :: rs). split; [constructor; assumption|].
      cbn [concat]. rewrite <- app_assoc. f_equal. exact Hrest.
    + exists []. split; [constructor|reflexivity].
Qed.

Lemma rev_concat_runes :
  forall rs : list (list ascii),
    Forall (fun r => In r (map (@rev ascii) space_runes)) rs ->
    white (rev (concat rs)).
Proof.
  induction rs as [|r rs IH]; intro H.
  - exists []. split; [constructor|reflexivity].
  - inversion H as [|? ? Hr Hrs]; subst.
    destruct (IH Hrs) as (ws & Hws & Eq).
    apply in_map_iff in Hr. destruct Hr as (r0 & <- & Hr0).
    exists (ws ++ [r0])%list. split.
    + apply Forall_app. split; [exact Hws|].
      constructor; [exact Hr0|constructor].
    + cbn [concat]. rewrite rev_app_distr, rev_involutive, Eq.
      rewrite concat_app. cbn [concat]. rewrite app_nil_r. reflexivity.
Qed.

Lemma trim_left_is_trimmed :
  forall (runes : list (list ascii)),
    Forall (fun r => r <> []) runes ->
    forall (fuel : nat) (s : list ascii),
      (length s <= fuel)%nat ->
      strip_one runes (trim_left fuel runes s) = None.
Proof.
  intros runes Hrunes. induction fuel as [|n IH]; intros s Hlen;
    cbn [trim_left].
  - destruct s; [|cbn [length] in Hlen; lia].
    destruct (strip_one runes []) as [rest|] eqn:E; [|reflexivity].
    destruct (strip_one_some _ _ _ E) as (r & Hin & Hs).
    symmetry in Hs. apply app_eq_nil in Hs. destruct Hs as [-> _].
    rewrite Forall_forall in Hrunes. exfalso. exact (Hrunes [] Hin eq_refl).
  - destruct (strip_one runes s) as [rest|] eqn:E; [|exact E].
    apply IH.
    destruct (strip_one_some _ _ _ E) as (r & Hin & ->).
    rewrite Forall_forall in Hrunes. specialize (Hrunes r Hin).
    rewrite length_app in Hlen.
    destruct r; [congruence|]. cbn [length] in Hlen. lia.
Qed.

Lemma space_runes_nonempty : Forall (fun r => r <> []) space_runes.
Proof. repeat (apply Forall_cons; [discriminate|]). apply Forall_nil. Qed.

Lemma reversed_space_runes_nonempty :
  Forall (fun r => r <> []) (map (@rev ascii) space_runes).
Proof. repeat (apply Forall_cons; [discriminate|]). apply Forall_nil. Qed.

Lemma bytes_of_bytes : forall l : list ascii, bytes (of_bytes l) = l.
Proof. exact list_ascii_of_string_of_list_ascii. Qed.

Lemma of_bytes_app :
  forall a b : list ascii, of_bytes (a ++ b) = of_bytes a ++ of_bytes b.
Proof.
  induction a as [|x a IH]; intro b; [reflexivity|].
  cbn [app of_bytes string_of_list_ascii append].
  f_equal. apply IH.
Qed.

(** [strings.TrimSpace] cuts a piece out of its argument that neither
    starts nor ends with white space; what it cuts off is white
    space. *)
Lemma TrimSpace_trimmed :
  forall s : string,
    starts_with_space (bytes (TrimSpace s)) = false /\
    ends_with_space (bytes (TrimSpace s)) = false /\
    exists before after,
      s = of_bytes before ++ TrimSpace s ++ of_bytes after /\
      white before /\ white after.
Proof.
  intro s. unfold TrimSpace, starts_with_space, ends_with_space. cbv zeta.
  set (l := trim_left (len s) space_runes (bytes s)).
  set (back := trim_left (length l) (map (@rev ascii) space_runes) (rev l)).
  rewrite bytes_of_bytes, rev_involutive.
  assert (Hl : strip_one space_runes l = None).
  { apply trim_left_is_trimmed; [exact space_runes_nonempty|].
    unfold len, bytes. clear. induction s; cbn; lia. }
  assert (Hback : strip_one (map (@rev ascii) space_runes) back = None).
  { apply trim_left_is_trimmed; [exact reversed_space_runes_nonempty|].
    rewrite length_rev. lia. }
  destruct (trim_left_is_suffix (map (@rev ascii) space_runes) (length l) (rev l))
    as (cut & Hcut & Hrev).
  fold back in Hrev.
  assert (Hsplit : l = (rev back ++ rev (concat cut))%list).
  { rewrite <- rev_app_distr, <- Hrev, rev_involutive. reflexivity. }
  split; [|split].
  - rewrite Hsplit in Hl. rewrite (strip_one_none_prefix _ _ _ Hl). reflexivity.
  - rewrite Hback. reflexivity.
  - destruct (trim_left_is_suffix space_runes (len s) (bytes s))
      as (pre & Hpre & Hs).
    fold l in Hs.
    exists (concat pre), (rev (concat cut)).
    split; [|split].
    + rewrite <- !of_bytes_app, <- Hsplit, <- Hs.
      unfold of_bytes, bytes. symmetry.
      apply string_of_list_ascii_of_string.
    + exists pre. split; [exact Hpre|reflexivity].
    + apply rev_concat_runes. exact Hcut.
Qed.

(** X1: what [getCommandOutput] returns is cut out of the standard
    output of the one subprocess it started: white space before it and
    after it, none at its own start or end.  Nothing is printed. *)
Theorem getCommandOutput_returns_trimmed :
  forall (W : World) (name : string) (args : list string) (out : string),
    result_of (getCommandOutput W name args) = Returned out ->
    trace_of (getCommandOutput W name args) = [Exec name args] /\
    starts_with_space (bytes out) = false /\
    ends_with_space (bytes out) = false /\
    exists output before after,
      cmd_Output W name args = Succeeded output /\
      output = of_bytes before ++ out ++ of_bytes after /\
      white before /\ white after.
Proof.
  intros W name args out.
  destruct (cmd_Output W name args) as [output|err] eqn:E.
  - rewrite (getCommandOutput_succeeded _ _ _ _ E).
    cbn [result_of trace_of fst snd]. intros [= <-].
    destruct (TrimSpace_trimmed output)
      as (Hstart & Hend & before & after & Hcut & Hbefore & Hafter).
    split; [reflexivity|]. split; [exact Hstart|]. split; [exact Hend|].
    exists output, before, after. auto.
  - rewrite (getCommandOutput_failed _ _ _ _ E).
    cbn [result_of fst]. discriminate.
Qed.

Lemma getCommandOutput_returns_trimmed_witness :
  trace_of (getCommandOutput typo_fixed "git" ["log"; "main..feature"])
  = [Exec "git" ["log"; "main..feature"]] /\
  ends_with_space (bytes "1a2b3c4 - fix typo") = false.
Proof.
  destruct (getCommandOutput_returns_trimmed typo_fixed "git"
              ["log"; "main..feature"] "1a2b3c4 - fix typo")
    as (Htrace & _ & Hend & _).
  - reflexivity.
  - split; [exact Htrace|exact Hend].
Defined.

(* ================================================================= *)
(** ** The subprocesses of a run *)

(** X2: the programs start no subprocess but [git], beginning with the
    query for the current branch; src/main.go starts at most four, the
    programs of part_000 at most five. *)
Theorem programs_run_only_git :
  forall (r : revision) (W : World),
    Forall (fun c => fst c = "git") (commands (trace_of (program r W))) /\
    (length (commands (trace_of (program r W)))
     <= match r with main_go => 4 | _ => 5 end)%nat /\
    exists later,
      commands (trace_of (program r W))
      = ("git", ["rev-parse"; "--abbrev-ref"; "HEAD"]) :: later.
Proof.
  intros r W.
  destruct r; cbn [program];
    unfold MainGo.main, Part000a.main, Part000b.main;
    repeat run_command; try close_tail;
    autorewrite with trace; try rewrite Q;
    (split; [repeat (apply Forall_cons; [reflexivity|]); apply Forall_nil|]);
    (split; [cbn [length]; lia|]);
    eexists; reflexivity.
Qed.

(* ================================================================= *)
(** ** More on the remote summarizer *)

Lemma in_posts_to :
  forall url headers payload t,
    In (Post url headers payload) t -> In payload (posts_to url t).
Proof.
  intros url headers payload. induction t as [|e t IH]; intro H; [destruct H|].
  destruct H as [->|H].
  - rewrite posts_to_same. left. reflexivity.
  - specialize (IH H). destruct e; cbn [posts_to]; try exact IH.
    destruct (url0 =? url); [right|]; exact IH.
Qed.

Lemma printed_started :
  forall started : list (string * list string),
    printed (map exec_of started) = [].
Proof. induction started as [|c l IH]; [reflexivity|exact IH]. Qed.

(** The program around a summarizer that returns [summary] whenever it
    posted [p]: it prints its report with that summary and returns. *)
Lemma program_prints_summary :
  forall r W p summary,
    (forall content,
       In p (posts_to anthropicAPIURL (trace_of (summarizer r W content))) ->
       result_of (summarizer r W content) = Returned summary) ->
    In p (posts_to anthropicAPIURL (trace_of (program r W))) ->
    result_of (program r W) = Returned tt /\
    exists before currentBranch commits changesOverview,
      trace_of (program r W)
      = (before
         ++ [Stdout (prSummary_of r currentBranch commits changesOverview
                       summary ++ nl)])%list.
Proof.
  intros r W p summary Hsum Hin.
  destruct (posted_by_summarizer r W anthropicAPIURL p Hin)
    as (content & cb & cm & co & started & Hp & Hres & Htrace).
  specialize (Hsum content Hp).
  rewrite Hres, Hsum. split; [reflexivity|].
  exists (map exec_of started ++ trace_of (summarizer r W content))%list,
    cb, cm, co.
  apply Htrace. exact Hsum.
Qed.

(** The summarizer of the second program of part_000 from its remote
    request on. *)
Lemma Part000b_summary_remote :
  forall W content p,
    In p (posts_to anthropicAPIURL
            (trace_of (Part000b.getAnthropicSummary W content))) ->
    exists before,
      Part000b.getAnthropicSummary W content
      = match http_Do W anthropicAPIURL p with
        | Unreachable err =>
            (Returned fallback,
             (before
              ++ [Post anthropicAPIURL (Part000b.headers W) p;
                  Stdout ("Error calling Anthropic API: " ++ err ++ nl)])%list)
        | Answered body scanned =>
            (result_of (Part000b.firstText scanned),
             (before
              ++ Post anthropicAPIURL (Part000b.headers W) p
                 :: Stdout ("Anthropic API Response: " ++ body ++ nl)
                 :: trace_of (Part000b.firstText scanned))%list)
        end.
Proof.
  intros W content p. unfold Part000b.getAnthropicSummary.
  destruct (compressLogs_run W content) as [compressed Hc].
  rewrite Hc.
  assert (Hlog :
    match compressed with
    | Err err =>
        Printf ("Error compressing logs: " ++ err ++ nl) ;; ret content
    | Ok c => ret c
    end
    = (Returned (compressed_or_original compressed content),
       compression_log compressed)).
  { destruct compressed; reflexivity. }
  cbn [bind]. rewrite Hlog. cbn [bind].
  destruct (getEmbeddings_run W (compressed_or_original compressed content))
    as [embedded He].
  rewrite He. cbn [bind].
  destruct embedded as [embeddings|err].
  - cbv zeta.
    set (payload := Part000b.requestBody _).
    unfold post, emit. cbn [bind ret app].
    destruct (http_Do W anthropicAPIURL payload) as [err|body scanned] eqn:Ed.
    + cbn [bind Printf emit ret app trace_of snd].
      repeat first
        [ rewrite posts_to_same
        | rewrite posts_to_other by reflexivity
        | rewrite posts_to_app
        | rewrite posts_to_compression_log
        | progress autorewrite with trace
        | progress cbn [app] ].
      intros [<-|[]]. rewrite Ed.
      eexists (_ :: (compression_log compressed ++ [_]))%list.
      cbn [app]. rewrite <- app_assoc. reflexivity.
    + destruct (Part000b.firstText scanned) as [o' t'] eqn:Ef.
      assert (Ht' : posts_to anthropicAPIURL t' = []).
      { pose proof (offline_Part000b_firstText anthropicAPIURL scanned) as Hoff.
        unfold offline in Hoff. rewrite Ef in Hoff. exact Hoff. }
      cbn [bind Printf emit ret app trace_of snd].
      repeat first
        [ rewrite posts_to_same
        | rewrite posts_to_other by reflexivity
        | rewrite posts_to_app
        | rewrite posts_to_compression_log
        | rewrite Ht'
        | progress autorewrite with trace
        | progress cbn [app] ].
      intros [<-|[]]. rewrite Ed, Ef.
      eexists (_ :: (compression_log compressed ++ [_]))%list.
      cbn [app result_of trace_of fst snd]. rewrite <- app_assoc. reflexivity.
  - cbn [bind Printf emit ret app trace_of snd].
    repeat first
      [ rewrite posts_to_other by reflexivity
      | rewrite posts_to_app
      | rewrite posts_to_compression_log
      | progress autorewrite with trace
      | progress cbn [app] ].
    intros [].
Qed.

Lemma MainGo_summary_remote :
  forall W content p,
    In p (posts_to anthropicAPIURL
            (trace_of (MainGo.getAnthropicSummary W content))) ->
    MainGo.getAnthropicSummary W content
    = match http_Do W anthropicAPIURL p with
      | Unreachable err =>
          (Returned fallback,
           [Post anthropicAPIURL (MainGo.headers W) p;
            Stdout ("Error calling Anthropic API: " ++ err ++ nl)])
      | Answered body scanned =>
          (result_of (MainGo.firstText scanned),
           Post anthropicAPIURL (MainGo.headers W) p
           :: trace_of (MainGo.firstText scanned))
      end.
Proof.
  intros W content p Hin.
  destruct (MainGo_summary_run W content) as [Hposts _].
  rewrite Hposts in Hin. destruct Hin as [<-|[]].
  unfold MainGo.getAnthropicSummary, post, emit. cbn [bind ret app].
  destruct (http_Do W anthropicAPIURL (MainGo.requestBody content))
    as [err|body scanned].
  - reflexivity.
  - destruct (MainGo.firstText scanned); reflexivity.
Qed.

(** X3: when the remote API cannot be reached, each of the three
    summarizers logs the error as the last thing it does and returns
    the fallback string; the program prints its report with the
    fallback as the summary and returns. *)
Theorem remote_failure_degrades :
  forall (r : revision) (W : World) (p : json) (err : string),
    http_Do W anthropicAPIURL p = Unreachable err ->
    (forall content,
       In p (posts_to anthropicAPIURL (trace_of (summarizer r W content))) ->
       result_of (summarizer r W content)
       = Returned "Unable to generate summary" /\
       exists before headers,
         trace_of (summarizer r W content)
         = (before
            ++ [Post anthropicAPIURL headers p;
                Stdout ("Error calling Anthropic API: " ++ err ++ nl)])%list)
    /\
    (In p (posts_to anthropicAPIURL (trace_of (program r W))) ->
     result_of (program r W) = Returned tt /\
     exists before currentBranch commits changesOverview,
       trace_of (program r W)
       = (before
          ++ [Stdout (prSummary_of r currentBranch commits changesOverview
                        "Unable to generate summary" ++ nl)])%list).
Proof.
  intros r W p err Hdown.
  assert (Hsum : forall content,
    In p (posts_to anthropicAPIURL (trace_of (summarizer r W content))) ->
    result_of (summarizer r W content) = Returned fallback /\
    exists before headers,
      trace_of (summarizer r W content)
      = (before
         ++ [Post anthropicAPIURL headers p;
             Stdout ("Error calling Anthropic API: " ++ err ++ nl)])%list).
  { intros content Hin.
    destruct r; cbn [summarizer] in *.
    - rewrite (MainGo_summary_remote W content p Hin), Hdown.
      split; [reflexivity|]. exists [], (MainGo.headers W). reflexivity.
    - unfold Part000a.getAnthropicSummary in *.
      rewrite (MainGo_summary_remote W content p Hin), Hdown.
      split; [reflexivity|]. exists [], (MainGo.headers W). reflexivity.
    - destruct (Part000b_summary_remote W content p Hin) as [before ->].
      rewrite Hdown. split; [reflexivity|].
      exists before, (Part000b.headers W). reflexivity. }
  split; [exact Hsum|].
  apply program_prints_summary.
  intros content Hin. apply Hsum. exact Hin.
Qed.

Lemma remote_failure_degrades_witness :
  result_of (program main_go no_remote) = Returned tt.
Proof.
  destruct (remote_failure_degrades main_go no_remote
              (MainGo.requestBody
                 ("Commits:" ++ nl ++ "1a2b3c4 - fix typo" ++ nl ++ nl
                  ++ "Changes Overview:" ++ nl ++ "README.md | 2 +-" ++ nl
                  ++ " 1 file changed"))
              "dial tcp: lookup api.anthropic.com: no such host")
    as [_ Hprogram].
  - reflexivity.
  - destruct Hprogram as [Hreturned _].
    + vm_compute. left. reflexivity.
    + exact Hreturned.
Defined.

(** A run that posted [p] to [url]: the commands, then the summarizer
    and the report. *)
Lemma run_through_summarizer :
  forall r W url p,
    In p (posts_to url (trace_of (program r W))) ->
    exists content currentBranch commits changesOverview started,
      In p (posts_to url (trace_of (summarizer r W content))) /\
      result_of (program r W)
      = match result_of (summarizer r W content) with
        | Returned _ => Returned tt
        | Exited code => Exited code
        | Panicked msg => Panicked msg
        end /\
      trace_of (program r W)
      = (map exec_of started
         ++ trace_of (summarizer r W content)
         ++ match result_of (summarizer r W content) with
            | Returned summary =>
                [Stdout (prSummary_of r currentBranch commits changesOverview
                           summary ++ nl)]
            | _ => []
            end)%list.
Proof.
  intros r W url p Hin.
  destruct (program_reaches_summarizer r W url p Hin)
    as (content & cb & cm & co & started & _ & Hres & Htrace).
  exists content, cb, cm, co, started.
  rewrite Htrace, posts_to_app, posts_to_started, trace_bind in Hin.
  cbn [app] in Hin.
  rewrite Hres, Htrace, result_bind, trace_bind.
  destruct (result_of (summarizer r W content)) as [s|code|msg].
  - rewrite posts_to_app in Hin. cbn [Println emit trace_of snd] in Hin.
    autorewrite with trace in Hin. rewrite app_nil_r in Hin.
    split; [exact Hin|]. split; reflexivity.
  - rewrite app_nil_r. split; [exact Hin|]. split; reflexivity.
  - rewrite app_nil_r. split; [exact Hin|]. split; reflexivity.
Qed.

Lemma MainGo_firstText_panics :
  forall scanned,
    first_segment_not_object scanned ->
    exists first,
      MainGo.firstText scanned
      = (Panicked ("interface conversion: interface {} is "
                   ++ dynamic_type first ++ ", not map[string]interface {}"),
         []).
Proof.
  intros [err|j]; [contradiction|].
  destruct j as [| | | | |members]; try contradiction.
  unfold first_segment_not_object, MainGo.firstText. cbv zeta.
  destruct (map_index "content" members) as [[| | | |[|first rest]|]|];
    try contradiction.
  destruct first; try contradiction; intros _; eexists; reflexivity.
Qed.

(** X4: the fallback of src/main.go and of the first program of
    part_000 does not cover an answer whose first content element is
    not a JSON object (a number, a string, null, ...): the type
    assertion panics, and the program ends there, having printed
    nothing. *)
Theorem non_object_segment_panics :
  forall (r : revision) (W : World) (p : json) (body : string)
         (scanned : string + json),
    r <> part_000_b ->
    http_Do W anthropicAPIURL p = Answered body scanned ->
    first_segment_not_object scanned ->
    In p (posts_to anthropicAPIURL (trace_of (program r W))) ->
    (exists msg, result_of (program r W) = Panicked msg) /\
    printed (trace_of (program r W)) = [].
Proof.
  intros r W p body scanned Hr Hanswer Hbad Hin.
  destruct (run_through_summarizer r W _ p Hin)
    as (content & cb & cm & co & started & Hp & Hres & Htrace).
  assert (Hsum : exists msg,
            summarizer r W content
            = (Panicked msg, [Post anthropicAPIURL (MainGo.headers W) p])).
  { destruct (MainGo_firstText_panics scanned Hbad) as [first Hfirst].
    destruct r; [| |congruence]; cbn [summarizer] in *;
      unfold Part000a.getAnthropicSummary in *;
      rewrite (MainGo_summary_remote W content p Hp), Hanswer, Hfirst;
      eexists; reflexivity. }
  destruct Hsum as [msg Hsum].
  rewrite Hres, Htrace, Hsum. cbn [result_of trace_of fst snd].
  split; [exists msg; reflexivity|].
  rewrite !printed_app, printed_started. reflexivity.
Qed.

Lemma non_object_segment_panics_witness :
  printed (trace_of (program main_go plain_strings)) = [].
Proof.
  destruct (non_object_segment_panics main_go plain_strings
              (MainGo.requestBody
                 ("Commits:" ++ nl ++ "1a2b3c4 - fix typo" ++ nl ++ nl
                  ++ "Changes Overview:" ++ nl ++ "README.md | 2 +-" ++ nl
                  ++ " 1 file changed"))
              "{}" (inr (JObj [("content", JArr [JStr "Fixes a typo."])])))
    as [_ Hprinted].
  - discriminate.
  - reflexivity.
  - exact I.
  - vm_compute. left. reflexivity.
  - exact Hprinted.
Defined.

Lemma decodeSegmentFields_absent :
  forall (seg : list (string * json)) (s : Part000b.Segment)
         (saved : option string),
    members_for "text" seg = [] ->
    Part000b.decodeSegmentFields s seg saved = (s, saved).
Proof.
  induction seg as [|[k x] seg IH]; intros s saved; [reflexivity|].
  unfold members_for. cbn [filter fst Part000b.decodeSegmentFields].
  destruct (equal_fold k "text") eqn:E; [discriminate|].
  intro H. rewrite (find_field_none _ _ E). apply IH. exact H.
Qed.

Lemma decodeResultFields_only :
  forall (elems : list json) (ms : list (string * json))
         (r : Part000b.Result) (saved : option string),
    members_for "content" ms = [("content", JArr elems)] ->
    Part000b.decodeResultFields r ms saved
    = (let (l, saved') :=
         Part000b.decodeSegments (Part000b.Content r) elems saved in
       ({| Part000b.Content := l |}, saved')).
Proof.
  intros elems. induction ms as [|[k x] ms IH]; intros r saved; [discriminate|].
  unfold members_for. cbn [filter fst Part000b.decodeResultFields].
  destruct (equal_fold k "content") eqn:E.
  - intro H. injection H as -> -> H.
    change (find_field ["content"] "content") with (Some "content").
    cbv iota.
    destruct (Part000b.decodeSegments (Part000b.Content r) elems saved)
      as [l saved'].
    apply decodeResultFields_absent. exact H.
  - intro H. rewrite (find_field_none _ _ E). apply IH. exact H.
Qed.

(** X5: an answer whose only content segment is an object without a
    [text] member: src/main.go and the first program of part_000 fall
    back to the fixed string; the second program of part_000 decodes
    the segment into a struct with an empty text and prints an empty
    summary. *)
Theorem segment_without_text :
  forall (r : revision) (W : World) (p : json) (body : string)
         (members segment : list (string * json)),
    http_Do W anthropicAPIURL p = Answered body (inr (JObj members)) ->
    members_for "content" members = [("content", JArr [JObj segment])] ->
    members_for "text" segment = [] ->
    In p (posts_to anthropicAPIURL (trace_of (program r W))) ->
    result_of (program r W) = Returned tt /\
    exists before currentBranch commits changesOverview,
      trace_of (program r W)
      = (before
         ++ [Stdout (prSummary_of r currentBranch commits changesOverview
                       match r with
                       | part_000_b => ""
                       | _ => "Unable to generate summary"
                       end ++ nl)])%list.
Proof.
  intros r W p body members segment Hanswer Hcontent Htext.
  apply program_prints_summary.
  intros content Hin.
  destruct (summarizer_answer r W content p Hin) as [_ ->].
  rewrite Hanswer.
  destruct r; cbn [firstText_of].
  - unfold MainGo.firstText. cbv zeta.
    rewrite (map_index_only _ _ _ Hcontent), (map_index_absent _ _ Htext).
    reflexivity.
  - unfold MainGo.firstText. cbv zeta.
    rewrite (map_index_only _ _ _ Hcontent), (map_index_absent _ _ Htext).
    reflexivity.
  - unfold Part000b.firstText, Part000b.decodeResult. cbv zeta.
    rewrite (decodeResultFields_only _ _ _ _ Hcontent).
    cbn [Part000b.Content Part000b.decodeSegments Part000b.decodeSegment].
    rewrite (decodeSegmentFields_absent _ _ _ Htext). reflexivity.
Qed.

Lemma segment_without_text_witness :
  result_of (program part_000_b no_text) = Returned tt /\
  last (printed (trace_of (program part_000_b no_text))) ""
  = Part000b.prSummary "feature" "1a2b3c4 - fix typo"
      ("README.md | 2 +-" ++ nl ++ " 1 file changed") "" ++ nl.
Proof.
  destruct (segment_without_text part_000_b no_text
              (Part000b.requestBody
                 (Part000b.prompt
                    (Part000b.processEmbeddings no_text [3%float; 4%float])
                    "2 files changed" sample_content))
              "{}" [("content", JArr [JObj [("type", JStr "tool_use")]])]
              [("type", JStr "tool_use")])
    as [Hreturned _].
  - reflexivity.
  - reflexivity.
  - reflexivity.
  - vm_compute. left. reflexivity.
  - split; [exact Hreturned|]. vm_compute. reflexivity.
Defined.

(* ================================================================= *)
(** ** How a run can end *)

Lemma MainGo_firstText_result :
  forall scanned,
    match result_of (MainGo.firstText scanned) with
    | Returned _ => True
    | Exited _ => False
    | Panicked _ => first_segment_not_object scanned
    end.
Proof.
  intros [err|j]; [exact I|].
  destruct j as [| | | | |members]; try exact I.
  unfold first_segment_not_object, MainGo.firstText. cbv zeta.
  destruct (map_index "content" members) as [[| | | |[|first rest]|]|];
    try exact I.
  destruct first; try exact I.
  destruct (map_index "text" members0) as [[]|]; exact I.
Qed.

Lemma summarizer_result :
  forall r W content,
    match result_of (summarizer r W content) with
    | Returned _ => True
    | Exited _ => False
    | Panicked _ =>
        r <> part_000_b /\
        exists p body scanned,
          In p (posts_to anthropicAPIURL (trace_of (summarizer r W content)))
          /\ http_Do W anthropicAPIURL p = Answered body scanned
          /\ first_segment_not_object scanned
    end.
Proof.
  intros r W content.
  assert (Direct :
    match result_of (MainGo.getAnthropicSummary W content) with
    | Returned _ => True
    | Exited _ => False
    | Panicked _ =>
        exists p body scanned,
          In p (posts_to anthropicAPIURL
                  (trace_of (MainGo.getAnthropicSummary W content)))
          /\ http_Do W anthropicAPIURL p = Answered body scanned
          /\ first_segment_not_object scanned
    end).
  { destruct (MainGo_summary_run W content) as [Hposts Hres].
    rewrite Hres, Hposts.
    destruct (http_Do W anthropicAPIURL (MainGo.requestBody content))
      as [err|body scanned] eqn:Ed; [exact I|].
    pose proof (MainGo_firstText_result scanned) as Hfirst.
    destruct (result_of (MainGo.firstText scanned)); try exact Hfirst.
    exists (MainGo.requestBody content), body, scanned.
    split; [left; reflexivity|]. split; [exact Ed|exact Hfirst]. }
  destruct r; cbn [summarizer].
  - destruct (result_of (MainGo.getAnthropicSummary W content));
      [exact I|exact Direct|].
    split; [discriminate|exact Direct].
  - unfold Part000a.getAnthropicSummary.
    destruct (result_of (MainGo.getAnthropicSummary W content));
      [exact I|exact Direct|].
    split; [discriminate|exact Direct].
  - destruct (Part000b_summary_local W content)
      as (_ & _ & _ & _ & [summary ->] & _). exact I.
Qed.

Ltac failed_command E :=
  autorewrite with trace; cbn [result_of fst];
  split; [reflexivity|];
  eexists _, _, _; split; [|exact E];
  cbn [In]; auto 10.

Ltac tail_of_run :=
  match goal with
  | |- context [bind ?m ?k] =>
      let Hr := fresh "Hr" in
      let Ht := fresh "Ht" in
      pose proof (result_bind _ _ m k) as Hr;
      pose proof (trace_bind _ _ m k) as Ht;
      destruct (bind m k) as [?o ?t];
      cbn [result_of trace_of fst snd] in Hr, Ht;
      rewrite Hr, Ht; clear Hr Ht
  end;
  autorewrite with trace.

(** X6: the ways a run can end.  A program exits only with status 1
    and only after one of its commands failed; it panics only in
    src/main.go and the first program of part_000, on an answer of the
    remote API whose first content element is not an object; otherwise
    it returns.  The second program of part_000 never panics. *)
Theorem ends_of_a_run :
  forall (r : revision) (W : World),
    match result_of (program r W) with
    | Returned _ => True
    | Exited code =>
        code = 1%Z /\
        exists name args err,
          In (name, args) (commands (trace_of (program r W))) /\
          cmd_Output W name args = Failed err
    | Panicked _ =>
        r <> part_000_b /\
        exists p body scanned,
          In p (posts_to anthropicAPIURL (trace_of (program r W))) /\
          http_Do W anthropicAPIURL p = Answered body scanned /\
          first_segment_not_object scanned
    end.
Proof.
  intros r W.
  destruct r; cbn [program];
    unfold MainGo.main, Part000a.main, Part000b.main;
    repeat run_command;
    try match goal with
        | E : cmd_Output _ _ _ = Failed _ |- _ => failed_command E
        end.
  - tail_of_run.
    pose proof (summarizer_result main_go W
                  ("Commits:" ++ nl ++ TrimSpace output1 ++ nl ++ nl
                   ++ "Changes Overview:" ++ nl ++ TrimSpace output2)) as Hs.
    cbn [summarizer] in Hs.
    destruct (result_of (MainGo.getAnthropicSummary W _));
      [exact I|destruct Hs|exact Hs].
  - destruct (2 <? len (TrimSpace output1))%nat.
    + unfold Println, emit. cbn [bind ret app result_of fst]. exact I.
    + unfold Part000a.getAnthropicSummary. rewrite bind_bind_ret.
      tail_of_run.
      pose proof (summarizer_result part_000_a W
                    ("Detailed Changes:" ++ nl ++ TrimSpace output2 ++ nl ++ nl
                     ++ "Changes Overview:" ++ nl ++ TrimSpace output3)) as Hs.
      cbn [summarizer] in Hs. unfold Part000a.getAnthropicSummary in Hs.
      destruct (result_of (MainGo.getAnthropicSummary W _));
        [exact I|destruct Hs|exact Hs].
  - destruct (0 <? len (TrimSpace output1))%nat.
    + tail_of_run.
      pose proof (summarizer_result part_000_b W
                    ("Detailed Changes:" ++ nl ++ TrimSpace output2 ++ nl ++ nl
                     ++ "Changes Overview:" ++ nl ++ TrimSpace output3)) as Hs.
      cbn [summarizer] in Hs.
      destruct (result_of (Part000b.getAnthropicSummary W _));
        [exact I|destruct Hs|exact Hs].
    + unfold Println, emit. cbn [bind ret app result_of fst]. exact I.
Qed.

(* ================================================================= *)
(** ** The local model service *)

Lemma decodeFloats_literals :
  forall (W : World) (literals : list string) (values : list float),
    Forall2 (fun literal v => strconv_ParseFloat W literal = Some v)
      literals values ->
    forall (old : list float) (saved : option string),
      Part000b.decodeFloats W old (map JNum literals) saved = (values, saved).
Proof.
  intros W literals values H.
  induction H as [|literal v literals values Hv _ IH]; intros old saved;
    [reflexivity|].
  cbn [map Part000b.decodeFloats Part000b.decodeFloat].
  rewrite Hv.
  destruct old as [|v0 old]; rewrite IH; reflexivity.
Qed.

Lemma decodeFloat_keeps_error :
  forall W old j err,
    snd (Part000b.decodeFloat W old j (Some err)) = Some err.
Proof.
  intros W old j err. unfold Part000b.decodeFloat.
  destruct j; try reflexivity.
  destruct (strconv_ParseFloat W literal); reflexivity.
Qed.

Lemma decodeFloats_keeps_error :
  forall W elems old err,
    snd (Part000b.decodeFloats W old elems (Some err)) = Some err.
Proof.
  intros W. induction elems as [|j elems IH]; intros old err; [reflexivity|].
  cbn [Part000b.decodeFloats].
  destruct old as [|v0 old].
  - pose proof (decodeFloat_keeps_error W 0%float j err) as H.
    destruct (Part000b.decodeFloat W 0%float j (Some err)) as [v saved1].
    cbn [snd] in H. subst saved1.
    specialize (IH [] err).
    destruct (Part000b.decodeFloats W [] elems (Some err)). exact IH.
  - pose proof (decodeFloat_keeps_error W v0 j err) as H.
    destruct (Part000b.decodeFloat W v0 j (Some err)) as [v saved1].
    cbn [snd] in H. subst saved1.
    specialize (IH old err).
    destruct (Part000b.decodeFloats W old elems (Some err)). exact IH.
Qed.

Lemma decodeFloats_out_of_range :
  forall (W : World) (literals : list string),
    Exists (fun literal => strconv_ParseFloat W literal = None) literals ->
    forall old, snd (Part000b.decodeFloats W old (map JNum literals) None)
                <> None.
Proof.
  intros W literals H.
  induction H as [literal literals Hbad|literal literals _ IH]; intro old;
    cbn [map Part000b.decodeFloats Part000b.decodeFloat].
  - rewrite Hbad. cbn [saveError].
    destruct old as [|v0 old].
    + match goal with
      | |- context [Part000b.decodeFloats W ?o ?e (Some ?x)] =>
          pose proof (decodeFloats_keeps_error W e o x) as H;
          destruct (Part000b.decodeFloats W o e (Some x))
      end.
      cbn [snd] in *. congruence.
    + match goal with
      | |- context [Part000b.decodeFloats W ?o ?e (Some ?x)] =>
          pose proof (decodeFloats_keeps_error W e o x) as H;
          destruct (Part000b.decodeFloats W o e (Some x))
      end.
      cbn [snd] in *. congruence.
  - destruct (strconv_ParseFloat W literal) as [v|].
    + destruct old as [|v0 old].
      * specialize (IH []).
        destruct (Part000b.decodeFloats W [] (map JNum literals) None).
        exact IH.
      * specialize (IH old).
        destruct (Part000b.decodeFloats W old (map JNum literals) None).
        exact IH.
    + cbn [saveError].
      destruct old as [|v0 old];
        match goal with
        | |- context [Part000b.decodeFloats W ?o ?e (Some ?x)] =>
            pose proof (decodeFloats_keeps_error W e o x) as H;
            destruct (Part000b.decodeFloats W o e (Some x))
        end;
        cbn [snd] in *; congruence.
Qed.

Lemma decodeEmbeddingFields_absent :
  forall (W : World) (ms : list (string * json))
         (r : Part000b.OllamaEmbeddingResponse) (saved : option string),
    members_for "embedding" ms = [] ->
    Part000b.decodeEmbeddingFields W r ms saved = (r, saved).
Proof.
  intros W. induction ms as [|[k x] ms IH]; intros r saved; [reflexivity|].
  unfold members_for. cbn [filter fst Part000b.decodeEmbeddingFields].
  destruct (equal_fold k "embedding") eqn:E; [discriminate|].
  intro H. rewrite (find_field_none _ _ E). apply IH. exact H.
Qed.

Lemma decodeEmbeddingFields_only :
  forall (W : World) (elems : list json) (ms : list (string * json))
         (r : Part000b.OllamaEmbeddingResponse) (saved : option string),
    members_for "embedding" ms = [("embedding", JArr elems)] ->
    Part000b.decodeEmbeddingFields W r ms saved
    = (let (l, saved') :=
         Part000b.decodeFloats W (Part000b.Embedding r) elems saved in
       ({| Part000b.Embedding := l |}, saved')).
Proof.
  intros W elems. induction ms as [|[k x] ms IH]; intros r saved;
    [discriminate|].
  unfold members_for. cbn [filter fst Part000b.decodeEmbeddingFields].
  destruct (equal_fold k "embedding") eqn:E.
  - intro H. injection H as -> -> H.
    change (find_field ["embedding"] "embedding") with (Some "embedding").
    cbv iota.
    destruct (Part000b.decodeFloats W (Part000b.Embedding r) elems saved)
      as [l saved'].
    apply decodeEmbeddingFields_absent. exact H.
  - intro H. rewrite (find_field_none _ _ E). apply IH. exact H.
Qed.

(** X7: [getEmbeddings] on an answer whose [embedding] member is an
    array of numbers: when every literal is in the range of float64 it
    returns their values, as many and in the same order; when one is
    out of range it returns an error.  It posts one request, for the
    text it was given. *)
Theorem getEmbeddings_decodes_vector :
  forall (W : World) (text body : string) (members : list (string * json))
         (literals : list string),
    http_Do W Part000b.ollamaAPIURL (Part000b.embeddingRequest text)
    = Answered body (inr (JObj members)) ->
    members_for "embedding" members
    = [("embedding", JArr (map JNum literals))] ->
    trace_of (Part000b.getEmbeddings W text)
    = [Post Part000b.ollamaAPIURL Part000b.jsonHeaders
         (Part000b.embeddingRequest text)] /\
    (forall values,
       Forall2 (fun literal v => strconv_ParseFloat W literal = Some v)
         literals values ->
       result_of (Part000b.getEmbeddings W text) = Returned (Ok values)) /\
    (Exists (fun literal => strconv_ParseFloat W literal = None) literals ->
     exists err, result_of (Part000b.getEmbeddings W text) = Returned (Err err)).
Proof.
  intros W text body members literals Hanswer Hmembers.
  split.
  { destruct (getEmbeddings_run W text) as [x ->]. reflexivity. }
  unfold Part000b.getEmbeddings, post, emit. cbn [bind ret app].
  rewrite Hanswer. unfold Part000b.decodeEmbeddingResponse. cbv zeta.
  rewrite (decodeEmbeddingFields_only _ _ _ _ _ Hmembers).
  cbn [Part000b.Embedding].
  split.
  - intros values Hvalues.
    rewrite (decodeFloats_literals W literals values Hvalues). reflexivity.
  - intro Hbad.
    pose proof (decodeFloats_out_of_range W literals Hbad []) as H.
    destruct (Part000b.decodeFloats W [] (map JNum literals) None)
      as [l [err|]]; cbn [snd] in H; [|congruence].
    eexists. reflexivity.
Qed.

Lemma getEmbeddings_decodes_vector_witness :
  result_of (Part000b.getEmbeddings typo_fixed "2 files changed")
  = Returned (Ok [3%float; 4%float]) /\
  exists err,
    result_of (Part000b.getEmbeddings huge_component "2 files changed")
    = Returned (Err err).
Proof.
  split.
  - destruct (getEmbeddings_decodes_vector typo_fixed "2 files changed" ""
                [("embedding", JArr [JNum "3"; JNum "4"])] ["3"; "4"])
      as (_ & Hvalues & _).
    + reflexivity.
    + reflexivity.
    + apply Hvalues. repeat constructor.
  - destruct (getEmbeddings_decodes_vector huge_component "2 files changed" ""
                [("embedding", JArr [JNum "3"; JNum "1e999"])] ["3"; "1e999"])
      as (_ & _ & Hbad).
    + reflexivity.
    + reflexivity.
    + apply Hbad. right. left. reflexivity.
Defined.

Ltac posts_norm :=
  repeat first
    [ rewrite posts_to_same
    | rewrite posts_to_other by reflexivity
    | rewrite posts_to_app
    | rewrite posts_to_compression_log
    | progress autorewrite with trace
    | progress cbn [app] ].

(** X8: an answer of the embedding endpoint without an [embedding]
    member (an error object, say) is no error for [getEmbeddings]: it
    returns the empty vector.  The summarizer goes on: the empty
    vector is encoded as [W10=], the encoding of [[]], and the remote
    API is asked with that in its prompt. *)
Theorem answer_without_embedding :
  forall (W : World) (content body : string) (compressed : fallible string)
         (members : list (string * json)),
    result_of (Part000b.compressLogs W content) = Returned compressed ->
    http_Do W Part000b.ollamaAPIURL
      (Part000b.embeddingRequest (compressed_or_original compressed content))
    = Answered body (inr (JObj members)) ->
    members_for "embedding" members = [] ->
    result_of (Part000b.getEmbeddings W
                 (compressed_or_original compressed content))
    = Returned (Ok []) /\
    Part000b.processEmbeddings W [] = "W10=" /\
    posts_to anthropicAPIURL
      (trace_of (Part000b.getAnthropicSummary W content))
    = [Part000b.requestBody
         (Part000b.prompt "W10="
            (compressed_or_original compressed content) content)].
Proof.
  intros W content body compressed members Hc Hanswer Hmembers.
  assert (He : result_of (Part000b.getEmbeddings W
                            (compressed_or_original compressed content))
               = Returned (Ok [])).
  { unfold Part000b.getEmbeddings, post, emit. cbn [bind ret app].
    rewrite Hanswer. unfold Part000b.decodeEmbeddingResponse. cbv zeta.
    rewrite (decodeEmbeddingFields_absent _ _ _ _ Hmembers). reflexivity. }
  split; [exact He|]. split; [reflexivity|].
  destruct (Part000b_summary_run W content)
    as (compressed' & embedded & o & rest & Hc' & He' & Hrun & Hcase).
  assert (compressed' = compressed) by congruence. subst compressed'.
  assert (embedded = Ok []) by congruence. subst embedded.
  destruct Hcase as (rest' & -> & Hrest' & _).
  rewrite Hrun. posts_norm. rewrite Hrest'. reflexivity.
Qed.

Lemma answer_without_embedding_witness :
  posts_to anthropicAPIURL
    (trace_of (Part000b.getAnthropicSummary no_embedding_model sample_content))
  = [Part000b.requestBody
       (Part000b.prompt "W10=" "2 files changed" sample_content)].
Proof.
  destruct (answer_without_embedding no_embedding_model sample_content ""
              (Ok "2 files changed") [("error", JStr "model not found")])
    as (_ & _ & Hposts).
  - reflexivity.
  - reflexivity.
  - reflexivity.
  - exact Hposts.
Defined.

(** X9: when [getEmbeddings] fails, the summarizer logs the error and
    returns the fallback string without asking the remote API. *)
Theorem embedding_failure_skips_remote :
  forall (W : World) (content err : string) (compressed : fallible string),
    result_of (Part000b.compressLogs W content) = Returned compressed ->
    result_of (Part000b.getEmbeddings W
                 (compressed_or_original compressed content))
    = Returned (Err err) ->
    result_of (Part000b.getAnthropicSummary W content)
    = Returned "Unable to generate summary" /\
    posts_to anthropicAPIURL
      (trace_of (Part000b.getAnthropicSummary W content)) = [] /\
    exists before,
      trace_of (Part000b.getAnthropicSummary W content)
      = (before ++ [Stdout ("Error getting embeddings: " ++ err ++ nl)])%list.
Proof.
  intros W content err compressed Hc He.
  destruct (Part000b_summary_run W content)
    as (compressed' & embedded & o & rest & Hc' & He' & Hrun & Hcase).
  assert (compressed' = compressed) by congruence. subst compressed'.
  assert (embedded = Err err) by congruence. subst embedded.
  destruct Hcase as [-> ->].
  rewrite Hrun. cbn [result_of trace_of fst snd].
  split; [reflexivity|]. split.
  - posts_norm. reflexivity.
  - eexists (_ :: (compression_log compressed ++ [_]))%list.
    cbn [app]. rewrite <- app_assoc. reflexivity.
Qed.

Lemma embedding_failure_skips_remote_witness :
  result_of (Part000b.getAnthropicSummary no_embeddings sample_content)
  = Returned "Unable to generate summary" /\
  posts_to anthropicAPIURL
    (trace_of (Part000b.getAnthropicSummary no_embeddings sample_content)) = [].
Proof.
  destruct (embedding_failure_skips_remote no_embeddings sample_content
              "error calling Ollama API: connection refused"
              (Ok "2 files changed"))
    as (Hfallback & Hposts & _).
  - reflexivity.
  - reflexivity.
  - split; [exact Hfallback|exact Hposts].
Defined.

Lemma find_field_response :
  forall k : string,
    equal_fold k "response" = true ->
    find_field ["response"; "done"] k = Some "response".
Proof.
  intros k E. unfold find_field. cbn [find].
  destruct (k =? "response") eqn:Er; [reflexivity|].
  destruct (k =? "done") eqn:Ed.
  - apply String.eqb_eq in Ed. subst k. discriminate E.
  - rewrite E. reflexivity.
Qed.

Lemma find_field_not_response :
  forall k : string,
    equal_fold k "response" = false ->
    find_field ["response"; "done"] k
    = if equal_fold k "done" then Some "done" else None.
Proof.
  intros k E. unfold find_field. cbn [find].
  destruct (k =? "response") eqn:Er.
  - apply exact_name_folds in Er. congruence.
  - destruct (k =? "done") eqn:Ed.
    + rewrite (exact_name_folds _ _ Ed). reflexivity.
    + rewrite E. destruct (equal_fold k "done"); reflexivity.
Qed.

Lemma decodeCompletionFields_absent :
  forall (ms : list (string * json)) (r : Part000b.OllamaCompletionResponse)
         (saved : option string),
    done_is_bool ms ->
    members_for "response" ms = [] ->
    exists d,
      Part000b.decodeCompletionFields r ms saved
      = ({| Part000b.Response := Part000b.Response r; Part000b.Done := d |},
         saved).
Proof.
  induction ms as [|[k x] ms IH]; intros r saved Hdone.
  - intros _. exists (Part000b.Done r). destruct r; reflexivity.
  - inversion Hdone as [|? ? Hx Hms]; subst. cbn [fst snd] in Hx.
    unfold members_for. cbn [filter fst Part000b.decodeCompletionFields].
    destruct (equal_fold k "response") eqn:E; [discriminate|].
    intro H. rewrite (find_field_not_response _ E).
    destruct (equal_fold k "done").
    + destruct (Hx eq_refl) as [b ->].
      change ("done" =? "response") with false. cbv iota.
      cbn [decodeBool].
      destruct (IH {| Part000b.Response := Part000b.Response r;
                      Part000b.Done := b |} saved Hms H) as [d ->].
      exists d. reflexivity.
    + apply IH; assumption.
Qed.

Lemma decodeCompletionFields_only :
  forall (s : string) (ms : list (string * json))
         (r : Part000b.OllamaCompletionResponse) (saved : option string),
    done_is_bool ms ->
    members_for "response" ms = [("response", JStr s)] ->
    exists d,
      Part000b.decodeCompletionFields r ms saved
      = ({| Part000b.Response := s; Part000b.Done := d |}, saved).
Proof.
  intros s. induction ms as [|[k x] ms IH]; intros r saved Hdone;
    [discriminate|].
  inversion Hdone as [|? ? Hx Hms]; subst. cbn [fst snd] in Hx.
  unfold members_for. cbn [filter fst Part000b.decodeCompletionFields].
  destruct (equal_fold k "response") eqn:E.
  - intro H. injection H as -> -> H.
    change (find_field ["response"; "done"] "response") with (Some "response").
    change ("response" =? "response") with true. cbv iota.
    cbn [decodeString].
    destruct (decodeCompletionFields_absent ms
                {| Part000b.Response := s; Part000b.Done := Part000b.Done r |}
                saved Hms H) as [d ->].
    exists d. reflexivity.
  - intro H. rewrite (find_field_not_response _ E).
    destruct (equal_fold k "done").
    + destruct (Hx eq_refl) as [b ->].
      change ("done" =? "response") with false. cbv iota.
      cbn [decodeBool].
      apply IH; assumption.
    + apply IH; assumption.
Qed.

(** X10: [compressLogs] on an answer that is a JSON object: it returns
    the string of the [response] member; when there is no such member
    (an error object, say) it returns the empty string and no error,
    so the summarizer does not fall back to the original content: it
    asks for the embeddings of the empty text. *)
Theorem compressLogs_decodes_response :
  forall (W : World) (content body : string) (members : list (string * json)),
    http_Do W Part000b.ollamaCompletionURL (Part000b.completionRequest content)
    = Answered body (inr (JObj members)) ->
    done_is_bool members ->
    (forall s,
       members_for "response" members = [("response", JStr s)] ->
       result_of (Part000b.compressLogs W content) = Returned (Ok s) /\
       posts_to Part000b.ollamaAPIURL
         (trace_of (Part000b.getAnthropicSummary W content))
       = [Part000b.embeddingRequest s]) /\
    (members_for "response" members = [] ->
     result_of (Part000b.compressLogs W content) = Returned (Ok "") /\
     posts_to Part000b.ollamaAPIURL
       (trace_of (Part000b.getAnthropicSummary W content))
     = [Part000b.embeddingRequest ""]).
Proof.
  intros W content body members Hanswer Hdone.
  assert (Hnext : forall s,
    result_of (Part000b.compressLogs W content) = Returned (Ok s) ->
    posts_to Part000b.ollamaAPIURL
      (trace_of (Part000b.getAnthropicSummary W content))
    = [Part000b.embeddingRequest s]).
  { intros s Hs.
    destruct (Part000b_summary_local W content)
      as (compressed & _ & _ & Hc & _ & _ & _ & Hembed & _).
    assert (compressed = Ok s) by congruence. subst compressed.
    exact Hembed. }
  split.
  - intros s Hmembers.
    assert (Hs : result_of (Part000b.compressLogs W content) = Returned (Ok s)).
    { unfold Part000b.compressLogs, post, emit. cbn [bind ret app].
      rewrite Hanswer. unfold Part000b.decodeCompletionResponse. cbv zeta.
      destruct (decodeCompletionFields_only s members
                  {| Part000b.Response := ""; Part000b.Done := false |}
                  None Hdone Hmembers) as [d ->].
      reflexivity. }
    split; [exact Hs|apply Hnext; exact Hs].
  - intro Hmembers.
    assert (Hs : result_of (Part000b.compressLogs W content) = Returned (Ok "")).
    { unfold Part000b.compressLogs, post, emit. cbn [bind ret app].
      rewrite Hanswer. unfold Part000b.decodeCompletionResponse. cbv zeta.
      destruct (decodeCompletionFields_absent members
                  {| Part000b.Response := ""; Part000b.Done := false |}
                  None Hdone Hmembers) as [d ->].
      reflexivity. }
    split; [exact Hs|apply Hnext; exact Hs].
Qed.

Lemma compressLogs_decodes_response_witness :
  posts_to Part000b.ollamaAPIURL
    (trace_of (Part000b.getAnthropicSummary no_generation_model sample_content))
  = [Part000b.embeddingRequest ""].
Proof.
  destruct (compressLogs_decodes_response no_generation_model sample_content ""
              [("error", JStr "model not found")])
    as [_ Hnone].
  - reflexivity.
  - constructor; [discriminate|constructor].
  - apply Hnone. reflexivity.
Defined.

(* ================================================================= *)
(** ** The requests of a run *)

Lemma no_post_when_offline :
  forall (t : list event),
    (forall url, posts_to url t = []) ->
    forall url headers payload, ~ In (Post url headers payload) t.
Proof.
  intros t Hoff url headers payload Hin.
  apply in_posts_to in Hin. rewrite Hoff in Hin. exact Hin.
Qed.

Lemma no_post_among_started :
  forall (started : list (string * list string)) url headers payload,
    ~ In (Post url headers payload) (map exec_of started).
Proof.
  induction started as [|c l IH]; intros url headers payload H.
  - exact H.
  - destruct H as [H|H]; [discriminate H|exact (IH _ _ _ H)].
Qed.

Lemma no_post_in_compression_log :
  forall compressed url headers payload,
    ~ In (Post url headers payload) (compression_log compressed).
Proof.
  intros [c|err] url headers payload H; [exact H|].
  destruct H as [H|H]; [discriminate H|exact H].
Qed.

Lemma summarizer_posts :
  forall r W content url headers payload,
    In (Post url headers payload) (trace_of (summarizer r W content)) ->
    (url = anthropicAPIURL /\
     headers = match r with
               | part_000_b => Part000b.headers W
               | _ => MainGo.headers W
               end) \/
    (r = part_000_b /\ headers = Part000b.jsonHeaders /\
     (url = Part000b.ollamaCompletionURL \/ url = Part000b.ollamaAPIURL)).
Proof.
  intros r W content url headers payload.
  assert (Direct :
    In (Post url headers payload)
      (trace_of (MainGo.getAnthropicSummary W content)) ->
    url = anthropicAPIURL /\ headers = MainGo.headers W).
  { destruct (MainGo_summary_run W content) as [Hposts _].
    assert (Hin : In (MainGo.requestBody content)
                    (posts_to anthropicAPIURL
                       (trace_of (MainGo.getAnthropicSummary W content))))
      by (rewrite Hposts; left; reflexivity).
    rewrite (MainGo_summary_remote W content _ Hin).
    destruct (http_Do W anthropicAPIURL (MainGo.requestBody content))
      as [err|body scanned]; cbn [trace_of snd].
    - intros [H|[H|[]]]; [|discriminate H].
      injection H as <- <- _. split; reflexivity.
    - intros [H|H].
      + injection H as <- <- _. split; reflexivity.
      + exfalso. revert H. apply no_post_when_offline.
        intro u. apply offline_MainGo_firstText. }
  destruct r; cbn [summarizer]; [left; auto|left; auto|].
  clear Direct.
  destruct (Part000b_summary_run W content)
    as (compressed & embedded & o & rest & _ & _ & Hrun & Hcase).
  rewrite Hrun. cbn [trace_of snd].
  intros [H|H].
  { injection H as <- <- _. right. auto. }
  apply in_app_or in H. destruct H as [H|[H|H]].
  { exfalso. exact (no_post_in_compression_log _ _ _ _ H). }
  { injection H as <- <- _. right. auto. }
  destruct embedded as [embeddings|err].
  - destruct Hcase as (rest' & -> & Hrest' & _).
    destruct H as [H|H].
    + injection H as <- <- _. left. split; reflexivity.
    + exfalso. exact (no_post_when_offline rest' Hrest' _ _ _ H).
  - destruct Hcase as [_ ->]. destruct H as [H|[]]. discriminate H.
Qed.

(** X11: every request of a run.  A request to the remote API carries
    the key read from [ANTHROPIC_API_KEY] and the version header, and
    a run makes at most one; the only other requests are those of the
    second program of part_000 to the two endpoints of the local model
    service, and they carry the content type and nothing else: the key
    goes nowhere but to the remote API. *)
Theorem requests_of_a_run :
  forall (r : revision) (W : World),
    (length (posts_to anthropicAPIURL (trace_of (program r W))) <= 1)%nat /\
    forall url headers payload,
      In (Post url headers payload) (trace_of (program r W)) ->
      (url = anthropicAPIURL /\
       headers
       = [("Content-Type", "application/json");
          (match r with part_000_b => "x-api-key" | _ => "X-API-Key" end,
           os_Getenv W "ANTHROPIC_API_KEY");
          ("anthropic-version", "2023-06-01")]) \/
      (r = part_000_b /\
       headers = [("Content-Type", "application/json")] /\
       (url = "http://localhost:11434/api/generate" \/
        url = "http://localhost:11434/api/embeddings")).
Proof.
  intros r W. split.
  - destruct (posts_to anthropicAPIURL (trace_of (program r W)))
      as [|p l] eqn:E; [cbn; lia|].
    assert (Hin : In p (posts_to anthropicAPIURL (trace_of (program r W))))
      by (rewrite E; left; reflexivity).
    destruct (run_through_summarizer r W _ p Hin)
      as (content & cb & cm & co & started & Hp & _ & Htrace).
    destruct (summarizer_answer r W content p Hp) as [Hone _].
    rewrite Htrace, !posts_to_app, posts_to_started, Hone in E.
    destruct (result_of (summarizer r W content));
      cbn [app posts_to] in E; assert (l = []) by congruence; subst l;
      cbn; lia.
  - intros url headers payload Hin.
    destruct (run_through_summarizer r W url payload (in_posts_to _ _ _ _ Hin))
      as (content & cb & cm & co & started & _ & _ & Htrace).
    rewrite Htrace in Hin.
    apply in_app_or in Hin. destruct Hin as [Hin|Hin].
    { exfalso. exact (no_post_among_started _ _ _ _ Hin). }
    apply in_app_or in Hin. destruct Hin as [Hin|Hin].
    + destruct (summarizer_posts r W content url headers payload Hin)
        as [[-> ->]|(-> & -> & Hurl)].
      * left. split; [reflexivity|]. destruct r; reflexivity.
      * right. auto.
    + exfalso. destruct (result_of (summarizer r W content));
        [destruct Hin as [H|H]; [discriminate H|exact H]
        |exact Hin|exact Hin].
Qed.

(* ================================================================= *)
(** ** The encoded embeddings *)

Lemma get_in_range :
  forall (s : string) (n : nat),
    (n < String.length s)%nat -> exists c, String.get n s = Some c.
Proof.
  induction s as [|a s IH]; intros n H; cbn [String.length] in H; [lia|].
  destruct n as [|n]; cbn [String.get].
  - exists a. reflexivity.
  - apply IH. lia.
Qed.

Lemma digit_in_alphabet :
  forall n : N,
    exists c, Base64.digit n = String c EmptyString /\
              In c (bytes Base64.encodeStd).
Proof.
  intro n. unfold Base64.digit.
  assert (H : (N.to_nat (n mod 64) < String.length Base64.encodeStd)%nat).
  { change (String.length Base64.encodeStd) with 64%nat.
    pose proof (N.mod_upper_bound n 64 ltac:(discriminate)). lia. }
  destruct (get_in_range _ _ H) as [c Hc]. rewrite Hc.
  exists c. split; [reflexivity|].
  clear H. revert Hc. generalize (N.to_nat (n mod 64)).
  generalize Base64.encodeStd.
  induction s as [|a s IH]; intros k Hk; [destruct k; discriminate Hk|].
  destruct k as [|k]; cbn [String.get] in Hk.
  - injection Hk as ->. left. reflexivity.
  - right. exact (IH k Hk).
Qed.

Ltac digits :=
  repeat match goal with
  | |- context [Base64.digit ?n] =>
      let c := fresh "c" in
      let Hc := fresh "Hc" in
      let Hin := fresh "Hin" in
      destruct (digit_in_alphabet n) as (c & Hc & Hin); rewrite Hc; clear Hc
  end.

Lemma encode_shape :
  forall (n : nat) (src : list N),
    (length src <= n)%nat ->
    String.length (Base64.encode src) = (4 * ((length src + 2) / 3))%nat /\
    Forall base64_char (bytes (Base64.encode src)).
Proof.
  induction n as [|n IH]; intros src Hn.
  - destruct src; [|cbn [length] in Hn; lia].
    split; [reflexivity|constructor].
  - destruct src as [|a [|b [|c rest]]].
    + split; [reflexivity|constructor].
    + cbn [Base64.encode]. cbv zeta. digits.
      split; [reflexivity|].
      repeat (constructor; [first [left; assumption | right; reflexivity]|]).
      constructor.
    + cbn [Base64.encode]. cbv zeta. digits.
      split; [reflexivity|].
      repeat (constructor; [first [left; assumption | right; reflexivity]|]).
      constructor.
    + cbn [Base64.encode]. cbv zeta. digits.
      destruct (IH rest) as [Hlen Hchars]; [cbn [length] in Hn; lia|].
      cbn [append String.length bytes list_ascii_of_string].
      split.
      * rewrite Hlen. cbn [length].
        replace (S (S (S (length rest))) + 2)%nat
          with (1 * 3 + (length rest + 2))%nat by lia.
        rewrite Nat.div_add_l by lia. lia.
      * repeat (constructor; [left; assumption|]). exact Hchars.
Qed.

(** X12: what [processEmbeddings] returns is well-formed base64: four
    characters for every three bytes encoded, the last group padded,
    all of them from the alphabet or the padding character. *)
Theorem processEmbeddings_is_base64 :
  (forall src : string,
     len (Base64.EncodeToString src) = (4 * ((len src + 2) / 3))%nat /\
     Forall base64_char (bytes (Base64.EncodeToString src))) /\
  (forall (W : World) (embeddings : list float),
     (len (Part000b.processEmbeddings W embeddings) mod 4 = 0)%nat /\
     Forall base64_char (bytes (Part000b.processEmbeddings W embeddings))).
Proof.
  assert (Hencode : forall src : string,
            len (Base64.EncodeToString src) = (4 * ((len src + 2) / 3))%nat /\
            Forall base64_char (bytes (Base64.EncodeToString src))).
  { intro src. unfold Base64.EncodeToString, len.
    destruct (encode_shape _ (map N_of_ascii (bytes src)) (le_n _))
      as [Hlen Hchars].
    split; [|exact Hchars].
    rewrite Hlen, length_map. unfold bytes.
    replace (length (list_ascii_of_string src)) with (String.length src);
      [reflexivity|].
    clear. induction src as [|a s IH]; [reflexivity|].
    cbn [String.length list_ascii_of_string length]. rewrite IH. reflexivity. }
  split; [exact Hencode|].
  intros W embeddings. unfold Part000b.processEmbeddings. cbv zeta.
  destruct (Hencode match Part000b.marshalFloats W (normalized embeddings) with
                    | Some b => b
                    | None => ""
                    end) as [Hlen Hchars].
  split; [|exact Hchars].
  rewrite Hlen. rewrite Nat.mul_comm. apply Nat.Div0.mod_mul.
Qed.

(* ================================================================= *)
(** ** When the summarizer is called *)

(** X13: src/main.go has no condition before its summarizer: a run in
    which no command failed asks the remote API exactly once, whatever
    the commit list is; a run that exits asks nothing. *)
Theorem main_go_always_summarizes :
  forall W : World,
    match result_of (program main_go W) with
    | Exited _ =>
        posts_to anthropicAPIURL (trace_of (program main_go W)) = []
    | _ =>
        exists content,
          posts_to anthropicAPIURL (trace_of (program main_go W))
          = [MainGo.requestBody content]
    end.
Proof.
  intro W. cbn [program]. unfold MainGo.main.
  repeat run_command; try (autorewrite with trace; reflexivity).
  tail_of_run.
  match goal with
  | |- context [MainGo.getAnthropicSummary W ?c] =>
      destruct (MainGo_summary_run W c) as [Hposts _];
      pose proof (summarizer_result main_go W c) as Hs;
      cbn [summarizer] in Hs;
      destruct (result_of (MainGo.getAnthropicSummary W c));
      [ | destruct Hs | ];
      exists c
  end.
  - rewrite posts_to_app, Hposts. reflexivity.
  - exact Hposts.
Qed.

(** X14: the condition of the second program of part_000, in a run in
    which no command failed: when [git log] printed nothing but white
    space, nothing at all is posted; otherwise the summarizer is
    called, and it asks the local model service once for a compressed
    text and once for embeddings. *)
Theorem part_000_b_summarizes_iff_commits :
  forall (W : World) (range pretty output : string),
    In ("git", ["log"; range; pretty])
      (commands (trace_of (program part_000_b W))) ->
    cmd_Output W "git" ["log"; range; pretty] = Succeeded output ->
    result_of (program part_000_b W) = Returned tt ->
    (len (TrimSpace output) = 0%nat ->
     forall url, posts_to url (trace_of (program part_000_b W)) = []) /\
    ((0 < len (TrimSpace output))%nat ->
     (exists content,
        posts_to Part000b.ollamaCompletionURL (trace_of (program part_000_b W))
        = [Part000b.completionRequest content]) /\
     length (posts_to Part000b.ollamaAPIURL (trace_of (program part_000_b W)))
     = 1%nat).
Proof.
  intros W range pretty output.
  cbn [program]. unfold Part000b.main.
  repeat run_command;
    try (autorewrite with trace; intros _ _ Hexit; discriminate Hexit).
  destruct (0 <? len (TrimSpace output2))%nat eqn:G.
  - match goal with
    | |- context [Part000b.getAnthropicSummary W ?c] =>
        destruct (Part000b_summary_local W c)
          as (compressed & _ & _ & _ & [summary Hsummary] & _ & Hgen & Hemb & _);
        pose proof (quiet_Part000b_getAnthropicSummary W c) as Q
    end.
    unfold quiet in Q.
    tail_of_run. rewrite Hsummary. autorewrite with trace.
    rewrite commands_app, Q. cbn [Println emit trace_of snd app].
    autorewrite with trace.
    intros Hin Hlog _.
    the_log_command.
    assert (output2 = output) by congruence. subst output2.
    apply Nat.ltb_lt in G.
    split; [intro Hzero; lia|]. intros _.
    rewrite !posts_to_app, Hgen, Hemb. autorewrite with trace.
    split; [eexists; reflexivity|reflexivity].
  - unfold Println, emit. cbn [bind ret app].
    autorewrite with trace.
    intros Hin Hlog _.
    the_log_command.
    assert (output2 = output) by congruence. subst output2.
    apply Nat.ltb_ge in G.
    split; [intros _ url; autorewrite with trace; reflexivity|].
    intro Hpos. lia.
Qed.

Lemma part_000_b_summarizes_iff_commits_witness :
  (forall url, posts_to url (trace_of (program part_000_b no_commits)) = []) /\
  length (posts_to Part000b.ollamaAPIURL (trace_of (program part_000_b typo_fixed)))
  = 1%nat.
Proof.
  split.
  - destruct (part_000_b_summarizes_iff_commits no_commits "main..feature"
                "--pretty=format:%h - %s" "")
      as [Hnone _].
    + vm_compute. right. right. left. reflexivity.
    + reflexivity.
    + vm_compute. reflexivity.
    + apply Hnone. reflexivity.
  - destruct (part_000_b_summarizes_iff_commits typo_fixed "main..feature"
                "--pretty=format:%h - %s" ("1a2b3c4 - fix typo" ++ nl))
      as [_ Hsome].
    + vm_compute. right. right. left. reflexivity.
    + reflexivity.
    + vm_compute. reflexivity.
    + apply Hsome. vm_compute. lia.
Defined.

(** X15: the condition of the first program of part_000, in a run in
    which no command failed: when the commit list is longer than two
    bytes the program prints [Printing out content], asks the remote
    API nothing and prints its report with an empty summary; when the
    commit list has at most two bytes it asks the remote API once. *)
Theorem part_000_a_summarizes_iff_short :
  forall (W : World) (range pretty output : string),
    In ("git", ["log"; range; pretty])
      (commands (trace_of (program part_000_a W))) ->
    cmd_Output W "git" ["log"; range; pretty] = Succeeded output ->
    result_of (program part_000_a W) <> Exited 1 ->
    ((2 < len (TrimSpace output))%nat ->
     posts_to anthropicAPIURL (trace_of (program part_000_a W)) = [] /\
     exists currentBranch changesOverview,
       printed (trace_of (program part_000_a W))
       = ["Printing out content" ++ nl;
          Part000a.prSummary currentBranch (TrimSpace output) changesOverview ""
          ++ nl]) /\
    ((len (TrimSpace output) <= 2)%nat ->
     exists content,
       posts_to anthropicAPIURL (trace_of (program part_000_a W))
       = [MainGo.requestBody content]).
Proof.
  intros W range pretty output.
  cbn [program]. unfold Part000a.main.
  repeat run_command;
    try (autorewrite with trace; intros _ _ Hexit; congruence).
  destruct (2 <? len (TrimSpace output2))%nat eqn:G.
  - unfold Println, emit. cbn [bind ret app snd].
    autorewrite with trace.
    intros Hin Hlog _.
    the_log_command.
    assert (output2 = output) by congruence. subst output2.
    apply Nat.ltb_lt in G.
    split; [intros _|intro Hshort; lia].
    split; [reflexivity|]. eexists _, _. reflexivity.
  - unfold Part000a.getAnthropicSummary. rewrite bind_bind_ret.
    match goal with
    | |- context [MainGo.getAnthropicSummary W ?c] =>
        destruct (MainGo_summary_run W c) as [Hposts _];
        pose proof (quiet_MainGo_getAnthropicSummary W c) as Q
    end.
    unfold quiet in Q.
    tail_of_run.
    match goal with
    | |- context [MainGo.getAnthropicSummary W ?c] => pose (content := c)
    end.
    destruct (result_of (MainGo.getAnthropicSummary W _));
      rewrite ?commands_app, Q; cbn [Println emit trace_of snd app];
      autorewrite with trace;
      intros Hin Hlog _;
      the_log_command;
      assert (output2 = output) by congruence; subst output2;
      apply Nat.ltb_ge in G;
      (split; [intro Hlong; lia|intros _]);
      exists content;
      rewrite ?posts_to_app, Hposts; reflexivity.
Qed.

Lemma part_000_a_summarizes_iff_short_witness :
  posts_to anthropicAPIURL (trace_of (program part_000_a typo_fixed)) = [] /\
  exists content,
    posts_to anthropicAPIURL (trace_of (program part_000_a no_commits))
    = [MainGo.requestBody content].
Proof.
  split.
  - destruct (part_000_a_summarizes_iff_short typo_fixed "main..feature"
                "--pretty=format:%h - %s" ("1a2b3c4 - fix typo" ++ nl))
      as [Hlong _].
    + vm_compute. right. right. left. reflexivity.
    + reflexivity.
    + vm_compute. discriminate.
    + apply Hlong. vm_compute. lia.
  - destruct (part_000_a_summarizes_iff_short no_commits "main..feature"
                "--pretty=format:%h - %s" "")
      as [_ Hshort].
    + vm_compute. right. right. left. reflexivity.
    + reflexivity.
    + vm_compute. discriminate.
    + apply Hshort. vm_compute. lia.
Defined.

(* ================================================================= *)
(** ** The queried base branch *)

Lemma bytes_app :
  forall a b : string, bytes (a ++ b) = (bytes a ++ bytes b)%list.
Proof.
  induction a as [|x a IH]; intro b; [reflexivity|].
  cbn [append bytes list_ascii_of_string app]. f_equal. apply IH.
Qed.

Lemma of_bytes_bytes : forall s : string, of_bytes (bytes s) = s.
Proof. exact string_of_list_ascii_of_string. Qed.

Lemma TrimPrefix_app :
  forall prefix s : string, TrimPrefix (prefix ++ s) prefix = s.
Proof.
  intros prefix s. unfold TrimPrefix.
  rewrite bytes_app, strip_prefix_app. apply of_bytes_bytes.
Qed.

Lemma TrimPrefix_other :
  forall prefix s : string,
    strip_prefix (bytes prefix) (bytes s) = None -> TrimPrefix s prefix = s.
Proof. intros prefix s H. unfold TrimPrefix. rewrite H. reflexivity. Qed.

(** X16: the base branch when no argument replaces it.  The name
    printed by the query for [origin/HEAD] is used without its prefix
    [origin/]; a name that does not start with [origin/] is used
    whole. *)
Theorem queried_base_branch :
  forall (r : revision) (W : World) (output output0 : string),
    cmd_Output W "git" ["rev-parse"; "--abbrev-ref"; "HEAD"]
    = Succeeded output ->
    cmd_Output W "git" ["rev-parse"; "--abbrev-ref"; "origin/HEAD"]
    = Succeeded output0 ->
    r = main_go \/ (length (os_Args W) <= 1)%nat ->
    (forall name,
       TrimSpace output0 = "origin/" ++ name ->
       compares_with name (TrimSpace output) (trace_of (program r W))) /\
    (strip_prefix (bytes "origin/") (bytes (TrimSpace output0)) = None ->
     compares_with (TrimSpace output0) (TrimSpace output)
       (trace_of (program r W))).
Proof.
  intros r W output output0 Hhead Horigin Hargs.
  assert (Hqueried :
    compares_with (TrimPrefix (TrimSpace output0) "origin/")
      (TrimSpace output) (trace_of (program r W))).
  { destruct r; cbn [program].
    - unfold MainGo.main. run_to_end Hhead Horigin ltac:(idtac).
    - destruct Hargs as [Hr|Hargs]; [discriminate Hr|].
      assert (Hbase : forall queried : string,
                match os_Args W with
                | _ :: arg :: _ => arg
                | _ => queried
                end = queried).
      { intro queried. destruct (os_Args W) as [|prog [|arg rest]];
          [reflexivity|reflexivity|]. cbn [length] in Hargs. lia. }
      unfold Part000a.main. run_to_end Hhead Horigin ltac:(rewrite Hbase).
    - destruct Hargs as [Hr|Hargs]; [discriminate Hr|].
      assert (Hbase : forall queried : string,
                match os_Args W with
                | _ :: arg :: _ => arg
                | _ => queried
                end = queried).
      { intro queried. destruct (os_Args W) as [|prog [|arg rest]];
          [reflexivity|reflexivity|]. cbn [length] in Hargs. lia. }
      unfold Part000b.main. run_to_end Hhead Horigin ltac:(rewrite Hbase). }
  split.
  - intros name Hname. rewrite Hname, TrimPrefix_app in Hqueried.
    exact Hqueried.
  - intro Hother. rewrite (TrimPrefix_other _ _ Hother) in Hqueried.
    exact Hqueried.
Qed.

Lemma queried_base_branch_witness :
  compares_with "main" "feature" (trace_of (program main_go typo_fixed)) /\
  compares_with "upstream/main" "feature"
    (trace_of (program part_000_b other_remote)).
Proof.
  split.
  - destruct (queried_base_branch main_go typo_fixed
                ("feature" ++ nl) ("origin/main" ++ nl))
      as [Hprefix _].
    + reflexivity.
    + reflexivity.
    + left. reflexivity.
    + apply (Hprefix "main"). reflexivity.
  - destruct (queried_base_branch part_000_b other_remote
                ("feature" ++ nl) ("upstream/main" ++ nl))
      as [_ Hwhole].
    + reflexivity.
    + reflexivity.
    + right. cbn. lia.
    + apply Hwhole. reflexivity.
Defined.

(* ================================================================= *)
(** ** What is written to standard output *)

Lemma MainGo_firstText_prints_nothing :
  forall scanned, printed (trace_of (MainGo.firstText scanned)) = [].
Proof.
  intros [err|j]; [reflexivity|].
  destruct j as [| | | | |members]; try reflexivity.
  unfold MainGo.firstText. cbv zeta.
  destruct (map_index "content" members) as [[| | | |[|first rest]|]|];
    try reflexivity.
  destruct first; try reflexivity.
  destruct (map_index "text" members0) as [[]|]; reflexivity.
Qed.

(** X17: the second program of part_000 writes the body of the answer
    of the remote API to standard output, as it came, before its
    report; src/main.go and the first program of part_000, given an
    answer, write nothing between their commands and the report. *)
Theorem answer_is_echoed :
  forall (r : revision) (W : World) (p : json) (body : string)
         (scanned : string + json),
    http_Do W anthropicAPIURL p = Answered body scanned ->
    In p (posts_to anthropicAPIURL (trace_of (program r W))) ->
    result_of (program r W) = Returned tt ->
    exists report,
      match r with
      | part_000_b =>
          exists before after,
            printed (trace_of (program r W))
            = (before
               ++ ("Anthropic API Response: " ++ body ++ nl)%string
                  :: after ++ [report])%list
      | _ => printed (trace_of (program r W)) = [report]
      end.
Proof.
  intros r W p body scanned Hanswer Hin Hreturned.
  destruct (run_through_summarizer r W _ p Hin)
    as (content & cb & cm & co & started & Hp & Hres & Htrace).
  rewrite Hres in Hreturned. rewrite Htrace.
  destruct (result_of (summarizer r W content)) as [summary| |] eqn:Es;
    try discriminate Hreturned.
  exists (prSummary_of r cb cm co summary ++ nl).
  rewrite !printed_app, printed_started. cbn [app printed].
  destruct r; cbn [summarizer] in *.
  - rewrite (MainGo_summary_remote W content p Hp), Hanswer.
    cbn [trace_of snd printed].
    pose proof (MainGo_firstText_prints_nothing scanned) as Hsilent.
    rewrite Hsilent. reflexivity.
  - unfold Part000a.getAnthropicSummary in *.
    rewrite (MainGo_summary_remote W content p Hp), Hanswer.
    cbn [trace_of snd printed].
    pose proof (MainGo_firstText_prints_nothing scanned) as Hsilent.
    rewrite Hsilent. reflexivity.
  - destruct (Part000b_summary_remote W content p Hp) as [before ->].
    rewrite Hanswer. cbn [trace_of snd].
    rewrite printed_app. cbn [printed].
    exists (printed before), (printed (trace_of (Part000b.firstText scanned))).
    rewrite <- app_assoc. reflexivity.
Qed.

Lemma answer_is_echoed_witness :
  exists report before after,
    printed (trace_of (program part_000_b typo_fixed))
    = (before
       ++ ("Anthropic API Response: " ++ one_segment_text "Fixes a typo." ++ nl)%string
          :: after ++ [report])%list.
Proof.
  apply (answer_is_echoed part_000_b typo_fixed
           (Part000b.requestBody
              (Part000b.prompt
                 (Part000b.processEmbeddings typo_fixed [3%float; 4%float])
                 "2 files changed" sample_content))
           (one_segment_text "Fixes a typo.")
           (inr (one_segment "Fixes a typo."))).
  - reflexivity.
  - vm_compute. left. reflexivity.
  - vm_compute. reflexivity.
Defined.
